(** * controller-tools, package crdgo: the Go-literal generator for CRDs

  A shallow embedding of [pkg/crdgo/traverse.go] (the import registry and
  the reflective value serializer) and of [pkg/crdgo/gen.go] (the
  generation driver and the trivial-version collapse), with the
  properties of the design document proved or refuted over it.

  Go strings are byte sequences: they are modelled by [string], whose
  characters are the 256 values of [ascii].  Runes and integers are [Z]. *)

From stdpp Require Import gmap strings list fin_maps.
From Stdlib Require Import ZArith Ascii String Permutation.

#[local] Set Warnings "-register-all".

Local Open Scope string_scope.
Local Open Scope Z_scope.

(** ** Go strings *)

Module GoString.

Definition byte_of (a : ascii) : Z := Z.of_N (N_of_ascii a).
Definition of_byte (b : Z) : ascii := ascii_of_N (Z.to_N b).

(** [len(s)] *)
Definition len (s : string) : Z := Z.of_nat (String.length s).

(** [s[n:]] and [s[:n]], for [0 <= n <= len(s)] *)
Fixpoint drop (n : nat) (s : string) : string :=
  match n, s with
  | O, _ => s
  | S n', String _ s' => drop n' s'
  | S _, EmptyString => EmptyString
  end.

Fixpoint take (n : nat) (s : string) : string :=
  match n, s with
  | O, _ => EmptyString
  | S n', String a s' => String a (take n' s')
  | S _, EmptyString => EmptyString
  end.

Definition slice_from (s : string) (i : Z) : string := drop (Z.to_nat i) s.
Definition slice_to (s : string) (i : Z) : string := take (Z.to_nat i) s.

(** [strings.LastIndex(s, substr)]: the index of the last occurrence of
    [substr] in [s], or [-1].  [go i s substr last] scans the suffix [s]
    that starts at index [i], remembering the last match seen. *)
Fixpoint LastIndex_go (i : Z) (s substr : string) (last : Z) : Z :=
  let last' := if String.prefix substr s then i else last in
  match s with
  | EmptyString => last'
  | String _ s' => LastIndex_go (i + 1) s' substr last'
  end.

Definition LastIndex (s substr : string) : Z := LastIndex_go 0 s substr (-1).

(** [path.Split]:
<<
    i := strings.LastIndex(path, "/")
    return path[:i+1], path[i+1:]
>> *)
Definition path_Split (path : string) : string * string :=
  let i := LastIndex path "/" in
  (slice_to path (i + 1), slice_from path (i + 1)).

End GoString.

(** ** unicode/utf8 *)

Module utf8.
Import GoString.

Definition RuneError : Z := 65533.
Definition MaxRune : Z := 1114111.

Definition cont (b : Z) : bool := (128 <=? b) && (b <=? 191).
Definition within (lo hi b : Z) : bool := (lo <=? b) && (b <=? hi).

(** The [first] table of the decoder: for a leading byte, the length of
    the sequence and the accepted range of the second byte; [None] for
    the bytes that start no sequence (the table's [xx]). *)
Definition first (s0 : Z) : option (Z * (Z * Z)) :=
  if within 194 223 s0 then Some (2, (128, 191))
  else if s0 =? 224 then Some (3, (160, 191))
  else if within 225 236 s0 then Some (3, (128, 191))
  else if s0 =? 237 then Some (3, (128, 159))
  else if within 238 239 s0 then Some (3, (128, 191))
  else if s0 =? 240 then Some (4, (144, 191))
  else if within 241 243 s0 then Some (4, (128, 191))
  else if s0 =? 244 then Some (4, (128, 143))
  else None.

Definition bytes (s : string) : list Z :=
  map byte_of (list_ascii_of_string s).

(** [utf8.DecodeRuneInString]: the first rune of [s] and its width in
    bytes; [(RuneError, 0)] for the empty string and [(RuneError, 1)]
    for an invalid encoding. *)
Definition DecodeRuneInString (s : string) : Z * Z :=
  match bytes s with
  | [] => (RuneError, 0)
  | s0 :: rest =>
      if s0 <? 128 then (s0, 1)
      else match first s0 with
      | None => (RuneError, 1)
      | Some (sz, (lo, hi)) =>
          match rest with
          | [] => (RuneError, 1)
          | s1 :: rest1 =>
              if negb (within lo hi s1) then (RuneError, 1)
              else if sz <=? 2 then
                (Z.lor (Z.shiftl (Z.land s0 31) 6) (Z.land s1 63), 2)
              else match rest1 with
              | [] => (RuneError, 1)
              | s2 :: rest2 =>
                  if negb (cont s2) then (RuneError, 1)
                  else if sz <=? 3 then
                    (Z.lor (Z.lor (Z.shiftl (Z.land s0 15) 12)
                                  (Z.shiftl (Z.land s1 63) 6))
                           (Z.land s2 63), 3)
                  else match rest2 with
                  | [] => (RuneError, 1)
                  | s3 :: _ =>
                      if negb (cont s3) then (RuneError, 1)
                      else
                        (Z.lor (Z.lor (Z.lor (Z.shiftl (Z.land s0 7) 18)
                                             (Z.shiftl (Z.land s1 63) 12))
                                      (Z.shiftl (Z.land s2 63) 6))
                               (Z.land s3 63), 4)
                  end
              end
          end
      end
  end.

Definition str (bs : list Z) : string :=
  string_of_list_ascii (map of_byte bs).

(** [utf8.EncodeRune] / [strings.Builder.WriteRune]: surrogates and
    out-of-range runes are written as [RuneError]. *)
Definition EncodeRune (r : Z) : string :=
  let three (r : Z) :=
    str [Z.lor 224 (Z.shiftr r 12);
         Z.lor 128 (Z.land (Z.shiftr r 6) 63);
         Z.lor 128 (Z.land r 63)] in
  if (0 <=? r) && (r <? 128) then str [r]
  else if (0 <=? r) && (r <? 2048) then
    str [Z.lor 192 (Z.shiftr r 6); Z.lor 128 (Z.land r 63)]
  else if (r <? 0) || (MaxRune <? r) || within 55296 57343 r then
    three RuneError
  else if r <? 65536 then three r
  else
    str [Z.lor 240 (Z.shiftr r 18);
         Z.lor 128 (Z.land (Z.shiftr r 12) 63);
         Z.lor 128 (Z.land (Z.shiftr r 6) 63);
         Z.lor 128 (Z.land r 63)].

(** [for _, c := range s]: the runes of [s], an invalid byte read as
    [RuneError] of width 1.  The fuel is the number of bytes. *)
Fixpoint runes_go (fuel : nat) (s : string) : list Z :=
  match fuel, s with
  | O, _ | _, EmptyString => []
  | S fuel', _ =>
      let '(c, w) := DecodeRuneInString s in
      c :: runes_go fuel' (slice_from s w)
  end.

(** [[]rune(s)] *)
Definition runes (s : string) : list Z := runes_go (String.length s) s.

(** [string(rs)] for [rs []rune] *)
Fixpoint of_runes (rs : list Z) : string :=
  match rs with
  | [] => EmptyString
  | r :: rs' => EncodeRune r +:+ of_runes rs'
  end.

End utf8.

(** ** unicode

  The character tables of Go's [unicode] package are data of the Go
  distribution; the registry is verified for every table.  The two laws
  say that U+FFFD, the rune the decoder reports for an invalid byte, is
  neither a letter nor a digit (it is a symbol, category So): under them
  the digit-skipping loop of [NeedImport] stops on the empty string and
  [strings.Map] below is exact on invalid bytes. *)

Class Unicode := {
  IsLetter : Z -> bool;
  IsDigit : Z -> bool;
  IsLetter_RuneError : IsLetter utf8.RuneError = false;
  IsDigit_RuneError : IsDigit utf8.RuneError = false
}.

(** The tables restricted to Latin-1, where [unicode.IsDigit] and
  [unicode.IsLetter] read a fixed property array: the digits are
  [0-9]; the letters are [A-Z], [a-z], U+00AA, U+00B5, U+00BA,
  U+00C0-U+00D6, U+00D8-U+00F6 and U+00F8-U+00FF.  The concrete runs
  below use it on strings of Latin-1 runes. *)
Definition latin1_IsDigit (r : Z) : bool := utf8.within 48 57 r.
Definition latin1_IsLetter (r : Z) : bool :=
  utf8.within 65 90 r || utf8.within 97 122 r
  || (r =? 170) || (r =? 181) || (r =? 186)
  || utf8.within 192 214 r || utf8.within 216 246 r || utf8.within 248 255 r.

#[export] Instance latin1 : Unicode :=
  {| IsLetter := latin1_IsLetter; IsDigit := latin1_IsDigit;
     IsLetter_RuneError := eq_refl; IsDigit_RuneError := eq_refl |}.

(** ** strings.Map *)

Module strings.
Import GoString.

(** [strings.Map(mapping, s)]: every rune of [s] is replaced by its
    image, a negative image dropping the rune. *)
Fixpoint Map_go (fuel : nat) (mapping : Z -> Z) (s : string) : string :=
  match fuel, s with
  | O, _ | _, EmptyString => EmptyString
  | S fuel', _ =>
      let '(c, w) := utf8.DecodeRuneInString s in
      let r := mapping c in
      (if 0 <=? r then utf8.EncodeRune r else EmptyString)
        +:+ Map_go fuel' mapping (slice_from s w)
  end.

Definition Map (mapping : Z -> Z) (s : string) : string :=
  Map_go (String.length s) mapping s.

End strings.

(** ** The import registry ([importsList]) *)

Record importsList := {
  byPath : gmap string string;
  byAlias : gmap string string
}.

(** The package variable [imports]: both maps empty. *)
Definition imports : importsList := {| byPath := ∅; byAlias := ∅ |}.

Section NeedImport.
Context `{Unicode}.
Import GoString.

(** The two-valued map read [v, ok := m[k]]. *)
Definition comma_ok (m : gmap string string) (k : string) : string * bool :=
  match m !! k with
  | Some v => (v, true)
  | None => (EmptyString, false)
  end.

(** [importPath[ind+8:]] when ["/vendor/"] occurs in [importPath]. *)
Definition NonVendor (importPath : string) : string :=
  let ind := LastIndex importPath "/vendor/" in
  if negb (ind =? -1) then slice_from importPath (ind + 8) else importPath.

(** The inner loop: leading digits are skipped, rune by rune. *)
Fixpoint skipDigits_go (fuel : nat) (nextWord : string) : string :=
  let '(firstRune, runeLen) := utf8.DecodeRuneInString nextWord in
  if IsDigit firstRune then
    match fuel with
    | O => nextWord
    | S fuel' => skipDigits_go fuel' (slice_from nextWord runeLen)
    end
  else nextWord.

Definition skipDigits (nextWord : string) : string :=
  skipDigits_go (String.length nextWord) nextWord.

(** The function handed to [strings.Map]. *)
Definition identRune (r : Z) : Z :=
  if IsLetter r || IsDigit r || (r =? 95) then r else 95.

(** One pass through the body of the outer loop, on the loop variables
    [alias], [restPath] and [nextWord]. *)
Definition NeedImport_body (alias restPath nextWord : string)
  : string * string * string :=
  let alias := if String.eqb restPath "" then alias +:+ "x" else alias in
  let nextWord := skipDigits nextWord in
  let nextWord := strings.Map identRune nextWord in
  let alias := nextWord +:+ alias in
  if 0 <? len restPath then
    let '(restPath, nextWord) :=
      path_Split (slice_to restPath (len restPath - 1)) in
    (alias, restPath, nextWord)
  else (alias, restPath, nextWord).

(** The outer loop
<<
    for otherPath, exists := "", true;
        exists && otherPath != importPath;
        otherPath, exists = l.byAlias[alias] { ... }
>>
    entered with the loop variables given; [None] when the fuel runs out. *)
Fixpoint NeedImport_loop (fuel : nat) (l : importsList) (importPath : string)
    (otherPath : string) (exists_ : bool)
    (alias restPath nextWord : string) : option string :=
  if exists_ && negb (String.eqb otherPath importPath) then
    match fuel with
    | O => None
    | S fuel' =>
        let '(alias, restPath, nextWord) :=
          NeedImport_body alias restPath nextWord in
        let '(otherPath, exists_) := comma_ok (byAlias l) alias in
        NeedImport_loop fuel' l importPath otherPath exists_
                        alias restPath nextWord
    end
  else Some alias.

(** Enough fuel for the loop (see [NeedImport_loop_fuel]): [restPath]
    shrinks at each pass until it is empty, and from then on [alias]
    grows at each pass while it stays a key of [byAlias]. *)
Definition NeedImport_fuel (l : importsList) (importPath : string) : nat :=
  (String.length importPath + size (byAlias l) + 2)%nat.

(** [NeedImport]: the alias returned and the registry left behind. *)
Definition NeedImport (importPath : string) (l : importsList)
  : option (string * importsList) :=
  let importPath := NonVendor importPath in
  let '(alias, exists_) := comma_ok (byPath l) importPath in
  if exists_ then Some (alias, l)
  else
    let '(restPath, nextWord) := path_Split importPath in
    match NeedImport_loop (NeedImport_fuel l importPath) l importPath
                          "" true alias restPath nextWord with
    | None => None
    | Some alias =>
        Some (alias, {| byPath := <[importPath := alias]> (byPath l);
                        byAlias := <[alias := importPath]> (byAlias l) |})
    end.

(** [ImportAlias] *)
Definition ImportAlias (l : importsList) : gmap string string := byPath l.

End NeedImport.

(** ** [Capitalize] *)

Definition Capitalize (str : string) : string :=
  if GoString.len str <? 1 then EmptyString
  else
    match utf8.runes str with
    | [] => utf8.of_runes []
    | r0 :: rest =>
        let r0 := if (97 <=? r0) && (r0 <=? 122) then r0 - 32 else r0 in
        utf8.of_runes (r0 :: rest)
    end.

(** ** The kinds of Go's numbers *)

Inductive IntKind := Int | Int8 | Int16 | Int32 | Int64.
Inductive UintKind := Uint | Uint8 | Uint16 | Uint32 | Uint64 | Uintptr.
Inductive FloatKind := Float32 | Float64.
Inductive OpaqueKind := Complex64 | Complex128 | Interface | UnsafePointer.

(** ** jennifer ([jen]): the code under construction

    A [*jen.Statement] is a sequence of tokens and groups in the order the
    builder methods appended them.  [Stmt items] is a statement, [Nil] the
    nil statement; [Add] appends its argument as one item, so statements
    nest.  A [jen.Dict] is a Go map keyed by the key statements
    themselves (by pointer): no two entries ever merge, and the entries
    are listed here in the order they were stored. *)

Module jen.

Inductive Literal :=
| LBool (b : bool)
| LInt (k : IntKind) (n : Z)
| LUint (k : UintKind) (n : Z)
| LFloat (k : FloatKind) (f : Z)   (* the IEEE 754 bits of the value *)
| LString (s : string)
| LNil.

Inductive Grouping :=
| GIndex | GMap | GValues | GParens | GCall | GParams | GBlock | GStruct
| GReturn.

Inductive Code :=
| Op (op : string)
| Id (name : string)
| Qual (path name : string)
| Lit (v : Literal)
| Keyword (word : string)      (* func, var, chan *)
| Byte
| Line
| Comment (text : string)
| Group (kind : Grouping) (items : list Code)
| Dict (entries : list (Code * Code))
| Stmt (items : list Code)
| Nil.

(** The items of a statement; the builder methods are only ever called on
    statements that are not nil. *)
Definition items_of (c : Code) : list Code :=
  match c with
  | Stmt items => items
  | _ => []
  end.

(** [s.Add(c)], [s.Values(cs...)], [s.Parens(c)], [s.Call(cs...)] *)
Definition Add (s : Code) (c : Code) : Code := Stmt (items_of s ++ [c]).
Definition Values (s : Code) (cs : list Code) : Code :=
  Stmt (items_of s ++ [Group GValues cs]).
Definition Parens (s : Code) (c : Code) : Code :=
  Stmt (items_of s ++ [Group GParens [c]]).
Definition Call (s : Code) (cs : list Code) : Code :=
  Stmt (items_of s ++ [Group GCall cs]).

(** A generated file: what [jen.NewFile], [HeaderComment], [ImportAlias]
    and the statement builders of [*jen.File] have recorded. *)
Record File := {
  file_package : string;
  file_headers : list string;
  file_aliases : list (string * string);
  file_body : list Code
}.

End jen.

(** ** reflect: types and values as the generator inspects them *)


(** The kinds of the types that have no element type and no fields. *)
Inductive BasicKind :=
| BBool
| BInt (k : IntKind)
| BUint (k : UintKind)
| BFloat (k : FloatKind)
| BString
| BOpaque (k : OpaqueKind).

(** [reflect.Kind] *)
Inductive Kind :=
| Basic (k : BasicKind)
| Array | Chan | Func | Map | Ptr | Slice | Struct.

(** [Kind.String()] *)
Definition Kind_String (k : Kind) : string :=
  match k with
  | Basic BBool => "bool"
  | Basic (BInt Int) => "int"
  | Basic (BInt Int8) => "int8"
  | Basic (BInt Int16) => "int16"
  | Basic (BInt Int32) => "int32"
  | Basic (BInt Int64) => "int64"
  | Basic (BUint Uint) => "uint"
  | Basic (BUint Uint8) => "uint8"
  | Basic (BUint Uint16) => "uint16"
  | Basic (BUint Uint32) => "uint32"
  | Basic (BUint Uint64) => "uint64"
  | Basic (BUint Uintptr) => "uintptr"
  | Basic (BFloat Float32) => "float32"
  | Basic (BFloat Float64) => "float64"
  | Basic (BOpaque Complex64) => "complex64"
  | Basic (BOpaque Complex128) => "complex128"
  | Basic (BOpaque Interface) => "interface"
  | Basic (BOpaque UnsafePointer) => "unsafe.Pointer"
  | Basic BString => "string"
  | Array => "array"
  | Chan => "chan"
  | Func => "func"
  | Map => "map"
  | Ptr => "ptr"
  | Slice => "slice"
  | Struct => "struct"
  end.

(** [reflect.Type].  Of a pointer, slice, array, map or channel type the
    generator reads the kind and the element types only; of a struct type
    met as an element or field type it reads [PkgPath] and [Name] only
    (the fields of a struct type are read from the type of a struct
    value, [StructType] below), which is what lets the recursive types of
    the CRD schema be described. *)
Inductive rtype :=
| TBasic (k : BasicKind) (pkgPath name : string)
| TPtr (elem : rtype)
| TSlice (elem : rtype)
| TArray (len : Z) (elem : rtype)
| TMap (key elem : rtype)
| TChan (elem : rtype)
| TFunc
| TStruct (pkgPath name : string).

Definition Kind_of (t : rtype) : Kind :=
  match t with
  | TBasic k _ _ => Basic k
  | TPtr _ => Ptr
  | TSlice _ => Slice
  | TArray _ _ => Array
  | TMap _ _ => Map
  | TChan _ => Chan
  | TFunc => Func
  | TStruct _ _ => Struct
  end.

Definition PkgPath (t : rtype) : string :=
  match t with
  | TBasic _ p _ | TStruct p _ => p
  | _ => EmptyString
  end.

Definition Name (t : rtype) : string :=
  match t with
  | TBasic _ _ n | TStruct _ n => n
  | _ => EmptyString
  end.

(** [reflect.StructField] *)
Record StructField := {
  field_Name : string;
  field_PkgPath : string;     (* empty for an exported field *)
  field_Type : rtype;
  field_Anonymous : bool      (* an embedded field *)
}.

(** The type of a struct value: its name, its fields, and which of
    [json.Marshaler] and [json.Unmarshaler] the type [T] and the pointer
    type [*T] implement. *)
Record StructType := {
  struct_PkgPath : string;
  struct_Name : string;
  struct_Fields : list StructField;
  T_Marshaler : bool;
  PtrT_Marshaler : bool;
  T_Unmarshaler : bool;
  PtrT_Unmarshaler : bool
}.

(** [reflect.Value].  A nil pointer is [None], a pointer that is not nil
    is the address it holds and the value stored there.  A nil slice or
    map is [None], an empty one [Some []]; the entries of a map come in
    the order [MapRange] visits them, which Go leaves unspecified.  A
    floating-point number is carried as the bits of its IEEE 754
    representation. *)
Inductive value :=
| VBool (pkgPath name : string) (b : bool)
| VInt (k : IntKind) (pkgPath name : string) (i : Z)
| VUint (k : UintKind) (pkgPath name : string) (u : Z)
| VFloat (k : FloatKind) (pkgPath name : string) (f : Z)
| VString (pkgPath name : string) (s : string)
| VOpaque (k : OpaqueKind) (pkgPath name : string) (isZero : bool)
| VPtr (elem : rtype) (target : option (Z * value))
| VSlice (elem : rtype) (elems : option (list value))
| VArray (elem : rtype) (elems : list value)
| VMap (key elem : rtype) (entries : option (list (value * value)))
| VChan (elem : rtype) (isNil : bool)
| VFunc (isNil : bool)
| VStruct (t : StructType) (fields : list value).

(** [v.Type()] *)
Definition Type_of (v : value) : rtype :=
  match v with
  | VBool p n _ => TBasic BBool p n
  | VInt k p n _ => TBasic (BInt k) p n
  | VUint k p n _ => TBasic (BUint k) p n
  | VFloat k p n _ => TBasic (BFloat k) p n
  | VString p n _ => TBasic BString p n
  | VOpaque k p n _ => TBasic (BOpaque k) p n
  | VPtr e _ => TPtr e
  | VSlice e _ => TSlice e
  | VArray e vs => TArray (Z.of_nat (List.length vs)) e
  | VMap k e _ => TMap k e
  | VChan e _ => TChan e
  | VFunc _ => TFunc
  | VStruct t _ => TStruct (struct_PkgPath t) (struct_Name t)
  end.

(** [v.IsZero()] *)
Fixpoint IsZero (v : value) : bool :=
  match v with
  | VBool _ _ b => negb b
  | VInt _ _ _ i => i =? 0
  | VUint _ _ _ u => u =? 0
  | VFloat _ _ _ f => f =? 0
  | VString _ _ s => GoString.len s =? 0
  | VOpaque _ _ _ z => z
  | VPtr _ None | VSlice _ None | VMap _ _ None => true
  | VPtr _ (Some _) | VSlice _ (Some _) | VMap _ _ (Some _) => false
  | VArray _ vs => forallb IsZero vs
  | VChan _ isNil | VFunc isNil => isNil
  | VStruct _ fs => forallb IsZero fs
  end.

(** The values a value holds: what a pointer points to, the elements of
    a slice or array, the keys and elements of a map, the fields of a
    struct. *)
Definition children (v : value) : list value :=
  match v with
  | VPtr _ (Some (_, pointee)) => [pointee]
  | VSlice _ (Some vs) | VArray _ vs | VStruct _ vs => vs
  | VMap _ _ (Some kvs) => flat_map (fun '(kv, vv) => [kv; vv]) kvs
  | _ => []
  end.

(** [github.com/zoumo/golib/reflection] and [encoding/json] are
    dependencies of the module, not code of it: the serializer is verified
    for every implementation of the predicates it calls. *)
Class Reflection := {
  IsLiteralType : rtype -> bool;
  IsCustomType : rtype -> bool;
  IsAnonymousStruct : rtype -> bool;
  IsUnexportedField : StructField -> bool;
  HasUnexportedField : StructType -> bool;
  (* string(jsonBytes) for jsonBytes, _ := json.Marshal(v.Interface()) *)
  json_Marshal : value -> string
}.

(** ** The generator's effects

    The serializer reads and writes the package variable [imports], and
    it panics where [reflect] does (a method called on the zero [Value]).
    A computation of type [Gen A] takes the registry and either panics
    ([None]) or returns its result with the registry it leaves. *)

Definition Gen (A : Type) : Type := importsList -> option (A * importsList).

#[export] Instance Gen_ret : MRet Gen := fun A a l => Some (a, l).
#[export] Instance Gen_bind : MBind Gen := fun A B f m l =>
  match m l with
  | Some (a, l') => f a l'
  | None => None
  end.

Definition panic {A : Type} : Gen A := fun _ => None.

(** What a computation produces does not depend on the registry it is
    run on. *)
Definition stateless {A : Type} (m : Gen A) : Prop :=
  forall l l', fst <$> m l = fst <$> m l'.

(** [for _, x := range xs { ... f(x) ... }], collecting the results *)
Fixpoint forM {A B : Type} (f : A -> Gen B) (xs : list A) : Gen (list B) :=
  match xs with
  | [] => mret []
  | x :: xs' => y ← f x; ys ← forM f xs'; mret (y :: ys)
  end.

(** Conversions between integer types: [intN(x)] and [uintN(x)] keep the
    low [N] bits.  [int], [uint] and [uintptr] are 64 bits wide. *)
Definition bits_of_int (k : IntKind) : Z :=
  match k with Int8 => 8 | Int16 => 16 | Int32 => 32 | Int | Int64 => 64 end.
Definition bits_of_uint (k : UintKind) : Z :=
  match k with
  | Uint8 => 8 | Uint16 => 16 | Uint32 => 32 | Uint | Uint64 | Uintptr => 64
  end.
Definition to_int (k : IntKind) (x : Z) : Z :=
  let m := Z.shiftl 1 (bits_of_int k) in
  (x + m / 2) mod m - m / 2.
Definition to_uint (k : UintKind) (x : Z) : Z :=
  x mod Z.shiftl 1 (bits_of_uint k).

Section Serializer.
Context {U : Unicode} {R : Reflection}.
Import jen.

(** [imports.Qual] *)
Definition imports_Qual (pkg name : string) : Gen Code :=
  _ ← NeedImport pkg; mret (Stmt [Qual pkg name]).

Fixpoint generateType (t : rtype) : Gen Code :=
  match t with
  | TPtr elem => e ← generateType elem; mret (Add (Stmt [Op "*"]) e)
  | TSlice elem =>
      e ← generateType elem; mret (Add (Stmt [Group GIndex []]) e)
  | TArray len elem =>
      e ← generateType elem;
      mret (Add (Stmt [Group GIndex [Stmt [Lit (LInt Int len)]]]) e)
  | TMap key elem =>
      k ← generateType key; e ← generateType elem;
      mret (Add (Stmt [Group GMap [k]]) e)
  | TStruct pkgPath name => imports_Qual pkgPath name
  | TChan elem => e ← generateType elem; mret (Add (Stmt [Keyword "chan"]) e)
  | TFunc => mret Nil
  | TBasic k pkgPath name =>
      if IsCustomType t then imports_Qual pkgPath name
      else mret (Stmt [Id (Kind_String (Basic k))])
  end.

Definition generateBuiltinLiteralValue (v : value) : Code :=
  let value :=
    match v with
    | VBool _ _ b => if b then LBool true else LBool false
    | VInt Int64 _ _ i => LInt Int64 i
    | VInt k _ _ i => LInt k (to_int k i)
    | VUint Uint64 _ _ u => LUint Uint64 u
    | VUint k _ _ u => LUint k (to_uint k u)
    | VFloat k _ _ f => LFloat k f
    | VString _ _ s => LString s
    | _ => LNil
    end in
  Stmt [Lit value].

Definition generatePtrLiteralValue (v : value) : Gen Code :=
  let t := Type_of v in
  if negb (IsLiteralType t) then mret Nil
  else
    let value := generateBuiltinLiteralValue v in
    q ← imports_Qual "github.com/zoumo/golib/pointer"
                     (Capitalize (Kind_String (Kind_of t)));
    let p := Call q [value] in
    if IsCustomType t then
      mret (Parens (Stmt [Group GParens [Stmt [Op "*"; Qual (PkgPath t) (Name t)]]]) p)
    else mret p.

Definition generateLiteralValue (v : value) : Gen Code :=
  let t := Type_of v in
  if negb (IsLiteralType t) then mret Nil
  else
    let ts := generateBuiltinLiteralValue v in
    if IsCustomType t then
      q ← imports_Qual (PkgPath t) (Name t); mret (Parens q ts)
    else mret ts.

Definition implementsJSON (t : StructType) : bool :=
  (T_Marshaler t || PtrT_Marshaler t) && (T_Unmarshaler t || PtrT_Unmarshaler t).

Definition generateStructWithUnexportedField (v : value) (ptrResult : bool)
  : Gen Code :=
  match v with
  | VStruct t _ =>
      structS ← imports_Qual (struct_PkgPath t) (struct_Name t);
      if implementsJSON t then
        let f := Stmt [Keyword "func"; Group GParams []] in
        let f := if ptrResult then Add f (Op "*") else f in
        let f := Add f structS in
        let block :=
          [ Stmt [Id "jsonStr"; Op ":="; Lit (LString (json_Marshal v))];
            Stmt [Keyword "var"; Id "obj"; structS];
            Call (Stmt [Qual "encoding/json" "Unmarshal"])
                 [ Stmt [Group GIndex []; Byte; Group GParens [Stmt [Id "jsonStr"]]];
                   Stmt [Op "&"; Id "obj"] ];
            if ptrResult then Stmt [Group GReturn [Stmt [Op "&"; Id "obj"]]]
            else Stmt [Group GReturn [Stmt [Id "obj"]]] ] in
        mret (Call (Add f (Group GBlock block)) [])
      else mret Nil
  | _ => mret Nil
  end.

(** The field loop of [generateStructValue]: [gv] is [generateValue]. *)
Fixpoint structFields (gv : value -> bool -> Gen Code)
    (fields : list StructField) (vs : list value) {struct vs}
  : Gen (list (Code * Code)) :=
  match fields with
  | [] => mret []
  | field :: fields' =>
      match vs with
      | [] => panic
      | fv :: vs' =>
          if IsUnexportedField field || IsAnonymousStruct (field_Type field)
          then structFields gv fields' vs'
          else if negb (IsZero fv) then
            c ← gv fv false;
            d ← structFields gv fields' vs';
            mret ((Stmt [Id (field_Name field)], c) :: d)
          else structFields gv fields' vs'
      end
  end.

(** The loops of [generateValue] over the elements of a slice or array
    and over the entries of a map. *)
Fixpoint sliceElements (gv : value -> bool -> Gen Code) (vs : list value)
  : Gen (list Code) :=
  match vs with
  | [] => mret []
  | x :: vs' =>
      c ← gv x true;
      j ← sliceElements gv vs';
      mret (Add (Stmt [Line]) c :: j)
  end.

Fixpoint mapEntries (gv : value -> bool -> Gen Code) (kvs : list (value * value))
  : Gen (list (Code * Code)) :=
  match kvs with
  | [] => mret []
  | (kv, vv) :: kvs' =>
      k ← gv kv false;
      e ← gv vv true;
      d ← mapEntries gv kvs';
      mret ((k, e) :: d)
  end.

(** [generateStructValue], the recursive calls to [generateValue] going
    through [gv]. *)
Definition generateStructValue_with (gv : value -> bool -> Gen Code)
    (v : value) (ptrResult omitType : bool) : Gen Code :=
  match v with
  | VStruct t vs =>
      j ← (if HasUnexportedField t
           then generateStructWithUnexportedField v ptrResult
           else mret Nil);
      match j with
      | Nil =>
          ts ← (if IsAnonymousStruct (Type_of v) then
                  g ← forM (fun field =>
                              ft ← generateType (field_Type field);
                              mret (Add (Stmt [Id (field_Name field)]) ft))
                           (struct_Fields t);
                  mret (Stmt [Group GStruct g])
                else imports_Qual (struct_PkgPath t) (struct_Name t));
          let ts := if ptrResult then Add (Stmt [Op "&"]) ts else ts in
          let ts := if omitType then Stmt [] else ts in
          d ← structFields gv (struct_Fields t) vs;
          mret (Values ts [Dict d])
      | _ => mret j
      end
  | _ => mret Nil
  end.

(** [generatePtrValue], likewise. *)
Definition generatePtrValue_with (gv : value -> bool -> Gen Code)
    (v : value) (omitType : bool) : Gen Code :=
  match v with
  | VPtr te None => panic
  | VPtr te (Some (_, pointee)) =>
      if IsLiteralType te then generatePtrLiteralValue pointee
      else
        match Kind_of te with
        | Struct => generateStructValue_with gv pointee true omitType
        | _ =>
            _ ← (if omitType then gv pointee true else mret Nil);
            e ← gv pointee false;
            mret (Add (Stmt [Op "&"]) e)
        end
  | _ => mret Nil
  end.

Fixpoint generateValue (v : value) (omitType : bool) {struct v} : Gen Code :=
  let t := Type_of v in
  if IsLiteralType t then generateLiteralValue v
  else
    ts ← generateType t;
    let ts := if omitType then Stmt [] else ts in
    match v with
    | VPtr _ _ => generatePtrValue_with generateValue v omitType
    | VSlice _ None =>
        mret (Values ts [])
    | VSlice _ (Some vs) | VArray _ vs =>
        j ← sliceElements generateValue vs;
        mret (Values ts (if 0 <? Z.of_nat (List.length vs) then j ++ [Stmt [Line]] else j))
    | VMap _ _ None => mret (Values ts [Dict []])
    | VMap _ _ (Some kvs) =>
        d ← mapEntries generateValue kvs; mret (Values ts [Dict d])
    | VStruct _ _ => generateStructValue_with generateValue v false omitType
    | _ => mret Nil
    end.

(** The fields [generateStructValue] writes, in the words of the design:
    those that are exported, not of an anonymous struct type and not
    zero, each with its value. *)
Definition written (field : StructField) (fv : value) : bool :=
  negb (IsUnexportedField field)
  && negb (IsAnonymousStruct (field_Type field))
  && negb (IsZero fv).

Definition emittedFields (fields : list StructField) (vs : list value)
  : list (StructField * value) :=
  filter (fun e => written e.1 e.2 = true) (zip fields vs).

Definition generatePtrValue := generatePtrValue_with generateValue.
Definition generateStructValue := generateStructValue_with generateValue.

Definition GenerateValue (i : value) : Gen Code := generateValue i false.

End Serializer.

(** ** The generation driver ([gen.go]) *)

(** [strings.ReplaceAll(s, old, new)] for a non-empty [old]: the
    occurrences are replaced from left to right, without overlap. *)
Fixpoint ReplaceAll_go (fuel : nat) (s old new : string) : string :=
  match fuel, s with
  | O, _ | _, EmptyString => s
  | S fuel', String c s' =>
      if String.prefix old s
      then new +:+ ReplaceAll_go fuel' (GoString.drop (String.length old) s) old new
      else String c (ReplaceAll_go fuel' s' old new)
  end.

Definition ReplaceAll (s old new : string) : string :=
  ReplaceAll_go (String.length s) s old new.

Section Driver.

(** The API types of [k8s.io/apiextensions-apiserver] whose contents the
    driver moves around without looking into them: the validation of a
    version ([CustomResourceValidation]), its subresources, a printer
    column, the rest of a [v1beta1] descriptor, a [v1] descriptor without
    its annotations, an error of a collaborator, and a group-kind. *)
Context {Validation Subresources Column Rest V1Rest UpstreamError GroupKind : Type}.

(** [apiextensions/v1beta1.CustomResourceDefinitionVersion] *)
Record CustomResourceDefinitionVersion := {
  ver_Name : string;
  ver_Served : bool;
  ver_Storage : bool;
  ver_Schema : option Validation;
  ver_Subresources : option Subresources;
  ver_AdditionalPrinterColumns : option (list Column)
}.

(** [apiextensions/v1beta1.CustomResourceDefinition], the fields of
    [Spec] the driver touches set apart.  A nil pointer or slice is
    [None]. *)
Record CustomResourceDefinition := {
  Spec_Versions : list CustomResourceDefinitionVersion;
  Spec_Validation : option Validation;
  Spec_Subresources : option Subresources;
  Spec_AdditionalPrinterColumns : option (list Column);
  Spec_PreserveUnknownFields : option bool;
  crd_rest : Rest
}.

(** The three variables [canonicalSchema], [canonicalSubresources] and
    [canonicalColumns]. *)
Definition canonical : Type :=
  option Validation * option Subresources * option (list Column).

(** The three assignments of [nil] to the fields of [crd.Spec.Versions[i]] *)
Definition cleared (ver : CustomResourceDefinitionVersion)
  : CustomResourceDefinitionVersion :=
  {| ver_Name := ver_Name ver;
     ver_Served := ver_Served ver;
     ver_Storage := ver_Storage ver;
     ver_Schema := None;
     ver_Subresources := None;
     ver_AdditionalPrinterColumns := None |}.

(** The loop of [toTrivialVersions]: [ver] is the element as it is when
    the pass starts; the element is then cleared in the slice. *)
Fixpoint toTrivialVersions_loop (versions : list CustomResourceDefinitionVersion)
    (c : canonical) : list CustomResourceDefinitionVersion * canonical :=
  match versions with
  | [] => ([], c)
  | ver :: versions' =>
      let c :=
        if ver_Storage ver
        then (ver_Schema ver, ver_Subresources ver, ver_AdditionalPrinterColumns ver)
        else c in
      let '(rest, c) := toTrivialVersions_loop versions' c in
      (cleared ver :: rest, c)
  end.

Definition toTrivialVersions (crd : CustomResourceDefinition)
  : CustomResourceDefinition :=
  let '(versions, (canonicalSchema, canonicalSubresources, canonicalColumns)) :=
    toTrivialVersions_loop (Spec_Versions crd) (None, None, None) in
  match canonicalSchema with
  | None =>
      {| Spec_Versions := versions;
         Spec_Validation := Spec_Validation crd;
         Spec_Subresources := Spec_Subresources crd;
         Spec_AdditionalPrinterColumns := Spec_AdditionalPrinterColumns crd;
         Spec_PreserveUnknownFields := Spec_PreserveUnknownFields crd;
         crd_rest := crd_rest crd |}
  | Some _ =>
      {| Spec_Versions := versions;
         Spec_Validation := canonicalSchema;
         Spec_Subresources := canonicalSubresources;
         Spec_AdditionalPrinterColumns := canonicalColumns;
         Spec_PreserveUnknownFields := Spec_PreserveUnknownFields crd;
         crd_rest := crd_rest crd |}
  end.

(** [apiextensions/v1.CustomResourceDefinition], as [addAttribution]
    reads it. *)
Record V1CustomResourceDefinition := {
  Annotations : option (gmap string string);
  v1_rest : V1Rest
}.

Definition addAttribution (version_Version : string)
    (crd : V1CustomResourceDefinition) : V1CustomResourceDefinition :=
  let annotations :=
    match Annotations crd with
    | None => ∅
    | Some m => m
    end in
  {| Annotations :=
       Some (<["controller-gen.kubebuilder.io/version" := version_Version]> annotations);
     v1_rest := v1_rest crd |}.

(** What [crd.AsVersion] returns: a descriptor of either API version. *)
Inductive Object :=
| ObjV1 (crd : V1CustomResourceDefinition)
| ObjV1beta1 (crd : CustomResourceDefinition).

(** The errors [Generate] returns: its own, made by [fmt.Errorf], and
    those a collaborator returned. *)
Inductive error :=
| Errorf (message : string)
| Upstream (err : UpstreamError).

Definition errMissingPackageName : error := Errorf "missing package name".
Definition errPreserveUnknownFields : error :=
  Errorf "you may only set PreserveUnknownFields to true with v1beta1 CRDs".

Record Generator := {
  TrivialVersions : bool;
  PreserveUnknownFields : option bool;
  AllowDangerousTypes : option bool;
  MaxDescLen : option Z;
  CRDVersions : list string;
  HeaderFile : string;
  Year : string;
  PackageName : string
}.

(** A [*loader.Package]: the pointer, which is what [==] compares, and
    the path of the package. *)
Record Package := {
  pkg_pointer : Z;
  pkg_PkgPath : string
}.

(** The collaborators of [Generate] ([genall], [loader], [pkg/crd], the
    file system, the Go runtime), by what they answer in one run.  A Go
    map is ranged over in an order the language leaves open: the kinds
    and the packages of [parser.GroupVersions] come as the lists [range]
    visits, and [range_crds] is the order in which [range crds] visits
    the entries of its map. *)
Record GenerationContext := {
  ReadFile : string -> UpstreamError + string;
  FindMetav1 : option Package;             (* [None] for [nil] *)
  FindKubeKinds : list GroupKind;
  CustomResourceDefinitions : GroupKind -> V1CustomResourceDefinition;
  version_Version : string;
  AsVersion : V1CustomResourceDefinition -> string -> UpstreamError + Object;
  GroupVersions : list Package;
  NonVendorPath : string -> string;        (* loader.NonVendorPath *)
  range_crds : gmap string (list Object) -> list (string * list Object);
  reflect_ValueOf : Object -> value;
  Render : string -> jen.File -> option UpstreamError  (* ctx.Open, then Render *)
}.

Record codeWriter := {
  packageName : string;
  headerText : string
}.

Section Writer.
Context {U : Unicode} {R : Reflection}.
Import jen.

(** [setFileDefault] on the file [jen.NewFile(cw.packageName)] *)
Definition setFileDefault (cw : codeWriter) : File :=
  {| file_package := packageName cw;
     file_headers :=
       [ "// +build !ignore_autogenerated" +:+ String "010" "";
         headerText cw +:+ String "010" "";
         "// Code generated by controller-gen. DO NOT EDIT." ];
     file_aliases :=
       [ ("k8s.io/apimachinery/pkg/apis/meta/v1", "metav1");
         ("k8s.io/apiextensions-apiserver/pkg/apis/apiextensions/v1beta1",
          "apiextensionsv1beta1");
         ("k8s.io/apiextensions-apiserver/pkg/apis/apiextensions/v1",
          "apiextensionsv1") ];
     file_body := [] |}.

(** [GenerateScheme], up to the file it hands to [Render]. *)
Definition GenerateScheme (cw : codeWriter) (ctx : GenerationContext)
    (metav1Pkg : Package) : File :=
  let schemefile := setFileDefault cw in
  let scheme := Stmt [Qual "k8s.io/client-go/kubernetes/scheme" "Scheme"] in
  let AddToScheme (path : string) :=
    Call (Stmt [Qual path "AddToScheme"]) [scheme] in
  let g : list Code :=
    AddToScheme "k8s.io/apiextensions-apiserver/pkg/apis/apiextensions/v1beta1"
    :: AddToScheme "k8s.io/apiextensions-apiserver/pkg/apis/apiextensions/v1"
    :: map (fun pkg => AddToScheme (NonVendorPath ctx (pkg_PkgPath pkg)))
           (List.filter (fun pkg => negb (pkg_pointer pkg =? pkg_pointer metav1Pkg))
                        (GroupVersions ctx)) in
  {| file_package := file_package schemefile;
     file_headers := file_headers schemefile;
     file_aliases := file_aliases schemefile;
     file_body :=
       [Stmt [Keyword "func"; Id "init"; Group GParams []; Group GBlock g]] |}.

(** One pass of the loop of [GenerateCrds]: the two statements it adds to
    the file for [version] and its list of [objects]. *)
Definition GenerateCrds_version (version : string) (objects : list value)
  : Gen (list Code) :=
  values ← forM GenerateValue objects;
  let slice :=
    Stmt [ Group GIndex []; Op "*";
           Qual ("k8s.io/apiextensions-apiserver/pkg/apis/apiextensions/" +:+ version)
                "CustomResourceDefinition" ] in
  mret [ Stmt [Comment "//nolint"];
         Stmt [ Keyword "func"; Id ("New" +:+ Capitalize version +:+ "CRDs");
                Group GParams []; slice;
                Group GBlock [Stmt [Group GReturn [Values slice values]]] ] ].

(** [GenerateCrds], up to the file it hands to [Render]; [crds] lists
    the entries of the map in the order [range] visits them. *)
Definition GenerateCrds (cw : codeWriter) (crds : list (string * list value))
  : Gen File :=
  let crdsfile := setFileDefault cw in
  body ← forM (fun '(version, objects) => GenerateCrds_version version objects) crds;
  mret {| file_package := file_package crdsfile;
          file_headers := file_headers crdsfile;
          file_aliases := file_aliases crdsfile;
          file_body := List.concat body |}.

(** What the body of [Generate] comes to: it goes on with a value, it
    returns an error, or it panics (a failed type assertion). *)
Inductive outcome (A : Type) :=
| Done (a : A)
| Fail (err : error)
| Panicked.
Arguments Done {A} a.
Arguments Fail {A} err.
Arguments Panicked {A}.

(** [versionedCRDs]: the conversions to the requested versions in order,
    up to the first that fails. *)
Fixpoint asVersions (ctx : GenerationContext) (crdRaw : V1CustomResourceDefinition)
    (crdVersions : list string) : UpstreamError + list Object :=
  match crdVersions with
  | [] => inr []
  | ver :: crdVersions' =>
      match AsVersion ctx crdRaw ver with
      | inl err => inl err
      | inr conv =>
          match asVersions ctx crdRaw crdVersions' with
          | inl err => inl err
          | inr convs => inr (conv :: convs)
          end
      end
  end.

(** The loop under [if g.TrivialVersions]; [None] when the assertion
    that [crd] is a pointer to a [v1beta1] descriptor fails. *)
Fixpoint trivialVersions (crdVersions : list string) (versionedCRDs : list Object)
  : option (list Object) :=
  match versionedCRDs, crdVersions with
  | [], _ => Some []
  | _ :: _, [] => None
  | crd :: versionedCRDs', ver :: crdVersions' =>
      match (if String.eqb ver "v1beta1" then
               match crd with
               | ObjV1beta1 c => Some (ObjV1beta1 (toTrivialVersions c))
               | ObjV1 _ => None
               end
             else Some crd) with
      | None => None
      | Some crd' =>
          match trivialVersions crdVersions' versionedCRDs' with
          | None => None
          | Some rest => Some (crd' :: rest)
          end
      end
  end.

Definition v1beta1Only (crdVersions : list string) : bool :=
  (Z.of_nat (List.length crdVersions) =? 1)
  && match crdVersions with
     | ver :: _ => String.eqb ver "v1beta1"
     | [] => false
     end.

(** The [switch] on [g.PreserveUnknownFields]. *)
Definition preserveUnknownFields (g : Generator) (crdVersions : list string)
    (versionedCRDs : list Object) : outcome (list Object) :=
  if match PreserveUnknownFields g with None => true | Some b => b end
     && v1beta1Only crdVersions
  then
    match versionedCRDs with
    | ObjV1beta1 crd :: rest =>
        Done (ObjV1beta1
                {| Spec_Versions := Spec_Versions crd;
                   Spec_Validation := Spec_Validation crd;
                   Spec_Subresources := Spec_Subresources crd;
                   Spec_AdditionalPrinterColumns := Spec_AdditionalPrinterColumns crd;
                   Spec_PreserveUnknownFields := None;
                   crd_rest := crd_rest crd |} :: rest)
    | _ => Panicked
    end
  else
    match PreserveUnknownFields g with
    | None | Some false => Done versionedCRDs
    | Some true => Fail errPreserveUnknownFields
    end.

(** [crds[crdVersions[i]] = append(crds[crdVersions[i]], crd)] for every
    [i, crd := range versionedCRDs] *)
Fixpoint collect (crdVersions : list string) (versionedCRDs : list Object)
    (crds : gmap string (list Object)) : gmap string (list Object) :=
  match versionedCRDs, crdVersions with
  | crd :: versionedCRDs', ver :: crdVersions' =>
      collect crdVersions' versionedCRDs'
              (<[ver := (default [] (crds !! ver) ++ [crd])%list]> crds)
  | _, _ => crds
  end.

(** The body of [for groupKind := range kubeKinds]. *)
Definition Generate_kind (g : Generator) (ctx : GenerationContext)
    (crdVersions : list string) (groupKind : GroupKind)
    (crds : gmap string (list Object)) : outcome (gmap string (list Object)) :=
  let crdRaw :=
    addAttribution (version_Version ctx) (CustomResourceDefinitions ctx groupKind) in
  match asVersions ctx crdRaw crdVersions with
  | inl err => Fail (Upstream err)
  | inr versionedCRDs =>
      match (if TrivialVersions g
             then trivialVersions crdVersions versionedCRDs
             else Some versionedCRDs) with
      | None => Panicked
      | Some versionedCRDs =>
          match preserveUnknownFields g crdVersions versionedCRDs with
          | Done versionedCRDs => Done (collect crdVersions versionedCRDs crds)
          | Fail err => Fail err
          | Panicked => Panicked
          end
      end
  end.

Fixpoint Generate_kinds (g : Generator) (ctx : GenerationContext)
    (crdVersions : list string) (kubeKinds : list GroupKind)
    (crds : gmap string (list Object)) : outcome (gmap string (list Object)) :=
  match kubeKinds with
  | [] => Done crds
  | groupKind :: kubeKinds' =>
      match Generate_kind g ctx crdVersions groupKind crds with
      | Done crds => Generate_kinds g ctx crdVersions kubeKinds' crds
      | Fail err => Fail err
      | Panicked => Panicked
      end
  end.

(** [crdVersions] once the default has been applied. *)
Definition requestedVersions (g : Generator) : list string :=
  if Z.of_nat (List.length (CRDVersions g)) =? 0 then ["v1"] else CRDVersions g.

(** The run gets as far as the [switch] on [PreserveUnknownFields]: the
    header, if one is asked for, is read; the roots import [metav1] and
    hold a kind; and for the first kind [range] visits every conversion
    succeeds and the collapse to trivial versions, if asked for, finds
    [v1beta1] descriptors where it expects them. *)
Definition reachesSwitch (g : Generator) (ctx : GenerationContext) : Prop :=
  (HeaderFile g = "" \/ exists text, ReadFile ctx (HeaderFile g) = inr text)
  /\ is_Some (FindMetav1 ctx)
  /\ exists groupKind kubeKinds versionedCRDs,
       FindKubeKinds ctx = groupKind :: kubeKinds
       /\ asVersions ctx
            (addAttribution (version_Version ctx)
                            (CustomResourceDefinitions ctx groupKind))
            (requestedVersions g) = inr versionedCRDs
       /\ (TrivialVersions g = true ->
           is_Some (trivialVersions (requestedVersions g) versionedCRDs)).

(** [Generator.Generate]: the error returned, [None] for [nil]. *)
Definition Generate (g : Generator) (ctx : GenerationContext) : Gen (option error) :=
  if String.eqb (PackageName g) "" then mret (Some errMissingPackageName)
  else
    match (if negb (String.eqb (HeaderFile g) "")
           then ReadFile ctx (HeaderFile g)
           else inr EmptyString) with
    | inl err => mret (Some (Upstream err))
    | inr headerText =>
        let headerText := ReplaceAll headerText " YEAR" (" " +:+ Year g) in
        match FindMetav1 ctx with
        | None => mret None
        | Some metav1Pkg =>
            let kubeKinds := FindKubeKinds ctx in
            if Z.of_nat (List.length kubeKinds) =? 0 then mret None
            else
              let crdVersions := requestedVersions g in
              let cw := {| packageName := PackageName g; headerText := headerText |} in
              match Generate_kinds g ctx crdVersions kubeKinds ∅ with
              | Panicked => panic
              | Fail err => mret (Some err)
              | Done crds =>
                  match Render ctx "zz.generated.scheme.go"
                               (GenerateScheme cw ctx metav1Pkg) with
                  | Some err => mret (Some (Upstream err))
                  | None =>
                      crdsfile ← GenerateCrds cw
                        (map (fun '(version, objects) =>
                                (version, map (reflect_ValueOf ctx) objects))
                             (range_crds ctx crds));
                      mret (Upstream <$> Render ctx "zz.generated.crds.go" crdsfile)
                  end
              end
        end
    end.

End Writer.

End Driver.

Arguments Done {UpstreamError A} a.
Arguments Fail {UpstreamError A} err.
Arguments Panicked {UpstreamError A}.

(** ** The predicates of golib, and sample values *)

(** The package [github.com/zoumo/golib/reflection] is a dependency that
    is not part of the sources.  The theorems hold for every
    implementation of its predicates (the class [Reflection]); the sample
    runs use the predicates below. *)

(** Modelled from the spec: [reflection.IsLiteralType], missing from the
    sources.  The scalar kinds are those the Literal Encoder is defined
    for: booleans, the signed and unsigned integers of all widths, both
    floating-point widths, strings and [uintptr]. *)
Definition golib_IsLiteralType (t : rtype) : bool :=
  match t with
  | TBasic (BOpaque _) _ _ => false
  | TBasic _ _ _ => true
  | _ => false
  end.

(** Modelled from the spec: [reflection.IsCustomType], missing from the
    sources.  A custom type is a named type rather than the bare
    primitive: one that has a package path. *)
Definition golib_IsCustomType (t : rtype) : bool :=
  negb (String.eqb (PkgPath t) "").

(** Modelled from the spec: [reflection.IsAnonymousStruct], missing from
    the sources.  An anonymous struct type is a struct type without a
    name. *)
Definition golib_IsAnonymousStruct (t : rtype) : bool :=
  match t with
  | TStruct _ name => String.eqb name ""
  | _ => false
  end.

(** Modelled from the spec: [reflection.IsUnexportedField], missing from
    the sources.  A field is private when it carries the package path
    that qualifies its name. *)
Definition golib_IsUnexportedField (field : StructField) : bool :=
  negb (String.eqb (field_PkgPath field) "").

(** Modelled from the spec: [reflection.HasUnexportedField], missing from
    the sources.  A struct type has a private field when one of its
    fields is private. *)
Definition golib_HasUnexportedField (t : StructType) : bool :=
  existsb golib_IsUnexportedField (struct_Fields t).

Module Sample.

(** The encoder of the sample values: the only value encoded is a
    [time.Time], whose JSON text is a quoted RFC 3339 timestamp. *)
Definition quoted (s : string) : string :=
  String "034" s +:+ String "034" EmptyString.

Definition marshal (v : value) : string := quoted "2020-09-01T08:33:33Z".

#[export] Instance golib : Reflection :=
  {| IsLiteralType := golib_IsLiteralType;
     IsCustomType := golib_IsCustomType;
     IsAnonymousStruct := golib_IsAnonymousStruct;
     IsUnexportedField := golib_IsUnexportedField;
     HasUnexportedField := golib_HasUnexportedField;
     json_Marshal := marshal |}.

Definition exported (name : string) (t : rtype) : StructField :=
  {| field_Name := name; field_PkgPath := ""; field_Type := t;
     field_Anonymous := false |}.

Definition unexported (pkg name : string) (t : rtype) : StructField :=
  {| field_Name := name; field_PkgPath := pkg; field_Type := t;
     field_Anonymous := false |}.

Definition int_t : rtype := TBasic (BInt Int) "" "int".
Definition int32_t : rtype := TBasic (BInt Int32) "" "int32".
Definition string_t : rtype := TBasic BString "" "string".
Definition bool_t : rtype := TBasic BBool "" "bool".

(** [struct { A int }], the type of the field [X] below *)
Definition anonymous_t : rtype := TStruct "" "".
Definition anonymous_T : StructType :=
  {| struct_PkgPath := ""; struct_Name := "";
     struct_Fields := [exported "A" int_t];
     T_Marshaler := false; PtrT_Marshaler := false;
     T_Unmarshaler := false; PtrT_Unmarshaler := false |}.

(** [type T struct { Name string; Replicas int32; X struct{ A int }; hidden bool }]
    of a package [example.com/api/v1] *)
Definition T : StructType :=
  {| struct_PkgPath := "example.com/api/v1"; struct_Name := "T";
     struct_Fields :=
       [ exported "Name" string_t; exported "Replicas" int32_t;
         exported "X" anonymous_t;
         unexported "example.com/api/v1" "hidden" bool_t ];
     T_Marshaler := false; PtrT_Marshaler := false;
     T_Unmarshaler := false; PtrT_Unmarshaler := false |}.

(** [T{Name: "web", Replicas: 0, X: struct{ A int }{A: 1}, hidden: true}] *)
Definition t_web : value :=
  VStruct T
    [ VString "" "string" "web"; VInt Int32 "" "int32" 0;
      VStruct anonymous_T [VInt Int "" "int" 1];
      VBool "" "bool" true ].

(** [time.Time]: private fields, [MarshalJSON] on [Time] and
    [UnmarshalJSON] on [*Time] *)
Definition Time : StructType :=
  {| struct_PkgPath := "time"; struct_Name := "Time";
     struct_Fields :=
       [ unexported "time" "wall" (TBasic (BUint Uint64) "" "uint64");
         unexported "time" "ext" (TBasic (BInt Int64) "" "int64");
         unexported "time" "loc" (TPtr (TStruct "time" "Location")) ];
     T_Marshaler := true; PtrT_Marshaler := true;
     T_Unmarshaler := false; PtrT_Unmarshaler := true |}.

Definition a_time : value :=
  VStruct Time
    [ VUint Uint64 "" "uint64" 0; VInt Int64 "" "int64" 63734546013;
      VPtr (TStruct "time" "Location") None ].

(** [time.Duration(5)] and [int32(3)] *)
Definition duration_t : rtype := TBasic (BInt Int64) "time" "Duration".
Definition five : value := VInt Int64 "time" "Duration" 5.
Definition three : value := VInt Int32 "" "int32" 3.

End Sample.

(** ** Runs of the registry *)

Section Runs.
Context {U : Unicode}.

(** The calls [NeedImport(p)] for the paths [p] of a list, one after the
    other on the same registry: the aliases returned, in order, and the
    registry left behind. *)
Fixpoint NeedImports (paths : list string) (l : importsList)
  : option (list string * importsList) :=
  match paths with
  | [] => Some ([], l)
  | p :: paths' =>
      match NeedImport p l with
      | None => None
      | Some (alias, l') =>
          match NeedImports paths' l' with
          | None => None
          | Some (aliases, l'') => Some (alias :: aliases, l'')
          end
      end
  end.

(** The aliases of the registry that are at least [n] bytes long: what
    the outer loop of [NeedImport] can still collide with once its alias
    has reached that length. *)
Definition aliases_from (l : importsList) (n : nat) : gset string :=
  filter (fun alias => (n <= String.length alias)%nat) (dom (byAlias l)).

(** The registry pairs paths and aliases one to one. *)
Definition paired (l : importsList) : Prop :=
  forall p alias, byPath l !! p = Some alias <-> byAlias l !! alias = Some p.

End Runs.

(** ** Sample descriptors and a sample run of the driver *)

Module SampleCRD.

Definition Version : Type := @CustomResourceDefinitionVersion string string string.
Definition CRD : Type := @CustomResourceDefinition string string string unit.

(** A descriptor with the versions [v1] (not stored, schema [A]) and
    [v1beta1] (stored, schema [B], the status subresource, one column). *)
Definition v1 : Version :=
  {| ver_Name := "v1"; ver_Served := true; ver_Storage := false;
     ver_Schema := Some "A"; ver_Subresources := None;
     ver_AdditionalPrinterColumns := None |}.
Definition v1beta1 : Version :=
  {| ver_Name := "v1beta1"; ver_Served := true; ver_Storage := true;
     ver_Schema := Some "B"; ver_Subresources := Some "status";
     ver_AdditionalPrinterColumns := Some ["Age"] |}.
Definition two_versions : CRD :=
  {| Spec_Versions := [v1; v1beta1];
     Spec_Validation := None; Spec_Subresources := None;
     Spec_AdditionalPrinterColumns := None;
     Spec_PreserveUnknownFields := Some false; crd_rest := tt |}.

(** The same, the stored version having no schema. *)
Definition v1beta1_no_schema : Version :=
  {| ver_Name := "v1beta1"; ver_Served := true; ver_Storage := true;
     ver_Schema := None; ver_Subresources := Some "status";
     ver_AdditionalPrinterColumns := Some ["Age"] |}.
Definition stored_without_schema : CRD :=
  {| Spec_Versions := [v1; v1beta1_no_schema];
     Spec_Validation := None; Spec_Subresources := None;
     Spec_AdditionalPrinterColumns := None;
     Spec_PreserveUnknownFields := Some false; crd_rest := tt |}.

(** The same as [two_versions], no version being stored. *)
Definition v1beta1_not_stored : Version :=
  {| ver_Name := "v1beta1"; ver_Served := true; ver_Storage := false;
     ver_Schema := Some "B"; ver_Subresources := Some "status";
     ver_AdditionalPrinterColumns := Some ["Age"] |}.
Definition nothing_stored : CRD :=
  {| Spec_Versions := [v1; v1beta1_not_stored];
     Spec_Validation := None; Spec_Subresources := None;
     Spec_AdditionalPrinterColumns := None;
     Spec_PreserveUnknownFields := Some false; crd_rest := tt |}.

(** A generator asked for [v1] descriptors with unknown fields preserved. *)
Definition preserving : Generator :=
  {| TrivialVersions := false; PreserveUnknownFields := Some true;
     AllowDangerousTypes := None; MaxDescLen := None;
     CRDVersions := ["v1"]; HeaderFile := ""; Year := "";
     PackageName := "crds" |}.

Definition a_descriptor : @V1CustomResourceDefinition unit :=
  {| Annotations := None; v1_rest := tt |}.

(** What [reflect] shows of a pointer to a [v1] descriptor all of whose
    fields are zero. *)
Definition V1 : StructType :=
  {| struct_PkgPath := "k8s.io/apiextensions-apiserver/pkg/apis/apiextensions/v1";
     struct_Name := "CustomResourceDefinition";
     struct_Fields := [];
     T_Marshaler := false; PtrT_Marshaler := false;
     T_Unmarshaler := false; PtrT_Unmarshaler := false |}.
Definition a_value : value :=
  VPtr (TStruct (struct_PkgPath V1) (struct_Name V1))
       (Some (824633901056, VStruct V1 [])).

(** The same for a [v1beta1] descriptor. *)
Definition V1beta1 : StructType :=
  {| struct_PkgPath := "k8s.io/apiextensions-apiserver/pkg/apis/apiextensions/v1beta1";
     struct_Name := "CustomResourceDefinition";
     struct_Fields := [];
     T_Marshaler := false; PtrT_Marshaler := false;
     T_Unmarshaler := false; PtrT_Unmarshaler := false |}.
Definition b_value : value :=
  VPtr (TStruct (struct_PkgPath V1beta1) (struct_Name V1beta1))
       (Some (824633901312, VStruct V1beta1 [])).

Definition writer : codeWriter := {| packageName := "crds"; headerText := "" |}.

(** Collaborators that never fail, over roots that hold the given kinds;
    every descriptor is converted to a [v1] descriptor. *)
Definition collaborators (kinds : list string)
  : @GenerationContext string string string unit unit string string :=
  {| ReadFile := fun _ => inr "";
     FindMetav1 :=
       Some {| pkg_pointer := 824635015168;
               pkg_PkgPath := "k8s.io/apimachinery/pkg/apis/meta/v1" |};
     FindKubeKinds := kinds;
     CustomResourceDefinitions := fun _ => a_descriptor;
     version_Version := "v0.4.0";
     AsVersion := fun crd _ => inr (ObjV1 crd);
     GroupVersions := [];
     NonVendorPath := fun rawPath => rawPath;
     range_crds := map_to_list;
     reflect_ValueOf := fun _ => a_value;
     Render := fun _ _ => None |}.

End SampleCRD.

(** ** The aliases [NeedImport] tries *)

Section Candidates.
Context {U : Unicode}.

(** One pass of the outer loop of [NeedImport] on the triple of its loop
    variables [alias], [restPath] and [nextWord]. *)
Definition NeedImport_pass (s : string * string * string)
  : string * string * string :=
  NeedImport_body s.1.1 s.1.2 s.2.

(** The alias the loop holds after [n] passes on [importPath], a path
    that has no vendor prefix. *)
Definition NeedImport_candidate (importPath : string) (n : nat) : string :=
  let '(restPath, nextWord) := GoString.path_Split importPath in
  (Nat.iter n NeedImport_pass (EmptyString, restPath, nextWord)).1.1.

End Candidates.

(** ** What the driver collects for one kind and one version *)

Section Collected.
Context {Validation Subresources Column Rest V1Rest UpstreamError GroupKind : Type}.

(** The descriptor of a kind as [Generate] converts it: the one of the
    parser, with the attribution. *)
Definition attributed
    (ctx : @GenerationContext Validation Subresources Column Rest V1Rest
                              UpstreamError GroupKind)
    (groupKind : GroupKind) : @V1CustomResourceDefinition V1Rest :=
  addAttribution (version_Version ctx) (CustomResourceDefinitions ctx groupKind).

(** The first case of the [switch] on [g.PreserveUnknownFields] is taken. *)
Definition clearsPreserveUnknownFields (g : Generator) (crdVersions : list string)
  : bool :=
  match PreserveUnknownFields g with None => true | Some b => b end
  && v1beta1Only crdVersions.

(** [crd.Spec.PreserveUnknownFields = nil] *)
Definition withoutPreserveUnknownFields
    (crd : @CustomResourceDefinition Validation Subresources Column Rest)
  : @CustomResourceDefinition Validation Subresources Column Rest :=
  {| Spec_Versions := Spec_Versions crd;
     Spec_Validation := Spec_Validation crd;
     Spec_Subresources := Spec_Subresources crd;
     Spec_AdditionalPrinterColumns := Spec_AdditionalPrinterColumns crd;
     Spec_PreserveUnknownFields := None;
     crd_rest := crd_rest crd |}.

(** What becomes, on its way to [crds[ver]], of the conversion [conv] of
    a descriptor to the version [ver]: it is collapsed when trivial
    versions are asked for and [ver] is [v1beta1], then loses
    [PreserveUnknownFields] when the first case of the [switch] is taken;
    [None] when one of the two finds a [v1] descriptor where it asserts a
    [v1beta1] one. *)
Definition collected (g : Generator) (crdVersions : list string) (ver : string)
    (conv : @Object Validation Subresources Column Rest V1Rest)
  : option (@Object Validation Subresources Column Rest V1Rest) :=
  let trivial := TrivialVersions g && String.eqb ver "v1beta1" in
  let clear := clearsPreserveUnknownFields g crdVersions in
  if trivial || clear then
    match conv with
    | ObjV1beta1 crd =>
        let crd := if trivial then toTrivialVersions crd else crd in
        Some (ObjV1beta1 (if clear then withoutPreserveUnknownFields crd else crd))
    | ObjV1 _ => None
    end
  else Some conv.

End Collected.

(** Collaborators that convert a descriptor to [v1beta1] as the
    descriptor [two_versions] with unknown fields preserved, and to any
    other version as the [v1] descriptor it is. *)
Module SampleVersions.

Definition preserved : SampleCRD.CRD :=
  {| Spec_Versions := [SampleCRD.v1; SampleCRD.v1beta1];
     Spec_Validation := None; Spec_Subresources := None;
     Spec_AdditionalPrinterColumns := None;
     Spec_PreserveUnknownFields := Some true; crd_rest := tt |}.

Definition collaborators (kinds : list string)
  : @GenerationContext string string string unit unit string string :=
  {| ReadFile := fun _ => inr "";
     FindMetav1 :=
       Some {| pkg_pointer := 824635015168;
               pkg_PkgPath := "k8s.io/apimachinery/pkg/apis/meta/v1" |};
     FindKubeKinds := kinds;
     CustomResourceDefinitions := fun _ => SampleCRD.a_descriptor;
     version_Version := "v0.4.0";
     AsVersion := fun crd ver =>
       if String.eqb ver "v1beta1" then inr (ObjV1beta1 preserved)
       else inr (ObjV1 crd);
     GroupVersions := [];
     NonVendorPath := fun rawPath => rawPath;
     range_crds := map_to_list;
     reflect_ValueOf := fun _ => SampleCRD.a_value;
     Render := fun _ _ => None |}.

(** A generator asked for both versions, with trivial versions. *)
Definition both : Generator :=
  {| TrivialVersions := true; PreserveUnknownFields := None;
     AllowDangerousTypes := None; MaxDescLen := None;
     CRDVersions := ["v1"; "v1beta1"]; HeaderFile := ""; Year := "";
     PackageName := "crds" |}.

(** A generator asked for [v1beta1] only. *)
Definition legacy : Generator :=
  {| TrivialVersions := false; PreserveUnknownFields := None;
     AllowDangerousTypes := None; MaxDescLen := None;
     CRDVersions := ["v1beta1"]; HeaderFile := ""; Year := "";
     PackageName := "crds" |}.

End SampleVersions.

(** ** Values the serializer accepts *)

(** No nil pointer is met on the way down a value, except as a field of
    a struct, where it is a zero value; and a struct value has a value
    for each field of its type. *)
Fixpoint serializable (v : value) : bool :=
  match v with
  | VPtr _ None => false
  | VPtr _ (Some (_, pointee)) => serializable pointee
  | VSlice _ (Some vs) | VArray _ vs => forallb serializable vs
  | VMap _ _ (Some kvs) =>
      forallb (fun kv => serializable kv.1 && serializable kv.2) kvs
  | VStruct t vs =>
      (List.length (struct_Fields t) <=? List.length vs)%nat
      && forallb (fun fv => IsZero fv || serializable fv) vs
  | _ => true
  end.

(** ** The type prefix of a struct literal *)

Section StructPrefix.
Context {U : Unicode} {R : Reflection}.
Import jen.

(** The statement [ts] of [generateStructValue] before [&] is put in
    front of it: [struct { ... }] with the fields of an anonymous struct
    type, the qualified name of any other. *)
Definition generateStructType (t : StructType) : Gen Code :=
  if IsAnonymousStruct (TStruct (struct_PkgPath t) (struct_Name t)) then
    g ← forM (fun field =>
                ft ← generateType (field_Type field);
                mret (Add (Stmt [Id (field_Name field)]) ft))
             (struct_Fields t);
    mret (Stmt [Group GStruct g])
  else imports_Qual (struct_PkgPath t) (struct_Name t).

End StructPrefix.

(** ** Sample values that hold other values *)

Module SampleValues.
Import Sample.

Definition T_t : rtype := TStruct "example.com/api/v1" "T".

(** [&T{Name: "web", ...}] *)
Definition web_pointer : value := VPtr T_t (Some (824633901568, t_web)).

(** [[]*T{&T{Name: "web", ...}, &T{Name: "web", ...}}] *)
Definition webs : value := VSlice (TPtr T_t) (Some [web_pointer; web_pointer]).

(** [[]*T{&T{Name: "web", ...}, nil}] *)
Definition webs_and_nil : value :=
  VSlice (TPtr T_t) (Some [web_pointer; VPtr T_t None]).

(** [map[string]int32{"web": 3}] *)
Definition replicas : value :=
  VMap string_t int32_t (Some [(VString "" "string" "web", three)]).

(** [T{}] *)
Definition zero_T : value :=
  VStruct T
    [ VString "" "string" ""; VInt Int32 "" "int32" 0;
      VStruct anonymous_T [VInt Int "" "int" 0];
      VBool "" "bool" false ].

(** [&[]string{"web"}] *)
Definition names_pointer : value :=
  VPtr (TSlice string_t)
       (Some (824633901824, VSlice string_t (Some [VString "" "string" "web"]))).

(** [type Spec struct { Template *T; Names []string }] of the same package,
    and [Spec{Template: nil, Names: []string{"web"}}] *)
Definition Spec : StructType :=
  {| struct_PkgPath := "example.com/api/v1"; struct_Name := "Spec";
     struct_Fields := [ exported "Template" (TPtr T_t);
                        exported "Names" (TSlice string_t) ];
     T_Marshaler := false; PtrT_Marshaler := false;
     T_Unmarshaler := false; PtrT_Unmarshaler := false |}.

Definition spec_without_template : value :=
  VStruct Spec [ VPtr T_t None; VSlice string_t (Some [VString "" "string" "web"]) ].

End SampleValues.

(** * Properties *)

(** ** Go strings: slices and [LastIndex] *)

Module GoStringFacts.
Import GoString.

Lemma length_drop (n : nat) (s : string) :
  String.length (drop n s) = (String.length s - n)%nat.
Proof.
  revert s; induction n as [|n IH]; intros [|c s]; simpl; auto with lia.
Qed.

Lemma length_take (n : nat) (s : string) :
  (String.length (take n s) <= n)%nat.
Proof.
  revert s; induction n as [|n IH]; intros [|c s]; simpl; auto with lia.
  specialize (IH s); lia.
Qed.

Lemma length_take_le (n : nat) (s : string) :
  (String.length (take n s) <= String.length s)%nat.
Proof.
  revert s; induction n as [|n IH]; intros [|c s]; simpl; auto with lia.
  specialize (IH s); lia.
Qed.

Lemma drop_drop (n m : nat) (s : string) :
  drop n (drop m s) = drop (m + n) s.
Proof.
  revert s; induction m as [|m IH]; intros s; simpl; [done|].
  destruct s as [|c s]; [by destruct n|]. apply IH.
Qed.

Lemma prefix_length (a b : string) :
  String.prefix a b = true -> (String.length a <= String.length b)%nat.
Proof.
  revert b; induction a as [|c a IH]; intros b Hp; simpl; [lia|].
  destruct b as [|d b]; simpl in *; [discriminate|].
  destruct (Ascii.ascii_dec c d); [|discriminate].
  specialize (IH b Hp); lia.
Qed.

Lemma length_app (a b : string) :
  String.length (a +:+ b) = (String.length a + String.length b)%nat.
Proof. induction a as [|c a IH]; simpl; auto. Qed.

(** [LastIndex_go] returns the offset of the last suffix of [s] that
    starts with [substr], or [last] when there is none. *)
Lemma LastIndex_go_spec (substr s : string) (i last : Z) :
  (LastIndex_go i s substr last = last
   /\ forall j, (j <= String.length s)%nat -> String.prefix substr (drop j s) = false)
  \/ (exists j, (j <= String.length s)%nat
        /\ LastIndex_go i s substr last = i + Z.of_nat j
        /\ String.prefix substr (drop j s) = true
        /\ forall j', (j < j' <= String.length s)%nat ->
                      String.prefix substr (drop j' s) = false).
Proof.
  revert i last; induction s as [|c s IH]; intros i last.
  - cbn [LastIndex_go].
    destruct (String.prefix substr "") eqn:Hp.
    + right. exists 0%nat. split; [simpl; lia|]. split; [lia|].
      split; [done|]. simpl. intros j' Hj'. lia.
    + left. split; [done|]. intros j Hj. simpl in Hj.
      replace j with 0%nat by lia. done.
  - cbn [LastIndex_go].
    destruct (IH (i + 1) (if String.prefix substr (String c s) then i else last))
      as [[Hlast Hnone] | (j & Hj & Hres & Hocc & Hlater)].
    + destruct (String.prefix substr (String c s)) eqn:Hp.
      * right. exists 0%nat. split; [simpl; lia|]. split; [lia|].
        split; [done|].
        intros [|j'] Hj'; [lia|]. apply Hnone. simpl in Hj'. lia.
      * left. split; [done|]. intros [|j] Hj; [done|].
        apply Hnone. simpl in Hj. lia.
    + right. exists (S j). split; [simpl; lia|]. split; [lia|].
      split; [done|].
      intros [|j'] Hj'; [lia|]. apply Hlater. simpl in Hj'. lia.
Qed.

Lemma LastIndex_none (s substr : string) :
  LastIndex s substr = -1 ->
  forall j, (j <= String.length s)%nat -> String.prefix substr (drop j s) = false.
Proof.
  unfold LastIndex. intros Hr.
  destruct (LastIndex_go_spec substr s 0 (-1))
    as [[_ Hnone] | (j & _ & Hres & _)]; [done | lia].
Qed.

Lemma LastIndex_some (s substr : string) :
  LastIndex s substr <> -1 ->
  exists j, (j <= String.length s)%nat
    /\ LastIndex s substr = Z.of_nat j
    /\ String.prefix substr (drop j s) = true
    /\ forall j', (j < j' <= String.length s)%nat ->
                  String.prefix substr (drop j' s) = false.
Proof.
  unfold LastIndex. intros Hr.
  destruct (LastIndex_go_spec substr s 0 (-1))
    as [[Hlast _] | (j & Hj & Hres & Hocc & Hlater)]; [done|].
  exists j. rewrite Hres. auto with lia.
Qed.

(** No occurrence of a non-empty [substr] starts after the last one. *)
Lemma LastIndex_after (s substr : string) (i : Z) :
  LastIndex s substr = i -> i <> -1 -> (0 < String.length substr)%nat ->
  LastIndex (slice_from s (i + len substr)) substr = -1.
Proof.
  intros Hi Hne Hlen.
  destruct (LastIndex_some s substr) as (j & Hj & Hres & Hocc & Hlater); [lia|].
  assert (i = Z.of_nat j) as -> by lia.
  unfold slice_from, len.
  replace (Z.to_nat (Z.of_nat j + Z.of_nat (String.length substr)))
    with (j + String.length substr)%nat by lia.
  pose proof (prefix_length _ _ Hocc) as Hfit. rewrite length_drop in Hfit.
  destruct (Z.eq_dec (LastIndex (drop (j + String.length substr) s) substr) (-1))
    as [|Hsome]; [done|].
  destruct (LastIndex_some _ _ Hsome) as (j2 & Hj2 & _ & Hocc2 & _).
  rewrite length_drop in Hj2. rewrite drop_drop in Hocc2.
  rewrite Hlater in Hocc2; [discriminate | lia].
Qed.

End GoStringFacts.

(** ** The import registry *)

Section Registry.
Context {U : Unicode}.
Import GoString GoStringFacts.

Lemma comma_ok_true (m : gmap string string) (k v : string) :
  comma_ok m k = (v, true) -> m !! k = Some v.
Proof. unfold comma_ok. destruct (m !! k); naive_solver. Qed.

Lemma comma_ok_false (m : gmap string string) (k v : string) :
  comma_ok m k = (v, false) -> m !! k = None.
Proof. unfold comma_ok. destruct (m !! k); naive_solver. Qed.

Lemma aliases_from_mono (l : importsList) (n m : nat) :
  (n <= m)%nat -> (size (aliases_from l m) <= size (aliases_from l n))%nat.
Proof.
  intros Hnm. apply subseteq_size. unfold aliases_from.
  intros alias. rewrite !elem_of_filter. intros [? ?]; split; [lia | done].
Qed.

Lemma aliases_from_lt (l : importsList) (n m : nat) (alias p : string) :
  byAlias l !! alias = Some p ->
  (n <= String.length alias < m)%nat ->
  (size (aliases_from l m) < size (aliases_from l n))%nat.
Proof.
  intros Hin Hlen. apply subset_size. unfold aliases_from. split.
  - intros k. rewrite !elem_of_filter. intros [? ?]; split; [lia | done].
  - intros Hsub. assert (alias ∈ filter (fun k => (m <= String.length k)%nat)
                                        (dom (byAlias l))) as Hm.
    { apply Hsub. rewrite elem_of_filter. split; [lia|].
      apply elem_of_dom. eauto. }
    rewrite elem_of_filter in Hm. lia.
Qed.

Lemma aliases_from_size (l : importsList) (n : nat) :
  (size (aliases_from l n) <= size (byAlias l))%nat.
Proof.
  rewrite <- (size_dom (D := gset string) (byAlias l)).
  apply subseteq_size. unfold aliases_from.
  intros k. rewrite elem_of_filter. tauto.
Qed.

Lemma path_Split_length (path : string) :
  (String.length (path_Split path).1 <= String.length path)%nat.
Proof. unfold path_Split, slice_to. simpl. apply length_take_le. Qed.

(** One pass of the loop: while [restPath] is not empty it gets shorter
    and [alias] does not; once it is empty, [alias] gets longer. *)
Lemma NeedImport_body_rest (alias restPath nextWord alias' restPath' nextWord' : string) :
  NeedImport_body alias restPath nextWord = (alias', restPath', nextWord') ->
  restPath <> "" ->
  (String.length alias <= String.length alias')%nat
  /\ (String.length restPath' < String.length restPath)%nat.
Proof.
  unfold NeedImport_body. intros Hbody Hrest.
  apply String.eqb_neq in Hrest as Heqb. rewrite Heqb in Hbody.
  assert (0 < String.length restPath)%nat as Hpos.
  { destruct restPath; [done | simpl; lia]. }
  assert ((0 <? len restPath) = true) as Hlt by (unfold len; lia).
  rewrite Hlt in Hbody.
  pose proof (path_Split_length (slice_to restPath (len restPath - 1))) as Hs.
  destruct (path_Split (slice_to restPath (len restPath - 1))) as [r w].
  injection Hbody as <- <- <-. rewrite length_app. split; [lia|].
  simpl in Hs. unfold slice_to, len in Hs.
  pose proof (length_take (Z.to_nat (Z.of_nat (String.length restPath) - 1)) restPath).
  lia.
Qed.

Lemma NeedImport_body_empty (alias nextWord alias' restPath' nextWord' : string) :
  NeedImport_body alias "" nextWord = (alias', restPath', nextWord') ->
  (String.length alias < String.length alias')%nat /\ restPath' = "".
Proof.
  unfold NeedImport_body. simpl. intros Hbody.
  injection Hbody as <- <- <-. rewrite !length_app. simpl. split; [lia | done].
Qed.

(** The loop stops within the fuel [NeedImport] gives it. *)
Lemma NeedImport_loop_fuel (l : importsList) (importPath : string) (fuel : nat) :
  forall otherPath exists_ alias restPath nextWord,
    (String.length restPath
     + size (aliases_from l (String.length alias
                             + (if String.eqb restPath "" then 1 else 0)))
     + 1 <= fuel)%nat ->
    is_Some (NeedImport_loop fuel l importPath otherPath exists_
                             alias restPath nextWord).
Proof.
  induction fuel as [|fuel IH]; intros otherPath exists_ alias restPath nextWord Hfuel;
    [lia|].
  cbn [NeedImport_loop].
  destruct (exists_ && negb (String.eqb otherPath importPath)); [|by eexists].
  destruct (NeedImport_body alias restPath nextWord) as [[alias' restPath'] nextWord']
    eqn:Hbody.
  destruct (comma_ok (byAlias l) alias') as [otherPath' exists_'] eqn:Hlookup.
  destruct exists_'; [|destruct fuel; by eexists].
  apply comma_ok_true in Hlookup.
  apply IH.
  destruct (String.eqb restPath "") eqn:Hrest.
  - apply String.eqb_eq in Hrest as ->.
    apply NeedImport_body_empty in Hbody as [Hlen ->]. simpl.
    pose proof (aliases_from_lt l (String.length alias + 1)
                  (String.length alias' + 1) alias' otherPath' Hlookup).
    simpl in Hfuel. lia.
  - apply String.eqb_neq in Hrest.
    apply NeedImport_body_rest in Hbody as [Hlen Hshort]; [|done].
    pose proof (aliases_from_mono l (String.length alias + 0)
                  (String.length alias'
                   + (if String.eqb restPath' "" then 1 else 0))).
    lia.
Qed.

(** When the loop stops, the alias it returns is free, or bound to
    [importPath] itself; if the loop was not entered the alias is the one
    it was given. *)
Lemma NeedImport_loop_exit (l : importsList) (importPath : string) (fuel : nat) :
  forall otherPath exists_ alias restPath nextWord result,
    NeedImport_loop fuel l importPath otherPath exists_ alias restPath nextWord
      = Some result ->
    (exists_ && negb (String.eqb otherPath importPath) = false /\ result = alias)
    \/ byAlias l !! result = None
    \/ byAlias l !! result = Some importPath.
Proof.
  induction fuel as [|fuel IH];
    intros otherPath exists_ alias restPath nextWord result; cbn [NeedImport_loop];
    destruct (exists_ && negb (String.eqb otherPath importPath)) eqn:Hcond;
    try (intros [= <-]; by left); try done.
  destruct (NeedImport_body alias restPath nextWord) as [[alias' restPath'] nextWord'].
  destruct (comma_ok (byAlias l) alias') as [otherPath' exists_'] eqn:Hlookup.
  intros Hloop. apply IH in Hloop as [[Hstop ->] | Hfree]; [|by right].
  right. destruct exists_'.
  - apply comma_ok_true in Hlookup. simpl in Hstop.
    apply negb_false_iff, String.eqb_eq in Hstop as ->. by right.
  - apply comma_ok_false in Hlookup. by left.
Qed.

(** [NeedImport] never panics and never runs out of fuel. *)
Lemma NeedImport_total (importPath : string) (l : importsList) :
  is_Some (NeedImport importPath l).
Proof.
  unfold NeedImport.
  destruct (comma_ok (byPath l) (NonVendor importPath)) as [alias [|]]; [by eexists|].
  pose proof (path_Split_length (NonVendor importPath)) as Hsplit.
  destruct (path_Split (NonVendor importPath)) as [restPath nextWord].
  destruct (NeedImport_loop_fuel l (NonVendor importPath)
              (NeedImport_fuel l (NonVendor importPath))
              "" true alias restPath nextWord) as [result ->]; [|by eexists].
  unfold NeedImport_fuel. simpl in Hsplit.
  pose proof (aliases_from_size l
    (String.length alias + (if String.eqb restPath "" then 1 else 0))).
  lia.
Qed.

(** A path already in the registry: its alias is returned, the registry
    is left as it is. *)
Lemma NeedImport_seen (importPath alias : string) (l : importsList) :
  byPath l !! NonVendor importPath = Some alias ->
  NeedImport importPath l = Some (alias, l).
Proof. intros Hseen. unfold NeedImport, comma_ok. by rewrite Hseen. Qed.

(** A path not yet in the registry: the alias is recorded in both maps;
    unless the path is empty, the alias was free. *)
Lemma NeedImport_new (importPath : string) (l : importsList) :
  byPath l !! NonVendor importPath = None ->
  exists alias,
    NeedImport importPath l
    = Some (alias, {| byPath := <[NonVendor importPath := alias]> (byPath l);
                      byAlias := <[alias := NonVendor importPath]> (byAlias l) |})
    /\ (NonVendor importPath <> "" ->
        byAlias l !! alias = None
        \/ byAlias l !! alias = Some (NonVendor importPath)).
Proof.
  intros Hnew. destruct (NeedImport_total importPath l) as [[alias l'] Hcall].
  exists alias. revert Hcall. unfold NeedImport, comma_ok. rewrite Hnew.
  destruct (path_Split (NonVendor importPath)) as [restPath nextWord].
  destruct (NeedImport_loop _ _ _ _ _ _ _ _) as [result|] eqn:Hloop; [|done].
  intros [= -> <-]. split; [done|]. intros Hne.
  apply NeedImport_loop_exit in Hloop as [[Hstop _] | Hfree]; [|done].
  cbn [andb] in Hstop. apply negb_false_iff, String.eqb_eq in Hstop. congruence.
Qed.

(** Whatever the registry, a call leaves the path bound to the alias it
    returned, and changes no binding of [byPath]. *)
Lemma NeedImport_bound (importPath alias : string) (l l' : importsList) :
  NeedImport importPath l = Some (alias, l') ->
  byPath l' !! NonVendor importPath = Some alias
  /\ (forall p a, byPath l !! p = Some a -> byPath l' !! p = Some a).
Proof.
  intros Hcall. destruct (byPath l !! NonVendor importPath) as [a|] eqn:Hlookup.
  - rewrite (NeedImport_seen _ _ _ Hlookup) in Hcall.
    injection Hcall as <- <-. done.
  - destruct (NeedImport_new _ _ Hlookup) as (a & Ha & _).
    rewrite Ha in Hcall. injection Hcall as <- <-. simpl. split.
    + apply lookup_insert_eq.
    + intros p b Hp. rewrite lookup_insert_ne; [done | congruence].
Qed.

(** Calling again with the same path returns the same alias and leaves
    the registry unchanged. *)
Lemma NeedImport_idempotent (importPath alias : string) (l l' : importsList) :
  NeedImport importPath l = Some (alias, l') ->
  NeedImport importPath l' = Some (alias, l').
Proof.
  intros Hcall. apply NeedImport_seen.
  by destruct (NeedImport_bound _ _ _ _ Hcall).
Qed.

Lemma paired_imports : paired imports.
Proof. intros p alias. unfold imports. simpl. by rewrite !lookup_empty. Qed.

(** A call with a path that is not empty once stripped keeps the maps
    paired one to one. *)
Lemma NeedImport_paired (importPath alias : string) (l l' : importsList) :
  paired l -> NonVendor importPath <> "" ->
  NeedImport importPath l = Some (alias, l') ->
  paired l'.
Proof.
  intros Hpaired Hne Hcall.
  destruct (byPath l !! NonVendor importPath) as [a|] eqn:Hlookup.
  - rewrite (NeedImport_seen _ _ _ Hlookup) in Hcall. by injection Hcall as <- <-.
  - destruct (NeedImport_new _ _ Hlookup) as (a & Ha & Hfree).
    rewrite Ha in Hcall. injection Hcall as -> <-.
    assert (byAlias l !! alias = None) as Hfresh.
    { destruct (Hfree Hne) as [|Hself]; [done|].
      apply Hpaired in Hself. congruence. }
    intros p b. simpl.
    destruct (decide (NonVendor importPath = p)) as [<-|Hp];
      destruct (decide (alias = b)) as [<-|Hb];
      rewrite ?lookup_insert_eq, ?lookup_insert_ne by done.
    + done.
    + split; [congruence|]. intros Hb'. apply Hpaired in Hb'. congruence.
    + split; [|congruence]. intros Hp'. apply Hpaired in Hp'. congruence.
    + apply Hpaired.
Qed.

(** In a run, every call leaves its path bound to the alias it returned,
    up to the end of the run. *)
Lemma NeedImports_bound (paths : list string) :
  forall l aliases l',
    NeedImports paths l = Some (aliases, l') ->
    List.length aliases = List.length paths
    /\ (forall p a, byPath l !! p = Some a -> byPath l' !! p = Some a)
    /\ (forall i p, paths !! i = Some p ->
         exists a, aliases !! i = Some a /\ byPath l' !! NonVendor p = Some a).
Proof.
  induction paths as [|p paths IH]; intros l aliases l' Hrun; simpl in Hrun.
  - injection Hrun as <- <-. repeat split; auto. intros i p; by rewrite lookup_nil.
  - destruct (NeedImport p l) as [[a l1]|] eqn:Hcall; [|done].
    destruct (NeedImports paths l1) as [[aliases' l2]|] eqn:Hrest; [|done].
    injection Hrun as <- <-.
    apply NeedImport_bound in Hcall as [Hp Hkeep].
    destruct (IH _ _ _ Hrest) as (Hlen & Hkeep' & Hrun').
    split; [simpl; lia|]. split; [auto|].
    intros [|i] q Hq; simpl in *.
    + injection Hq as <-. eauto.
    + apply Hrun', Hq.
Qed.

Lemma NeedImports_total (paths : list string) (l : importsList) :
  is_Some (NeedImports paths l).
Proof.
  revert l; induction paths as [|p paths IH]; intros l; simpl; [by eexists|].
  destruct (NeedImport_total p l) as [[a l1] ->].
  destruct (IH l1) as [[aliases l2] ->]. by eexists.
Qed.

Lemma NeedImports_paired (paths : list string) :
  forall l aliases l',
    paired l -> Forall (fun p => NonVendor p <> "") paths ->
    NeedImports paths l = Some (aliases, l') -> paired l'.
Proof.
  induction paths as [|p paths IH]; intros l aliases l' Hpaired Hne Hrun;
    simpl in Hrun.
  - by injection Hrun as <- <-.
  - destruct (NeedImport p l) as [[a l1]|] eqn:Hcall; [|done].
    destruct (NeedImports paths l1) as [[aliases' l2]|] eqn:Hrest; [|done].
    injection Hrun as <- <-. inversion Hne as [|? ? Hp Hps]; subst.
    eapply IH; [|done|done]. eapply NeedImport_paired; eauto.
Qed.

(** Stripping the vendor directory twice is stripping it once. *)
Lemma NonVendor_idempotent (importPath : string) :
  NonVendor (NonVendor importPath) = NonVendor importPath.
Proof.
  unfold NonVendor at 2 3.
  destruct (LastIndex importPath "/vendor/" =? -1) eqn:Hind; simpl.
  - unfold NonVendor. by rewrite Hind.
  - apply Z.eqb_neq in Hind.
    pose proof (LastIndex_after importPath "/vendor/" _ eq_refl Hind) as Hafter.
    unfold NonVendor. change (len "/vendor/") with 8 in Hafter.
    rewrite Hafter; [done | simpl; lia].
Qed.

Lemma NeedImport_NonVendor (importPath : string) (l : importsList) :
  NeedImport (NonVendor importPath) l = NeedImport importPath l.
Proof. unfold NeedImport. by rewrite NonVendor_idempotent. Qed.

(** C1, amended.  In a run of [NeedImport] from the empty registry over
    paths none of which is empty once its vendor prefix is stripped: two
    calls that return the same alias were given the same path up to the
    vendor prefix; two calls given the same path up to the vendor prefix
    return the same alias; and after the run a further call with any of
    the paths returns the alias that path was assigned and leaves the
    registry unchanged. *)
Theorem NeedImports_aliases_unique (paths : list string) :
  Forall (fun p => NonVendor p <> "") paths ->
  exists aliases l,
    NeedImports paths imports = Some (aliases, l)
    /\ (forall i j p q a,
          paths !! i = Some p -> paths !! j = Some q ->
          aliases !! i = Some a -> aliases !! j = Some a ->
          NonVendor p = NonVendor q)
    /\ (forall i j p q,
          paths !! i = Some p -> paths !! j = Some q ->
          NonVendor p = NonVendor q -> aliases !! i = aliases !! j)
    /\ (forall i p a,
          paths !! i = Some p -> aliases !! i = Some a ->
          NeedImport p l = Some (a, l)).
Proof.
  intros Hne.
  destruct (NeedImports_total paths imports) as [[aliases l] Hrun].
  exists aliases, l. split; [done|].
  pose proof (NeedImports_paired _ _ _ _ paired_imports Hne Hrun) as Hpaired.
  destruct (NeedImports_bound _ _ _ _ Hrun) as (_ & _ & Hbound).
  split; [|split].
  - intros i j p q a Hp Hq Ha Hb.
    destruct (Hbound _ _ Hp) as (a' & Ha' & Hpa).
    destruct (Hbound _ _ Hq) as (b' & Hb' & Hqb).
    assert (a' = a) as -> by congruence. assert (b' = a) as -> by congruence.
    apply Hpaired in Hpa, Hqb. congruence.
  - intros i j p q Hp Hq Hpq.
    destruct (Hbound _ _ Hp) as (a' & -> & Hpa).
    destruct (Hbound _ _ Hq) as (b' & -> & Hqb). congruence.
  - intros i p a Hp Ha.
    destruct (Hbound _ _ Hp) as (a' & Ha' & Hpa).
    apply NeedImport_seen. congruence.
Qed.

(** C8.  A path in which ["/vendor/"] occurs is handled as the part of it
    that follows the last occurrence: on every registry the two calls
    return the same alias and leave the same registry, and in every run
    the calls given the one and the calls given the other return the same
    alias. *)
Theorem NeedImport_vendor_stripped (importPath : string) (l : importsList) :
  LastIndex importPath "/vendor/" <> -1 ->
  let canonical := slice_from importPath (LastIndex importPath "/vendor/" + 8) in
  NeedImport importPath l = NeedImport canonical l
  /\ forall paths aliases l' i j,
       NeedImports paths l = Some (aliases, l') ->
       paths !! i = Some importPath -> paths !! j = Some canonical ->
       aliases !! i = aliases !! j.
Proof.
  intros Hind canonical.
  assert (NonVendor importPath = canonical) as Hcanonical.
  { unfold NonVendor. apply Z.eqb_neq in Hind. by rewrite Hind. }
  split.
  - rewrite <- Hcanonical. symmetry. apply NeedImport_NonVendor.
  - intros paths aliases l' i j Hrun Hi Hj.
    destruct (NeedImports_bound _ _ _ _ Hrun) as (_ & _ & Hbound).
    destruct (Hbound _ _ Hi) as (a & -> & Ha).
    destruct (Hbound _ _ Hj) as (b & -> & Hb).
    rewrite <- Hcanonical, NonVendor_idempotent in Hb. congruence.
Qed.

End Registry.

(** A vendored copy of a package and the package itself: two paths, one
    alias.  This is what C1 denies as it is stated. *)
Lemma NeedImport_vendored_shares_alias :
  fst <$> NeedImports
            [ "k8s.io/api/core/v1";
              "sigs.k8s.io/controller-tools/vendor/k8s.io/api/core/v1" ] imports
  = Some ["v1"; "v1"]
  /\ "k8s.io/api/core/v1"
     <> "sigs.k8s.io/controller-tools/vendor/k8s.io/api/core/v1".
Proof. split; [vm_compute; reflexivity | discriminate]. Qed.

(** The run over three packages and the vendored copy of the first. *)
Lemma NeedImports_aliases_unique_witness :
  let paths :=
    [ "k8s.io/api/core/v1"; "k8s.io/apimachinery/pkg/apis/meta/v1";
      "sigs.k8s.io/controller-tools/vendor/k8s.io/api/core/v1";
      "k8s.io/apiextensions-apiserver/pkg/apis/apiextensions/v1" ] in
  Forall (fun p => NonVendor p <> "") paths
  /\ exists aliases l,
      NeedImports paths imports = Some (aliases, l)
      /\ (forall i j p q a,
            paths !! i = Some p -> paths !! j = Some q ->
            aliases !! i = Some a -> aliases !! j = Some a ->
            NonVendor p = NonVendor q)
      /\ (forall i j p q,
            paths !! i = Some p -> paths !! j = Some q ->
            NonVendor p = NonVendor q -> aliases !! i = aliases !! j)
      /\ (forall i p a,
            paths !! i = Some p -> aliases !! i = Some a ->
            NeedImport p l = Some (a, l)).
Proof.
  assert (Forall (fun p => NonVendor p <> "")
            [ "k8s.io/api/core/v1"; "k8s.io/apimachinery/pkg/apis/meta/v1";
              "sigs.k8s.io/controller-tools/vendor/k8s.io/api/core/v1";
              "k8s.io/apiextensions-apiserver/pkg/apis/apiextensions/v1" ]) as Hne.
  { repeat constructor; vm_compute; discriminate. }
  exact (conj Hne (NeedImports_aliases_unique _ Hne)).
Defined.

(** The vendored copy of [k8s.io/api/core/v1], on the empty registry. *)
Lemma NeedImport_vendor_stripped_witness :
  let importPath := "sigs.k8s.io/controller-tools/vendor/k8s.io/api/core/v1" in
  let canonical := "k8s.io/api/core/v1" in
  GoString.LastIndex importPath "/vendor/" <> -1
  /\ (NeedImport importPath imports = NeedImport canonical imports
      /\ forall paths aliases l' i j,
           NeedImports paths imports = Some (aliases, l') ->
           paths !! i = Some importPath -> paths !! j = Some canonical ->
           aliases !! i = aliases !! j).
Proof.
  assert (GoString.LastIndex
            "sigs.k8s.io/controller-tools/vendor/k8s.io/api/core/v1" "/vendor/"
          <> -1) as Hind by (vm_compute; discriminate).
  exact (conj Hind (NeedImport_vendor_stripped _ imports Hind)).
Defined.

(** ** The trivial-version collapse *)

Section TrivialVersions.
Context {Validation Subresources Column Rest : Type}.
#[local] Abbreviation Version :=
  (@CustomResourceDefinitionVersion Validation Subresources Column).
#[local] Abbreviation CRD :=
  (@CustomResourceDefinition Validation Subresources Column Rest).

(** The loop clears every version and leaves in the three variables the
    fields of the last stored version, if any. *)
Lemma toTrivialVersions_loop_cleared (versions : list Version) (c : canonical) :
  (toTrivialVersions_loop versions c).1 = map cleared versions.
Proof.
  revert c; induction versions as [|ver versions IH]; intros c; simpl; [done|].
  specialize (IH (if ver_Storage ver
                  then (ver_Schema ver, ver_Subresources ver,
                        ver_AdditionalPrinterColumns ver)
                  else c)).
  destruct (toTrivialVersions_loop versions _) as [rest c']. simpl in *.
  by rewrite IH.
Qed.

Lemma toTrivialVersions_loop_none (versions : list Version) (c : canonical) :
  Forall (fun ver => ver_Storage ver = false) versions ->
  (toTrivialVersions_loop versions c).2 = c.
Proof.
  revert c; induction versions as [|ver versions IH]; intros c Hnone; simpl; [done|].
  inversion Hnone as [|? ? Hver Hrest]; subst. rewrite Hver.
  specialize (IH c Hrest).
  destruct (toTrivialVersions_loop versions c) as [rest c']. done.
Qed.

Lemma toTrivialVersions_loop_one (before after : list Version) (ver : Version)
    (c : canonical) :
  ver_Storage ver = true ->
  Forall (fun ver => ver_Storage ver = false) after ->
  (toTrivialVersions_loop (before ++ ver :: after)%list c).2
  = (ver_Schema ver, ver_Subresources ver, ver_AdditionalPrinterColumns ver).
Proof.
  intros Hver Hafter.
  revert c; induction before as [|w before IH]; intros c; simpl.
  - rewrite Hver.
    pose proof (toTrivialVersions_loop_none after
      (ver_Schema ver, ver_Subresources ver, ver_AdditionalPrinterColumns ver)
      Hafter) as Hc.
    destruct (toTrivialVersions_loop after _) as [rest c']. done.
  - specialize (IH (if ver_Storage w
                    then (ver_Schema w, ver_Subresources w,
                          ver_AdditionalPrinterColumns w)
                    else c)).
    destruct (toTrivialVersions_loop (before ++ ver :: after)%list _) as [rest c']. done.
Qed.

Lemma toTrivialVersions_versions (crd : CRD) :
  Spec_Versions (toTrivialVersions crd) = map cleared (Spec_Versions crd).
Proof.
  unfold toTrivialVersions.
  pose proof (toTrivialVersions_loop_cleared (Spec_Versions crd) (None, None, None)) as H.
  destruct (toTrivialVersions_loop _ _) as [versions [[[?|] ?] ?]]; done.
Qed.

(** C4, amended.  When exactly one version is stored and its schema is
    not nil, the collapse sets the validation, the subresources and the
    printer columns of the descriptor to those the stored version had,
    and clears the three fields on every version, the stored one
    included; nothing else changes. *)
Theorem toTrivialVersions_storage (crd : CRD) (before after : list Version)
    (ver : Version) :
  Spec_Versions crd = (before ++ ver :: after)%list ->
  ver_Storage ver = true ->
  Forall (fun ver => ver_Storage ver = false) (before ++ after)%list ->
  is_Some (ver_Schema ver) ->
  toTrivialVersions crd
  = {| Spec_Versions := map cleared (Spec_Versions crd);
       Spec_Validation := ver_Schema ver;
       Spec_Subresources := ver_Subresources ver;
       Spec_AdditionalPrinterColumns := ver_AdditionalPrinterColumns ver;
       Spec_PreserveUnknownFields := Spec_PreserveUnknownFields crd;
       crd_rest := crd_rest crd |}
  /\ Forall (fun ver => ver_Schema ver = None /\ ver_Subresources ver = None
                        /\ ver_AdditionalPrinterColumns ver = None)
            (Spec_Versions (toTrivialVersions crd)).
Proof.
  intros Hversions Hver Hothers [schema Hschema].
  apply Forall_app in Hothers as [_ Hafter].
  split.
  - unfold toTrivialVersions.
    pose proof (toTrivialVersions_loop_cleared (Spec_Versions crd) (None, None, None)) as H1.
    pose proof (toTrivialVersions_loop_one before after ver (None, None, None)
                  Hver Hafter) as H2.
    rewrite <- Hversions in H2.
    destruct (toTrivialVersions_loop _ _) as [versions [[s r] k]]. simpl in *.
    injection H2 as -> -> ->. rewrite Hschema, H1. done.
  - rewrite toTrivialVersions_versions. apply Forall_map, Forall_true. done.
Qed.

(** C10.  When no version is stored, the collapse still clears the
    schema, the subresources and the printer columns of every version,
    and leaves the validation, the subresources and the printer columns
    of the descriptor as they were. *)
Theorem toTrivialVersions_no_storage (crd : CRD) :
  Forall (fun ver => ver_Storage ver = false) (Spec_Versions crd) ->
  toTrivialVersions crd
  = {| Spec_Versions := map cleared (Spec_Versions crd);
       Spec_Validation := Spec_Validation crd;
       Spec_Subresources := Spec_Subresources crd;
       Spec_AdditionalPrinterColumns := Spec_AdditionalPrinterColumns crd;
       Spec_PreserveUnknownFields := Spec_PreserveUnknownFields crd;
       crd_rest := crd_rest crd |}
  /\ Forall (fun ver => ver_Schema ver = None /\ ver_Subresources ver = None
                        /\ ver_AdditionalPrinterColumns ver = None)
            (Spec_Versions (toTrivialVersions crd)).
Proof.
  intros Hnone. split.
  - unfold toTrivialVersions.
    pose proof (toTrivialVersions_loop_cleared (Spec_Versions crd) (None, None, None)) as H1.
    pose proof (toTrivialVersions_loop_none _ (None, None, None) Hnone) as H2.
    destruct (toTrivialVersions_loop _ _) as [versions [[s r] k]]. simpl in *.
    injection H2 as -> -> ->. by rewrite H1.
  - rewrite toTrivialVersions_versions. apply Forall_map, Forall_true. done.
Qed.

End TrivialVersions.

(** The stored version has the status subresource and a column but no
    schema: the collapse clears them and promotes nothing.  This is what
    C4 denies as it is stated. *)
Lemma toTrivialVersions_stored_without_schema :
  Spec_Subresources (toTrivialVersions SampleCRD.stored_without_schema) = None
  /\ Spec_AdditionalPrinterColumns (toTrivialVersions SampleCRD.stored_without_schema) = None
  /\ Spec_Versions SampleCRD.stored_without_schema
     = [SampleCRD.v1; SampleCRD.v1beta1_no_schema]
  /\ ver_Storage SampleCRD.v1 = false
  /\ ver_Storage SampleCRD.v1beta1_no_schema = true
  /\ ver_Subresources SampleCRD.v1beta1_no_schema = Some "status"
  /\ ver_AdditionalPrinterColumns SampleCRD.v1beta1_no_schema = Some ["Age"].
Proof. repeat split. Qed.

(** The collapse of [SampleCRD.two_versions], whose stored version is
    [v1beta1]. *)
Lemma toTrivialVersions_storage_witness :
  Spec_Versions SampleCRD.two_versions = ([SampleCRD.v1] ++ SampleCRD.v1beta1 :: [])%list
  /\ ver_Storage SampleCRD.v1beta1 = true
  /\ Forall (fun ver => ver_Storage ver = false) ([SampleCRD.v1] ++ [])%list
  /\ is_Some (ver_Schema SampleCRD.v1beta1)
  /\ (toTrivialVersions SampleCRD.two_versions
      = {| Spec_Versions := map cleared (Spec_Versions SampleCRD.two_versions);
           Spec_Validation := Some "B";
           Spec_Subresources := Some "status";
           Spec_AdditionalPrinterColumns := Some ["Age"];
           Spec_PreserveUnknownFields := Some false;
           crd_rest := tt |}
      /\ Forall (fun ver => ver_Schema ver = None /\ ver_Subresources ver = None
                            /\ ver_AdditionalPrinterColumns ver = None)
                (Spec_Versions (toTrivialVersions SampleCRD.two_versions))).
Proof.
  assert (Forall (fun ver : SampleCRD.Version => ver_Storage ver = false)
                 ([SampleCRD.v1] ++ [])%list) as Hothers
    by (repeat constructor).
  assert (is_Some (ver_Schema SampleCRD.v1beta1)) as Hschema by (by eexists).
  exact (conj eq_refl (conj eq_refl (conj Hothers (conj Hschema
    (toTrivialVersions_storage SampleCRD.two_versions [SampleCRD.v1] []
       SampleCRD.v1beta1 eq_refl eq_refl Hothers Hschema))))).
Defined.

(** The collapse of [SampleCRD.nothing_stored]. *)
Lemma toTrivialVersions_no_storage_witness :
  Forall (fun ver => ver_Storage ver = false)
         (Spec_Versions SampleCRD.nothing_stored)
  /\ (toTrivialVersions SampleCRD.nothing_stored
      = {| Spec_Versions := map cleared (Spec_Versions SampleCRD.nothing_stored);
           Spec_Validation := None;
           Spec_Subresources := None;
           Spec_AdditionalPrinterColumns := None;
           Spec_PreserveUnknownFields := Some false;
           crd_rest := tt |}
      /\ Forall (fun ver => ver_Schema ver = None /\ ver_Subresources ver = None
                            /\ ver_AdditionalPrinterColumns ver = None)
                (Spec_Versions (toTrivialVersions SampleCRD.nothing_stored))).
Proof.
  assert (Forall (fun ver : SampleCRD.Version => ver_Storage ver = false)
                 (Spec_Versions SampleCRD.nothing_stored)) as Hnone
    by (repeat constructor).
  exact (conj Hnone (toTrivialVersions_no_storage SampleCRD.nothing_stored Hnone)).
Defined.

(** ** The configuration errors of [Generate] *)

Section Generate.
Context {Validation Subresources Column Rest V1Rest UpstreamError GroupKind : Type}.
Context {U : Unicode} {R : Reflection}.
#[local] Abbreviation Context_ :=
  (@GenerationContext Validation Subresources Column Rest V1Rest UpstreamError GroupKind).
#[local] Abbreviation Obj :=
  (@Object Validation Subresources Column Rest V1Rest).
#[local] Abbreviation err := (@error UpstreamError).

Lemma preserveUnknownFields_Fail (g : Generator) (crdVersions : list string)
    (versionedCRDs : list Obj) (e : err) :
  preserveUnknownFields g crdVersions versionedCRDs = Fail e
  <-> PreserveUnknownFields g = Some true
      /\ v1beta1Only crdVersions = false
      /\ e = errPreserveUnknownFields.
Proof.
  unfold preserveUnknownFields.
  destruct (PreserveUnknownFields g) as [[|]|];
    destruct (v1beta1Only crdVersions); simpl;
    (split; [intros Heq | intros (Hp & Hv & He)]);
    try discriminate;
    try (destruct versionedCRDs as [|[|] ?]; discriminate).
  - by injection Heq as <-.
  - by subst.
Qed.

Lemma Generate_kind_Fail (g : Generator) (ctx : Context_)
    (crdVersions : list string) (groupKind : GroupKind)
    (crds : gmap string (list Obj)) (message : string) :
  Generate_kind g ctx crdVersions groupKind crds = Fail (Errorf message)
  <-> PreserveUnknownFields g = Some true
      /\ v1beta1Only crdVersions = false
      /\ Errorf message = errPreserveUnknownFields (UpstreamError := UpstreamError)
      /\ exists versionedCRDs,
           asVersions ctx
             (addAttribution (version_Version ctx)
                             (CustomResourceDefinitions ctx groupKind))
             crdVersions = inr versionedCRDs
           /\ (TrivialVersions g = true ->
               is_Some (trivialVersions crdVersions versionedCRDs)).
Proof.
  unfold Generate_kind.
  destruct (asVersions ctx _ crdVersions) as [e|versionedCRDs].
  { split; [done|]. by intros (_ & _ & _ & cs & Hcs & _). }
  assert (forall collapsed : list Obj,
            (TrivialVersions g = true ->
             trivialVersions crdVersions versionedCRDs = Some collapsed) ->
            match preserveUnknownFields g crdVersions collapsed with
            | Done cs => Done (collect crdVersions cs crds)
            | Fail e => Fail e
            | Panicked => Panicked
            end = @Fail UpstreamError _ (Errorf message)
            <-> PreserveUnknownFields g = Some true
                /\ v1beta1Only crdVersions = false
                /\ Errorf message = errPreserveUnknownFields (UpstreamError := UpstreamError)
                /\ exists cs : list Obj,
                     inr versionedCRDs = inr cs (A := UpstreamError)
                     /\ (TrivialVersions g = true ->
                         is_Some (trivialVersions crdVersions cs))) as Hswitch.
  { intros collapsed Hcollapsed.
    pose proof (preserveUnknownFields_Fail g crdVersions collapsed) as Hfail.
    destruct (preserveUnknownFields g crdVersions collapsed) as [cs|e|].
    - split; [done|]. intros (Hp & Hv & _).
      pose proof (proj2 (Hfail errPreserveUnknownFields)
                          (conj Hp (conj Hv eq_refl))) as Habs.
      discriminate.
    - destruct (proj1 (Hfail e) eq_refl) as (Hp & Hv & ->). split.
      + intros [= Heq]. split; [done|]. split; [done|]. split; [by rewrite <- Heq|].
        exists versionedCRDs. split; [done|]. intros HTV. rewrite Hcollapsed; eauto.
      + by intros (_ & _ & -> & _).
    - split; [done|]. intros (Hp & Hv & _).
      pose proof (proj2 (Hfail errPreserveUnknownFields)
                          (conj Hp (conj Hv eq_refl))) as Habs.
      discriminate. }
  destruct (TrivialVersions g).
  - destruct (trivialVersions crdVersions versionedCRDs) as [collapsed|] eqn:Hcollapse.
    + apply Hswitch. done.
    + split; [done|]. intros (_ & _ & _ & cs & [= <-] & Hsome).
      destruct (Hsome eq_refl) as [? ?]. congruence.
  - apply Hswitch. done.
Qed.

(** With the flag set and another version list, no kind gets past the
    [switch]. *)
Lemma Generate_kind_not_Done (g : Generator) (ctx : Context_)
    (crdVersions : list string) (groupKind : GroupKind)
    (crds crds' : gmap string (list Obj)) :
  PreserveUnknownFields g = Some true -> v1beta1Only crdVersions = false ->
  Generate_kind g ctx crdVersions groupKind crds <> Done crds'.
Proof.
  intros Hp Hv. unfold Generate_kind.
  destruct (asVersions ctx _ crdVersions) as [e|versionedCRDs]; [done|].
  destruct (if TrivialVersions g then _ else _) as [collapsed|]; [|done].
  assert (preserveUnknownFields g crdVersions collapsed
          = Fail errPreserveUnknownFields) as ->
    by (by apply preserveUnknownFields_Fail).
  done.
Qed.

Lemma Generate_kinds_Fail (g : Generator) (ctx : Context_)
    (crdVersions : list string) (kubeKinds : list GroupKind) (message : string) :
  forall crds : gmap string (list Obj),
  Generate_kinds g ctx crdVersions kubeKinds crds = Fail (Errorf message)
  <-> PreserveUnknownFields g = Some true
      /\ v1beta1Only crdVersions = false
      /\ Errorf message = errPreserveUnknownFields (UpstreamError := UpstreamError)
      /\ exists groupKind kubeKinds' versionedCRDs,
           kubeKinds = groupKind :: kubeKinds'
           /\ asVersions ctx
                (addAttribution (version_Version ctx)
                                (CustomResourceDefinitions ctx groupKind))
                crdVersions = inr versionedCRDs
           /\ (TrivialVersions g = true ->
               is_Some (trivialVersions crdVersions versionedCRDs)).
Proof.
  induction kubeKinds as [|groupKind kubeKinds IH]; intros crds; simpl.
  - split; [done|]. intros (_ & _ & _ & ? & ? & ? & ? & _). done.
  - destruct (Generate_kind g ctx crdVersions groupKind crds) as [crds'|e|] eqn:Hkind.
    + rewrite IH. split.
      * intros (Hp & Hv & _). by destruct (Generate_kind_not_Done _ _ _ _ _ _ Hp Hv Hkind).
      * intros (Hp & Hv & _). by destruct (Generate_kind_not_Done _ _ _ _ _ _ Hp Hv Hkind).
    + split.
      * intros [= ->]. apply Generate_kind_Fail in Hkind.
        destruct Hkind as (Hp & Hv & Hm & cs & Hcs & Hsome).
        repeat split; [done..|]. by exists groupKind, kubeKinds, cs.
      * intros (Hp & Hv & Hm & k & rest & cs & [= <- <-] & Hcs & Hsome).
        assert (Generate_kind g ctx crdVersions groupKind crds
                = Fail (Errorf message)) as Hfail.
        { apply Generate_kind_Fail. eauto 10. }
        congruence.
    + split; [done|].
      intros (Hp & Hv & Hm & k & rest & cs & [= <- <-] & Hcs & Hsome).
      assert (Generate_kind g ctx crdVersions groupKind crds
              = Fail (Errorf message)) as Hfail.
      { apply Generate_kind_Fail. eauto 10. }
      congruence.
Qed.

(** Past the check of the package name, an error of [Generate]'s own
    making can only be one the loop over the kinds returned. *)
Lemma Generate_Errorf (g : Generator) (ctx : Context_) (l l' : importsList)
    (message : string) :
  PackageName g <> "" ->
  Generate g ctx l = Some (Some (Errorf message), l')
  <-> l' = l
      /\ (HeaderFile g = "" \/ exists text, ReadFile ctx (HeaderFile g) = inr text)
      /\ is_Some (FindMetav1 ctx)
      /\ Generate_kinds g ctx (requestedVersions g) (FindKubeKinds ctx) ∅
         = Fail (Errorf message).
Proof.
  intros Hname. unfold Generate.
  apply String.eqb_neq in Hname. rewrite Hname.
  assert (forall text : string,
    match FindMetav1 ctx with
    | None => mret None
    | Some metav1Pkg =>
        if Z.of_nat (List.length (FindKubeKinds ctx)) =? 0 then mret None
        else
          match Generate_kinds g ctx (requestedVersions g) (FindKubeKinds ctx) ∅ with
          | Done crds =>
              match Render ctx "zz.generated.scheme.go"
                      (GenerateScheme
                         {| packageName := PackageName g;
                            headerText := ReplaceAll text " YEAR" (" " +:+ Year g) |}
                         ctx metav1Pkg) with
              | Some e => mret (Some (Upstream e))
              | None =>
                  crdsfile ← GenerateCrds
                    {| packageName := PackageName g;
                       headerText := ReplaceAll text " YEAR" (" " +:+ Year g) |}
                    (map (fun '(version, objects) =>
                            (version, map (reflect_ValueOf ctx) objects))
                         (range_crds ctx crds));
                  mret (Upstream <$> Render ctx "zz.generated.crds.go" crdsfile)
              end
          | Fail e => mret (Some e)
          | Panicked => panic
          end
    end l = Some (Some (Errorf message), l')
    <-> l' = l /\ is_Some (FindMetav1 ctx)
        /\ Generate_kinds g ctx (requestedVersions g) (FindKubeKinds ctx) ∅
           = Fail (Errorf message)) as Hrest.
  { intros text. destruct (FindMetav1 ctx) as [metav1Pkg|]; simpl.
    2: { split; [done|]. intros (_ & [? ?] & _). done. }
    destruct (FindKubeKinds ctx) as [|groupKind kubeKinds] eqn:Hkinds; simpl.
    { split; [done|]. by intros (_ & _ & ?). }
    change (Z.pos (Pos.of_succ_nat (List.length kubeKinds)) =? 0) with false.
    cbv iota.
    destruct (match Generate_kind g ctx (requestedVersions g) groupKind ∅ with
              | Done crds => Generate_kinds g ctx (requestedVersions g) kubeKinds crds
              | Fail e => Fail e
              | Panicked => Panicked
              end) as [crds|e|].
    - split; [|by intros (_ & _ & ?)].
      destruct (Render ctx "zz.generated.scheme.go" _); [done|].
      unfold mbind, Gen_bind. destruct (GenerateCrds _ _ l) as [[? ?]|]; [|done].
      unfold mret, Gen_ret. destruct (Render ctx _ _); done.
    - unfold mret, Gen_ret. split.
      + intros [= -> ->]. eauto.
      + by intros (-> & _ & [= ->]).
    - split; [done|]. by intros (_ & _ & ?). }
  destruct (String.eqb (HeaderFile g) "") eqn:Hheader; simpl.
  - apply String.eqb_eq in Hheader. rewrite Hrest. intuition.
  - apply String.eqb_neq in Hheader.
    destruct (ReadFile ctx (HeaderFile g)) as [e|text].
    + split; [done|]. intros (_ & [?|[text ?]] & _); done.
    + rewrite Hrest. intuition eauto.
Qed.

(** C7, amended.  [Generate] returns an error of its own making in two
    cases only: "missing package name" exactly when the package name is
    empty; and, the package name given, the error about
    [PreserveUnknownFields] exactly when the run reaches the [switch]
    (the header is read, the roots hold [metav1] and a kind, the first
    kind is converted) with the flag set to true and a version list that,
    once defaulted to [v1], is not the single [v1beta1].  The registry is
    as it was. *)
Theorem Generate_configuration_error (g : Generator) (ctx : Context_)
    (l l' : importsList) (message : string) :
  Generate g ctx l = Some (Some (Errorf message), l')
  <-> l' = l
      /\ ((PackageName g = "" /\ message = "missing package name")
          \/ (PackageName g <> ""
              /\ reachesSwitch g ctx
              /\ PreserveUnknownFields g = Some true
              /\ v1beta1Only (requestedVersions g) = false
              /\ message
                 = "you may only set PreserveUnknownFields to true with v1beta1 CRDs")).
Proof.
  destruct (String.eqb (PackageName g) "") eqn:Hname.
  - unfold Generate. rewrite Hname. apply String.eqb_eq in Hname.
    unfold errMissingPackageName, mret, Gen_ret. split.
    + intros [= <- <-]. auto.
    + intros (-> & [[_ ->] | [? _]]); done.
  - apply String.eqb_neq in Hname.
    rewrite (Generate_Errorf g ctx l l' message Hname), Generate_kinds_Fail.
    unfold reachesSwitch, errPreserveUnknownFields. split.
    + intros (-> & Hheader & Hmeta & Hp & Hv & [= ->] & Hkinds).
      split; [done|]. right. auto 10.
    + intros (-> & [[? _] | (_ & (Hheader & Hmeta & Hkinds) & Hp & Hv & ->)]);
        [done|].
      auto 10.
Qed.

End Generate.

(** ** The serializer *)

(** Induction on a value, the property assumed of the values it holds. *)
Lemma value_children_ind (P : value -> Prop) :
  (forall v, Forall P (children v) -> P v) -> forall v, P v.
Proof.
  intros Hstep. fix IH 1. intros v. apply Hstep.
  destruct v as [| | | | | |e [[a pointee]|]|e [vs|]|e vs|k e [kvs|]| | |t vs];
    simpl; try exact (List.Forall_nil P).
  - constructor; [apply IH | constructor].
  - induction vs as [|x vs IHvs]; constructor; [apply IH | apply IHvs].
  - induction vs as [|x vs IHvs]; constructor; [apply IH | apply IHvs].
  - induction kvs as [|[kv vv] kvs IHkvs]; simpl; [constructor|].
    constructor; [apply IH|]. constructor; [apply IH | apply IHkvs].
  - induction vs as [|x vs IHvs]; constructor; [apply IH | apply IHvs].
Qed.

Section GenFacts.

Lemma bind_Some {A B : Type} (m : Gen A) (k : A -> Gen B) (l l1 : importsList)
    (a : A) :
  m l = Some (a, l1) -> (m ≫= k) l = k a l1.
Proof. intros Hm. unfold mbind, Gen_bind. by rewrite Hm. Qed.

Lemma bind_None {A B : Type} (m : Gen A) (k : A -> Gen B) (l : importsList) :
  m l = None -> (m ≫= k) l = None.
Proof. intros Hm. unfold mbind, Gen_bind. by rewrite Hm. Qed.

Lemma stateless_ret {A : Type} (a : A) : stateless (mret a).
Proof. by intros l l'. Qed.

Lemma stateless_panic {A : Type} : stateless (panic (A := A)).
Proof. by intros l l'. Qed.

Lemma stateless_bind {A B : Type} (m : Gen A) (k : A -> Gen B) :
  stateless m -> (forall a, stateless (k a)) -> stateless (m ≫= k).
Proof.
  intros Hm Hk l l'. specialize (Hm l l'). unfold mbind, Gen_bind.
  destruct (m l) as [[a l1]|], (m l') as [[a' l1']|]; simpl in Hm; try done.
  injection Hm as <-. apply Hk.
Qed.

Lemma stateless_forM {A B : Type} (f : A -> Gen B) (xs : list A) :
  Forall (fun x => stateless (f x)) xs -> stateless (forM f xs).
Proof.
  induction 1 as [|x xs Hx Hxs IH]; simpl; [apply stateless_ret|].
  apply stateless_bind; [done|]. intros y.
  apply stateless_bind; [done|]. intros ys. apply stateless_ret.
Qed.

(** What [forM] produces when every step is stateless: the results of
    the steps, if each has one. *)
Lemma forM_code {A B : Type} (f : A -> Gen B) (xs : list A) (l : importsList) :
  (forall x, stateless (f x)) ->
  fst <$> forM f xs l = mapM (fun x => fst <$> f x imports) xs.
Proof.
  intros Hf. revert l; induction xs as [|x xs IH]; intros l; simpl; [done|].
  unfold mbind at 1, Gen_bind. specialize (Hf x l imports).
  destruct (f x l) as [[y l1]|], (f x imports) as [[y' l1']|];
    simpl in Hf; try done.
  injection Hf as <-. simpl. specialize (IH l1).
  unfold mbind at 1, Gen_bind.
  destruct (forM f xs l1) as [[ys l2]|]; simpl in *; by rewrite <- IH.
Qed.

End GenFacts.

Section SerializerFacts.
Context {U : Unicode} {R : Reflection}.
Import jen.

Lemma imports_Qual_run (pkg name : string) (l : importsList) :
  exists l', imports_Qual pkg name l = Some (Stmt [Qual pkg name], l').
Proof.
  unfold imports_Qual, mbind, Gen_bind.
  destruct (NeedImport_total pkg l) as [[alias l'] ->]. by eexists.
Qed.

Lemma stateless_imports_Qual (pkg name : string) : stateless (imports_Qual pkg name).
Proof.
  intros l l'.
  destruct (imports_Qual_run pkg name l) as [? ->].
  by destruct (imports_Qual_run pkg name l') as [? ->].
Qed.

Lemma generateType_total (t : rtype) (l : importsList) :
  is_Some (generateType t l).
Proof.
  revert l; induction t as [k p n|e IH|e IH|len e IH|k IHk e IHe|e IH| |p n];
    intros l; simpl; unfold mbind, Gen_bind.
  - destruct (IsCustomType _); [|by eexists].
    destruct (imports_Qual_run p n l) as [? ->]. by eexists.
  - destruct (IH l) as [[? ?] ->]. by eexists.
  - destruct (IH l) as [[? ?] ->]. by eexists.
  - destruct (IH l) as [[? ?] ->]. by eexists.
  - destruct (IHk l) as [[? l1] ->]. destruct (IHe l1) as [[? ?] ->]. by eexists.
  - destruct (IH l) as [[? ?] ->]. by eexists.
  - by eexists.
  - destruct (imports_Qual_run p n l) as [? ->]. by eexists.
Qed.

Lemma stateless_generateType (t : rtype) : stateless (generateType t).
Proof.
  induction t as [k p n|e IH|e IH|len e IH|k IHk e IHe|e IH| |p n]; simpl;
    repeat (first [ apply stateless_ret | apply stateless_imports_Qual
                  | apply stateless_bind; [done|intros ?] ]).
  - destruct (IsCustomType _); [apply stateless_imports_Qual | apply stateless_ret].
Qed.

Lemma stateless_generateLiteralValue (v : value) : stateless (generateLiteralValue v).
Proof.
  unfold generateLiteralValue.
  destruct (negb _); [apply stateless_ret|].
  destruct (IsCustomType _); [|apply stateless_ret].
  apply stateless_bind; [apply stateless_imports_Qual|]. intros ?. apply stateless_ret.
Qed.

Lemma stateless_generatePtrLiteralValue (v : value) :
  stateless (generatePtrLiteralValue v).
Proof.
  unfold generatePtrLiteralValue.
  destruct (negb _); [apply stateless_ret|].
  apply stateless_bind; [apply stateless_imports_Qual|]. intros ?.
  destruct (IsCustomType _); apply stateless_ret.
Qed.

Lemma stateless_generateStructWithUnexportedField (v : value) (ptrResult : bool) :
  stateless (generateStructWithUnexportedField v ptrResult).
Proof.
  destruct v; try apply stateless_ret. simpl.
  apply stateless_bind; [apply stateless_imports_Qual|]. intros ?.
  destruct (implementsJSON _); apply stateless_ret.
Qed.

Section Open.
Variable gv : value -> bool -> Gen Code.

Lemma stateless_sliceElements (vs : list value) :
  Forall (fun v => forall o, stateless (gv v o)) vs ->
  stateless (sliceElements gv vs).
Proof.
  induction 1 as [|x vs Hx Hvs IH]; simpl; [apply stateless_ret|].
  apply stateless_bind; [done|]. intros ?.
  apply stateless_bind; [done|]. intros ?. apply stateless_ret.
Qed.

Lemma stateless_mapEntries (kvs : list (value * value)) :
  Forall (fun v => forall o, stateless (gv v o))
         (flat_map (fun '(kv, vv) => [kv; vv]) kvs) ->
  stateless (mapEntries gv kvs).
Proof.
  induction kvs as [|[kv vv] kvs IH]; simpl; intros Hall; [apply stateless_ret|].
  inversion Hall as [|? ? Hk Hrest]; subst.
  inversion Hrest as [|? ? Hv Hrest']; subst.
  apply stateless_bind; [done|]. intros ?.
  apply stateless_bind; [done|]. intros ?.
  apply stateless_bind; [auto|]. intros ?. apply stateless_ret.
Qed.

Lemma stateless_structFields (fields : list StructField) (vs : list value) :
  Forall (fun v => forall o, stateless (gv v o)) vs ->
  stateless (structFields gv fields vs).
Proof.
  intros Hall. revert fields; induction Hall as [|x vs Hx Hvs IH];
    intros [|field fields]; simpl; try apply stateless_ret; try apply stateless_panic.
  destruct (_ || _); [apply IH|].
  destruct (negb _); [|apply IH].
  apply stateless_bind; [done|]. intros ?.
  apply stateless_bind; [apply IH|]. intros ?. apply stateless_ret.
Qed.

Lemma stateless_generateStructValue_with (v : value) (ptrResult omitType : bool) :
  Forall (fun v => forall o, stateless (gv v o)) (children v) ->
  stateless (generateStructValue_with gv v ptrResult omitType).
Proof.
  destruct v; try (intros; apply stateless_ret).
  unfold generateStructValue_with. cbn [children]. intros Hall.
  apply stateless_bind.
  { destruct (HasUnexportedField _);
      [apply stateless_generateStructWithUnexportedField | apply stateless_ret]. }
  intros j.
  assert (stateless
    (ts ← (if IsAnonymousStruct (TStruct (struct_PkgPath t) (struct_Name t))
           then g ← forM (fun field =>
                            ft ← generateType (field_Type field);
                            mret (Add (Stmt [Id (field_Name field)]) ft))
                         (struct_Fields t);
                mret (Stmt [Group GStruct g])
           else imports_Qual (struct_PkgPath t) (struct_Name t));
     d ← structFields gv (struct_Fields t) fields;
     mret (Values (if omitType then Stmt []
                   else if ptrResult then Add (Stmt [Op "&"]) ts else ts)
                  [Dict d]))) as Hnormal.
  { apply stateless_bind.
    - destruct (IsAnonymousStruct _); [|apply stateless_imports_Qual].
      apply stateless_bind; [|intros ?; apply stateless_ret].
      apply stateless_forM, Forall_forall. intros field _.
      apply stateless_bind; [apply stateless_generateType|].
      intros ?. apply stateless_ret.
    - intros ?. apply stateless_bind; [by apply stateless_structFields|].
      intros ?. apply stateless_ret. }
  destruct j; try apply stateless_ret. exact Hnormal.
Qed.

Lemma stateless_generatePtrValue_with (te : rtype) (a : Z) (pointee : value)
    (omitType : bool) :
  (forall o, stateless (gv pointee o)) ->
  (forall o, stateless (generateStructValue_with gv pointee true o)) ->
  stateless (generatePtrValue_with gv (VPtr te (Some (a, pointee))) omitType).
Proof.
  intros Hpointee Hstruct. unfold generatePtrValue_with.
  destruct (IsLiteralType te); [apply stateless_generatePtrLiteralValue|].
  assert (stateless (_ ← (if omitType then gv pointee true else mret Nil);
                     e ← gv pointee false;
                     mret (Add (Stmt [Op "&"]) e))) as Hother.
  { apply stateless_bind; [destruct omitType; [done | apply stateless_ret]|].
    intros ?. apply stateless_bind; [done|]. intros ?. apply stateless_ret. }
  destruct (Kind_of te); try exact Hother. apply Hstruct.
Qed.

End Open.

(** [generateValue], unfolded once: the body of the Go function. *)
Lemma generateValue_eq (v : value) (omitType : bool) :
  generateValue v omitType
  = if IsLiteralType (Type_of v) then generateLiteralValue v
    else
      ts ← generateType (Type_of v);
      let ts := if omitType then Stmt [] else ts in
      match v with
      | VPtr _ _ => generatePtrValue v omitType
      | VSlice _ None => mret (Values ts [])
      | VSlice _ (Some vs) | VArray _ vs =>
          j ← sliceElements generateValue vs;
          mret (Values ts (if 0 <? Z.of_nat (List.length vs)
                           then j ++ [Stmt [Line]] else j))
      | VMap _ _ None => mret (Values ts [Dict []])
      | VMap _ _ (Some kvs) =>
          d ← mapEntries generateValue kvs; mret (Values ts [Dict d])
      | VStruct _ _ => generateStructValue v false omitType
      | _ => mret Nil
      end.
Proof. destruct v; reflexivity. Qed.

(** What the serializer writes for a value does not depend on the
    registry: the aliases the registry assigns are not part of the code
    (a [Qual] carries the path). *)
Lemma stateless_generateValue (v : value) :
  (forall o, stateless (generateValue v o))
  /\ (forall ptrResult o, stateless (generateStructValue v ptrResult o)).
Proof.
  induction v as [v IH] using value_children_ind.
  assert (Forall (fun v => forall o, stateless (generateValue v o)) (children v))
    as Hchildren.
  { eapply Forall_impl; [exact IH|]. by intros x [? _]. }
  split.
  2: { intros ptrResult o. by apply stateless_generateStructValue_with. }
  intros o. rewrite generateValue_eq.
  destruct (IsLiteralType (Type_of v)); [apply stateless_generateLiteralValue|].
  apply stateless_bind; [apply stateless_generateType|]. intros ts.
  destruct v as [| | | | | |te [[a pointee]|]|e [vs|]|e vs|k e [kvs|]| | |t vs];
    cbn [children] in *; try apply stateless_ret.
  - inversion IH as [|? ? [Hpointee Hstruct] _]; subst.
    apply stateless_generatePtrValue_with; [done|]. intros o'. apply Hstruct.
  - apply stateless_panic.
  - apply stateless_bind; [by apply stateless_sliceElements|].
    intros ?. apply stateless_ret.
  - apply stateless_bind; [by apply stateless_sliceElements|].
    intros ?. apply stateless_ret.
  - apply stateless_bind; [by apply stateless_mapEntries|].
    intros ?. apply stateless_ret.
  - by apply stateless_generateStructValue_with.
Qed.

(** The fallback, when it applies, is what [generateStructValue] returns:
    the function literal, called on the spot, that decodes the JSON text
    of the value. *)
Lemma generateStructValue_json (t : StructType) (vs : list value)
    (ptrResult omitType : bool) (l : importsList) :
  HasUnexportedField t = true -> implementsJSON t = true ->
  fst <$> generateStructValue (VStruct t vs) ptrResult omitType l
  = Some
      (Stmt
         ([Keyword "func"; Group GParams []]
          ++ (if ptrResult then [Op "*"] else [])
          ++ [ Stmt [Qual (struct_PkgPath t) (struct_Name t)];
               Group GBlock
                 [ Stmt [ Id "jsonStr"; Op ":=";
                          Lit (LString (json_Marshal (VStruct t vs))) ];
                   Stmt [ Keyword "var"; Id "obj";
                          Stmt [Qual (struct_PkgPath t) (struct_Name t)] ];
                   Stmt [ Qual "encoding/json" "Unmarshal";
                          Group GCall
                            [ Stmt [ Group GIndex []; Byte;
                                     Group GParens [Stmt [Id "jsonStr"]] ];
                              Stmt [Op "&"; Id "obj"] ] ];
                   Stmt [ Group GReturn
                            [ if ptrResult then Stmt [Op "&"; Id "obj"]
                              else Stmt [Id "obj"] ] ] ];
               Group GCall [] ])).
Proof.
  intros Hprivate Hjson.
  unfold generateStructValue, generateStructValue_with. rewrite Hprivate.
  unfold generateStructWithUnexportedField. rewrite Hjson.
  unfold mbind, Gen_bind.
  destruct (imports_Qual_run (struct_PkgPath t) (struct_Name t) l) as [l1 ->].
  by destruct ptrResult.
Qed.

(** C3.  A struct value whose type has a private field and is, itself or
    through its pointer type, both a [json.Marshaler] and a
    [json.Unmarshaler] is not serialized field by field: its JSON text,
    computed when the code is generated, is embedded as a string literal
    in a function literal that is called on the spot, declares a variable
    [obj] of the struct type, decodes the text into it and returns [obj]
    where a value is needed, [&obj] where a pointer is.  This holds of
    [generateStructValue] and of [generateValue] on the value and on a
    pointer to it, whatever the fields hold, with or without the type
    prefix, on every registry. *)
Theorem generateValue_json_fallback (t : StructType) (vs : list value)
    (addr : Z) (omitType : bool) (l : importsList) :
  HasUnexportedField t = true ->
  T_Marshaler t || PtrT_Marshaler t = true ->
  T_Unmarshaler t || PtrT_Unmarshaler t = true ->
  IsLiteralType (TStruct (struct_PkgPath t) (struct_Name t)) = false ->
  IsLiteralType (TPtr (TStruct (struct_PkgPath t) (struct_Name t))) = false ->
  let T := Stmt [Qual (struct_PkgPath t) (struct_Name t)] in
  let body (result : Code) :=
    Group GBlock
      [ Stmt [Id "jsonStr"; Op ":="; Lit (LString (json_Marshal (VStruct t vs)))];
        Stmt [Keyword "var"; Id "obj"; T];
        Stmt [ Qual "encoding/json" "Unmarshal";
               Group GCall
                 [ Stmt [Group GIndex []; Byte; Group GParens [Stmt [Id "jsonStr"]]];
                   Stmt [Op "&"; Id "obj"] ] ];
        Stmt [Group GReturn [result]] ] in
  let by_value :=
    Stmt [Keyword "func"; Group GParams []; T; body (Stmt [Id "obj"]); Group GCall []] in
  let by_pointer :=
    Stmt [ Keyword "func"; Group GParams []; Op "*"; T;
           body (Stmt [Op "&"; Id "obj"]); Group GCall [] ] in
  (forall ptrResult,
     fst <$> generateStructValue (VStruct t vs) ptrResult omitType l
     = Some (if ptrResult then by_pointer else by_value))
  /\ fst <$> generateValue (VStruct t vs) omitType l = Some by_value
  /\ fst <$> generateValue
               (VPtr (TStruct (struct_PkgPath t) (struct_Name t))
                     (Some (addr, VStruct t vs))) omitType l
     = Some by_pointer.
Proof.
  intros Hprivate Hmarshal Hunmarshal Hstruct Hptr T body by_value by_pointer.
  assert (implementsJSON t = true) as Hjson.
  { unfold implementsJSON. by rewrite Hmarshal, Hunmarshal. }
  split; [|split].
  - intros ptrResult. rewrite generateStructValue_json by done. by destruct ptrResult.
  - rewrite generateValue_eq. cbn [Type_of]. rewrite Hstruct.
    unfold mbind at 1, Gen_bind.
    destruct (generateType_total (TStruct (struct_PkgPath t) (struct_Name t)) l)
      as [[ts l1] ->].
    cbv zeta. by rewrite generateStructValue_json.
  - rewrite generateValue_eq. cbn [Type_of]. rewrite Hptr.
    unfold mbind at 1, Gen_bind.
    destruct (generateType_total (TPtr (TStruct (struct_PkgPath t) (struct_Name t))) l)
      as [[ts l1] ->].
    cbv zeta. unfold generatePtrValue, generatePtrValue_with.
    rewrite Hstruct. cbn [Kind_of].
    change (generateStructValue_with generateValue)
      with generateStructValue.
    by rewrite generateStructValue_json.
Qed.

(** C9.  A pointer that is not nil and points to a scalar is serialized
    as a call of the function of [golib/pointer] named after the
    capitalized kind, on the literal of the value pointed to; the call is
    converted to the pointer type when the scalar type is a custom type.
    The address the pointer holds is not part of the result. *)
Theorem generateValue_pointer_to_scalar (te : rtype) (addr : Z) (pointee : value)
    (omitType : bool) (l : importsList) :
  IsLiteralType (TPtr te) = false ->
  IsLiteralType te = true ->
  Type_of pointee = te ->
  let helper :=
    Stmt [ Qual "github.com/zoumo/golib/pointer"
                (Capitalize (Kind_String (Kind_of te)));
           Group GCall [generateBuiltinLiteralValue pointee] ] in
  fst <$> generateValue (VPtr te (Some (addr, pointee))) omitType l
  = Some (if IsCustomType te
          then Stmt [ Group GParens [Stmt [Op "*"; Qual (PkgPath te) (Name te)]];
                      Group GParens [helper] ]
          else helper).
Proof.
  intros Hptr Hscalar Htype helper.
  rewrite generateValue_eq. cbn [Type_of]. rewrite Hptr.
  unfold mbind at 1, Gen_bind.
  destruct (generateType_total (TPtr te) l) as [[ts l1] ->].
  cbv zeta. unfold generatePtrValue, generatePtrValue_with. rewrite Hscalar.
  unfold generatePtrLiteralValue. rewrite Htype, Hscalar. cbn [negb].
  unfold mbind, Gen_bind.
  destruct (imports_Qual_run "github.com/zoumo/golib/pointer"
              (Capitalize (Kind_String (Kind_of te))) l1) as [l2 ->].
  by destruct (IsCustomType te).
Qed.

(** The field loop writes one entry for each of the [emittedFields], in
    order: the name of the field and what [generateValue] makes of its
    value.  It panics only if the serialization of one of them does. *)
Lemma structFields_emitted (fields : list StructField) :
  forall (vs : list value) (l : importsList),
    (List.length fields <= List.length vs)%nat ->
    match structFields generateValue fields vs l with
    | Some (d, _) =>
        Forall2 (fun e kc =>
                   kc.1 = Stmt [Id (field_Name e.1)]
                   /\ exists li, fst <$> generateValue e.2 false li = Some kc.2)
                (emittedFields fields vs) d
    | None =>
        exists e li, e ∈ emittedFields fields vs /\ generateValue e.2 false li = None
    end.
Proof.
  induction fields as [|field fields IH]; intros [|fv vs] l Hlen;
    simpl in Hlen; try lia.
  - constructor.
  - constructor.
  - cbn [structFields]. unfold emittedFields. cbn [zip zip_with].
    rewrite filter_cons. cbn [fst snd].
    specialize (IH vs). unfold emittedFields in IH.
    case_decide as Hwritten.
    + unfold written in Hwritten.
      apply andb_true_iff in Hwritten as [Hwritten Hzero].
      apply andb_true_iff in Hwritten as [Hexported Hnamed].
      apply negb_true_iff in Hzero, Hexported, Hnamed.
      rewrite Hexported, Hnamed, Hzero. cbn [orb negb].
      unfold mbind, Gen_bind.
      destruct (generateValue fv false l) as [[c l1]|] eqn:Hfv.
      * specialize (IH l1 ltac:(lia)).
        destruct (structFields generateValue fields vs l1) as [[d l2]|].
        -- constructor; [|done]. simpl. split; [done|]. exists l. by rewrite Hfv.
        -- destruct IH as (e & li & He & Hpanic). exists e, li. split; [|done].
           by apply list_elem_of_further.
      * exists (field, fv), l. split; [apply list_elem_of_here | done].
    + unfold written in Hwritten.
      destruct (IsUnexportedField field); cbn [orb]; [apply IH; lia|].
      destruct (IsAnonymousStruct (field_Type field)); cbn [orb]; [apply IH; lia|].
      destruct (IsZero fv); cbn [negb]; [apply IH; lia|].
      by destruct Hwritten.
Qed.

(** The type expression of an anonymous struct: one item for each field,
    its name followed by its type. *)
Lemma structType_run (fields : list StructField) (l : importsList) :
  exists g l',
    forM (fun field =>
            ft ← generateType (field_Type field);
            mret (Add (Stmt [Id (field_Name field)]) ft)) fields l
    = Some (g, l')
    /\ Forall2 (fun field c =>
                  exists ft li,
                    fst <$> generateType (field_Type field) li = Some ft
                    /\ c = Stmt [Id (field_Name field); ft])
               fields g.
Proof.
  revert l; induction fields as [|field fields IH]; intros l; cbn [forM].
  - exists [], l. split; [done | constructor].
  - destruct (generateType_total (field_Type field) l) as [[ft l1] Hft].
    destruct (IH l1) as (g & l2 & Hg & Hall).
    exists (Stmt [Id (field_Name field); ft] :: g), l2. split.
    + erewrite bind_Some; [|erewrite bind_Some; [|exact Hft]; reflexivity].
      erewrite bind_Some; [|exact Hg]. done.
    + constructor; [|done]. exists ft, l. by rewrite Hft.
Qed.

(** [generateStructValue] off the fallback path: the type prefix the
    context asks for, then the literal with the entries of the field
    loop. *)
Lemma generateStructValue_normal (t : StructType) (vs : list value)
    (ptrResult omitType : bool) (l : importsList) :
  HasUnexportedField t && implementsJSON t = false ->
  (List.length (struct_Fields t) <= List.length vs)%nat ->
  match generateStructValue (VStruct t vs) ptrResult omitType l with
  | Some (code, _) =>
      exists ts d,
        code = Values (if omitType then Stmt []
                       else if ptrResult then Stmt [Op "&"; ts] else ts)
                      [Dict d]
        /\ (if IsAnonymousStruct (TStruct (struct_PkgPath t) (struct_Name t))
            then exists g,
                ts = Stmt [Group GStruct g]
                /\ Forall2 (fun field c =>
                              exists ft li,
                                fst <$> generateType (field_Type field) li = Some ft
                                /\ c = Stmt [Id (field_Name field); ft])
                           (struct_Fields t) g
            else ts = Stmt [Qual (struct_PkgPath t) (struct_Name t)])
        /\ Forall2 (fun e kc =>
                      kc.1 = Stmt [Id (field_Name e.1)]
                      /\ exists li, fst <$> generateValue e.2 false li = Some kc.2)
                   (emittedFields (struct_Fields t) vs) d
  | None =>
      exists e li,
        e ∈ emittedFields (struct_Fields t) vs /\ generateValue e.2 false li = None
  end.
Proof.
  intros Hnormal Hlen. unfold generateStructValue, generateStructValue_with.
  assert (exists l1,
            (if HasUnexportedField t
             then generateStructWithUnexportedField (VStruct t vs) ptrResult
             else mret Nil) l = Some (Nil, l1)) as [l1 Hj].
  { destruct (HasUnexportedField t); [|by eexists].
    simpl in Hnormal. unfold generateStructWithUnexportedField.
    rewrite Hnormal.
    destruct (imports_Qual_run (struct_PkgPath t) (struct_Name t) l) as [l1 Hq].
    exists l1. by erewrite bind_Some by exact Hq. }
  erewrite bind_Some by exact Hj. cbn [Type_of].
  destruct (IsAnonymousStruct (TStruct (struct_PkgPath t) (struct_Name t))).
  - destruct (structType_run (struct_Fields t) l1) as (g & l2 & Hg & Hall).
    erewrite bind_Some; [|erewrite bind_Some by exact Hg; reflexivity].
    pose proof (structFields_emitted (struct_Fields t) vs l2 Hlen) as Hd.
    destruct (structFields generateValue (struct_Fields t) vs l2) as [[d l3]|]
      eqn:Hfields.
    + erewrite bind_Some by exact Hfields.
      exists (Stmt [Group GStruct g]), d.
      split; [by destruct omitType, ptrResult|]. split; [eauto | done].
    + by erewrite bind_None by exact Hfields.
  - destruct (imports_Qual_run (struct_PkgPath t) (struct_Name t) l1) as [l2 Hq].
    erewrite bind_Some by exact Hq.
    pose proof (structFields_emitted (struct_Fields t) vs l2 Hlen) as Hd.
    destruct (structFields generateValue (struct_Fields t) vs l2) as [[d l3]|]
      eqn:Hfields.
    + erewrite bind_Some by exact Hfields.
      exists (Stmt [Qual (struct_PkgPath t) (struct_Name t)]), d.
      split; [by destruct omitType, ptrResult|]. done.
    + by erewrite bind_None by exact Hfields.
Qed.

(** With distinct field names, an emitted field is found by its name. *)
Lemma emittedFields_by_name (fields : list StructField) (vs : list value)
    (i : nat) (field : StructField) (fv : value) (e : StructField * value) :
  NoDup (field_Name <$> fields) ->
  fields !! i = Some field -> vs !! i = Some fv ->
  e ∈ emittedFields fields vs -> field_Name e.1 = field_Name field ->
  e = (field, fv) /\ written field fv = true.
Proof.
  intros Hnames Hfield Hfv He Hname.
  unfold emittedFields in He. apply list_elem_of_filter in He as [Hwritten He].
  apply list_elem_of_lookup in He as [i' Hi'].
  apply lookup_zip_with_Some in Hi' as (field' & fv' & -> & Hfield' & Hfv').
  simpl in *.
  assert (i' = i) as ->.
  { eapply NoDup_lookup; [exact Hnames| |];
      rewrite list_lookup_fmap; [by rewrite Hfield' | by rewrite Hfield, Hname]. }
  assert (field' = field) as -> by congruence.
  assert (fv' = fv) as -> by congruence. done.
Qed.

Lemma emittedFields_NoDup (fields : list StructField) (vs : list value) :
  NoDup (field_Name <$> fields) ->
  (List.length fields <= List.length vs)%nat ->
  NoDup (emittedFields fields vs).
Proof.
  intros Hnames Hlen. unfold emittedFields. apply NoDup_filter.
  apply (NoDup_fmap_1 fst). rewrite fst_zip by done.
  by apply (NoDup_fmap_1 field_Name).
Qed.

(** C2.  Off the fallback path, the literal [generateStructValue] makes
    of a struct value has, for each field that is exported, not of an
    anonymous struct type and not zero, exactly one entry under the name
    of the field, holding what [generateValue] makes of the value of the
    field; and it has no entry under the name of any other field, a field
    whose value is zero in particular.  The serializer panics only where
    the serialization of a field it writes panics. *)
Theorem generateStructValue_fields (t : StructType) (vs : list value)
    (ptrResult omitType : bool) (l : importsList) :
  HasUnexportedField t && implementsJSON t = false ->
  List.length (struct_Fields t) = List.length vs ->
  NoDup (field_Name <$> struct_Fields t) ->
  (forall field fv,
     written field fv = true
     <-> IsUnexportedField field = false
         /\ IsAnonymousStruct (field_Type field) = false
         /\ IsZero fv = false)
  /\ match generateStructValue (VStruct t vs) ptrResult omitType l with
     | Some (code, _) =>
         exists ts d,
           code = Values ts [Dict d]
           /\ forall i field fv,
               struct_Fields t !! i = Some field -> vs !! i = Some fv ->
               if written field fv
               then exists j c,
                   d !! j = Some (Stmt [Id (field_Name field)], c)
                   /\ (exists li, fst <$> generateValue fv false li = Some c)
                   /\ forall j' c',
                       d !! j' = Some (Stmt [Id (field_Name field)], c') -> j' = j
               else forall j c, d !! j <> Some (Stmt [Id (field_Name field)], c)
     | None =>
         exists i field fv li,
           struct_Fields t !! i = Some field /\ vs !! i = Some fv
           /\ written field fv = true /\ generateValue fv false li = None
     end.
Proof.
  intros Hnormal Hlen Hnames. split.
  { intros field fv. unfold written.
    rewrite !andb_true_iff, !negb_true_iff. tauto. }
  pose proof (generateStructValue_normal t vs ptrResult omitType l Hnormal
                ltac:(lia)) as Hrun.
  pose proof (emittedFields_NoDup (struct_Fields t) vs Hnames ltac:(lia)) as Hnodup.
  destruct (generateStructValue (VStruct t vs) ptrResult omitType l)
    as [[code l']|].
  - destruct Hrun as (ts & d & -> & _ & Hd). eexists _, d. split; [done|].
    intros i field fv Hfield Hfv.
    destruct (written field fv) eqn:Hwritten.
    + assert ((field, fv) ∈ emittedFields (struct_Fields t) vs) as He.
      { apply list_elem_of_filter. split; [done|].
        apply list_elem_of_lookup. exists i. apply lookup_zip_with_Some. eauto. }
      apply list_elem_of_lookup in He as [j Hj].
      destruct (Forall2_lookup_l _ _ _ _ _ Hd Hj) as ([k c] & Hdj & Hk & Hc).
      simpl in *. subst k. exists j, c. split; [done|]. split; [done|].
      intros j' c' Hdj'.
      destruct (Forall2_lookup_r _ _ _ _ _ Hd Hdj') as (e' & Hj' & Hk' & _).
      simpl in Hk'. injection Hk' as Hname.
      destruct (emittedFields_by_name _ _ _ _ _ e' Hnames Hfield Hfv) as [-> _];
        [by eapply list_elem_of_lookup_2 | done |].
      eapply NoDup_lookup; eauto.
    + intros j c Hdj.
      destruct (Forall2_lookup_r _ _ _ _ _ Hd Hdj) as (e' & Hj' & Hk' & _).
      simpl in Hk'. injection Hk' as Hname.
      destruct (emittedFields_by_name _ _ _ _ _ e' Hnames Hfield Hfv) as [_ Habs];
        [by eapply list_elem_of_lookup_2 | done |].
      congruence.
  - destruct Hrun as ([field fv] & li & He & Hpanic).
    unfold emittedFields in He. apply list_elem_of_filter in He as [Hwritten He].
    apply list_elem_of_lookup in He as [i Hi].
    apply lookup_zip_with_Some in Hi as (field' & fv' & [= -> ->] & Hfield & Hfv).
    by exists i, field', fv', li.
Qed.

(** C6, amended.  Off the fallback path, a field whose type is an
    anonymous struct type has no entry in the literal
    [generateStructValue] makes of the struct that contains it.  The
    inline rendering is that of the type prefix of a value which is
    itself of an anonymous struct type: where the prefix is kept, it is
    the keyword [struct] with one item for each field, the name followed
    by the type, and not a qualified name. *)
Theorem generateStructValue_anonymous (t : StructType) (vs : list value)
    (ptrResult omitType : bool) (l : importsList) :
  HasUnexportedField t && implementsJSON t = false ->
  List.length (struct_Fields t) = List.length vs ->
  NoDup (field_Name <$> struct_Fields t) ->
  match generateStructValue (VStruct t vs) ptrResult omitType l with
  | Some (code, _) =>
      exists ts d,
        code = Values (if omitType then Stmt []
                       else if ptrResult then Stmt [Op "&"; ts] else ts)
                      [Dict d]
        /\ (forall i field,
              struct_Fields t !! i = Some field ->
              IsAnonymousStruct (field_Type field) = true ->
              forall j c, d !! j <> Some (Stmt [Id (field_Name field)], c))
        /\ (if IsAnonymousStruct (TStruct (struct_PkgPath t) (struct_Name t))
            then exists g,
                ts = Stmt [Group GStruct g]
                /\ Forall2 (fun field c =>
                              exists ft li,
                                fst <$> generateType (field_Type field) li = Some ft
                                /\ c = Stmt [Id (field_Name field); ft])
                           (struct_Fields t) g
            else ts = Stmt [Qual (struct_PkgPath t) (struct_Name t)])
  | None =>
      exists i field fv li,
        struct_Fields t !! i = Some field /\ vs !! i = Some fv
        /\ written field fv = true /\ generateValue fv false li = None
  end.
Proof.
  intros Hnormal Hlen Hnames.
  pose proof (generateStructValue_normal t vs ptrResult omitType l Hnormal
                ltac:(lia)) as Hrun.
  destruct (generateStructValue (VStruct t vs) ptrResult omitType l)
    as [[code l']|].
  - destruct Hrun as (ts & d & -> & Hts & Hd). exists ts, d.
    split; [done|]. split; [|done].
    intros i field Hfield Hanonymous j c Hdj.
    destruct (lookup_lt_is_Some_2 vs i) as [fv Hfv].
    { rewrite <- Hlen. eapply lookup_lt_Some, Hfield. }
    destruct (Forall2_lookup_r _ _ _ _ _ Hd Hdj) as (e' & Hj' & Hk' & _).
    simpl in Hk'. injection Hk' as Hname.
    destruct (emittedFields_by_name _ _ _ _ _ e' Hnames Hfield Hfv) as [_ Habs];
      [by eapply list_elem_of_lookup_2 | done |].
    unfold written in Habs. rewrite Hanonymous in Habs.
    by rewrite andb_false_r in Habs.
  - destruct Hrun as ([field fv] & li & He & Hpanic).
    unfold emittedFields in He. apply list_elem_of_filter in He as [Hwritten He].
    apply list_elem_of_lookup in He as [i Hi].
    apply lookup_zip_with_Some in Hi as (field' & fv' & [= -> ->] & Hfield & Hfv).
    by exists i, field', fv', li.
Qed.

End SerializerFacts.

(** A [time.Time], by value. *)
Lemma generateValue_json_fallback_witness :
  HasUnexportedField (Reflection := Sample.golib) Sample.Time = true
  /\ T_Marshaler Sample.Time || PtrT_Marshaler Sample.Time = true
  /\ T_Unmarshaler Sample.Time || PtrT_Unmarshaler Sample.Time = true
  /\ IsLiteralType (Reflection := Sample.golib) (TStruct "time" "Time") = false
  /\ IsLiteralType (Reflection := Sample.golib) (TPtr (TStruct "time" "Time")) = false
  /\ fst <$> generateValue (R := Sample.golib) Sample.a_time false imports
     = Some
         (jen.Stmt
            [ jen.Keyword "func"; jen.Group jen.GParams [];
              jen.Stmt [jen.Qual "time" "Time"];
              jen.Group jen.GBlock
                [ jen.Stmt [ jen.Id "jsonStr"; jen.Op ":=";
                             jen.Lit (jen.LString (Sample.quoted "2020-09-01T08:33:33Z")) ];
                  jen.Stmt [ jen.Keyword "var"; jen.Id "obj";
                             jen.Stmt [jen.Qual "time" "Time"] ];
                  jen.Stmt [ jen.Qual "encoding/json" "Unmarshal";
                             jen.Group jen.GCall
                               [ jen.Stmt [ jen.Group jen.GIndex []; jen.Byte;
                                            jen.Group jen.GParens
                                              [jen.Stmt [jen.Id "jsonStr"]] ];
                                 jen.Stmt [jen.Op "&"; jen.Id "obj"] ] ];
                  jen.Stmt [jen.Group jen.GReturn [jen.Stmt [jen.Id "obj"]]] ];
              jen.Group jen.GCall [] ]).
Proof.
  repeat (split; [reflexivity|]).
  exact (proj1 (proj2 (generateValue_json_fallback (R := Sample.golib)
                         Sample.Time _ 0 false imports
                         eq_refl eq_refl eq_refl eq_refl eq_refl))).
Defined.

(** A pointer to [time.Duration(5)]. *)
Lemma generateValue_pointer_to_scalar_witness :
  IsLiteralType (Reflection := Sample.golib) (TPtr Sample.duration_t) = false
  /\ IsLiteralType (Reflection := Sample.golib) Sample.duration_t = true
  /\ Type_of Sample.five = Sample.duration_t
  /\ fst <$> generateValue (R := Sample.golib)
               (VPtr Sample.duration_t (Some (824634024304, Sample.five)))
               false imports
     = Some
         (jen.Stmt
            [ jen.Group jen.GParens
                [jen.Stmt [jen.Op "*"; jen.Qual "time" "Duration"]];
              jen.Group jen.GParens
                [ jen.Stmt
                    [ jen.Qual "github.com/zoumo/golib/pointer" "Int64";
                      jen.Group jen.GCall
                        [jen.Stmt [jen.Lit (jen.LInt Int64 5)]] ] ] ]).
Proof.
  repeat (split; [reflexivity|]).
  exact (generateValue_pointer_to_scalar (R := Sample.golib)
           Sample.duration_t 824634024304 Sample.five false imports
           eq_refl eq_refl eq_refl).
Defined.

(** The struct value [Sample.t_web]: the field [Name] is written, the
    zero field [Replicas], the field [X] and the private field are not. *)
Lemma generateStructValue_fields_witness :
  let vs := [ VString "" "string" "web"; VInt Int32 "" "int32" 0;
              VStruct Sample.anonymous_T [VInt Int "" "int" 1];
              VBool "" "bool" true ] in
  HasUnexportedField (Reflection := Sample.golib) Sample.T
  && implementsJSON Sample.T = false
  /\ List.length (struct_Fields Sample.T) = List.length vs
  /\ NoDup (field_Name <$> struct_Fields Sample.T)
  /\ ((forall field fv,
         written (R := Sample.golib) field fv = true
         <-> IsUnexportedField (Reflection := Sample.golib) field = false
             /\ IsAnonymousStruct (Reflection := Sample.golib) (field_Type field) = false
             /\ IsZero fv = false)
      /\ match generateStructValue (R := Sample.golib) (VStruct Sample.T vs)
                                   false false imports with
         | Some (code, _) =>
             exists ts d,
               code = jen.Values ts [jen.Dict d]
               /\ forall i field fv,
                   struct_Fields Sample.T !! i = Some field -> vs !! i = Some fv ->
                   if written (R := Sample.golib) field fv
                   then exists j c,
                       d !! j = Some (jen.Stmt [jen.Id (field_Name field)], c)
                       /\ (exists li,
                             fst <$> generateValue (R := Sample.golib) fv false li
                             = Some c)
                       /\ forall j' c',
                           d !! j' = Some (jen.Stmt [jen.Id (field_Name field)], c') ->
                           j' = j
                   else forall j c,
                       d !! j <> Some (jen.Stmt [jen.Id (field_Name field)], c)
         | None =>
             exists i field fv li,
               struct_Fields Sample.T !! i = Some field /\ vs !! i = Some fv
               /\ written (R := Sample.golib) field fv = true
               /\ generateValue (R := Sample.golib) fv false li = None
         end).
Proof.
  assert (NoDup (field_Name <$> struct_Fields Sample.T)) as Hnames
    by (apply (bool_decide_unpack _); vm_compute; exact I).
  exact (conj eq_refl (conj eq_refl (conj Hnames
    (generateStructValue_fields (R := Sample.golib) Sample.T
       (children Sample.t_web) false false imports eq_refl eq_refl Hnames)))).
Defined.

(** The field [X] of [Sample.t_web] is of an anonymous struct type and
    holds [{A: 1}]: the literal has the field [Name] and nothing of [X].
    This is what C6 denies as it is stated. *)
Lemma generateValue_anonymous_field_dropped :
  fst <$> generateValue (R := Sample.golib) Sample.t_web false imports
  = Some (jen.Stmt
            [ jen.Qual "example.com/api/v1" "T";
              jen.Group jen.GValues
                [ jen.Dict [ (jen.Stmt [jen.Id "Name"],
                              jen.Stmt [jen.Lit (jen.LString "web")]) ] ] ])
  /\ struct_Fields Sample.T !! 2%nat = Some (Sample.exported "X" Sample.anonymous_t)
  /\ IsAnonymousStruct (Reflection := Sample.golib) Sample.anonymous_t = true
  /\ children Sample.t_web !! 2%nat
     = Some (VStruct Sample.anonymous_T [VInt Int "" "int" 1])
  /\ IsZero (VStruct Sample.anonymous_T [VInt Int "" "int" 1]) = false.
Proof. repeat split. Qed.

(** The struct value [Sample.t_web] again: nothing is written for [X]. *)
Lemma generateStructValue_anonymous_witness :
  let vs := [ VString "" "string" "web"; VInt Int32 "" "int32" 0;
              VStruct Sample.anonymous_T [VInt Int "" "int" 1];
              VBool "" "bool" true ] in
  HasUnexportedField (Reflection := Sample.golib) Sample.T
  && implementsJSON Sample.T = false
  /\ List.length (struct_Fields Sample.T) = List.length vs
  /\ NoDup (field_Name <$> struct_Fields Sample.T)
  /\ match generateStructValue (R := Sample.golib) (VStruct Sample.T vs)
                               false false imports with
     | Some (code, _) =>
         exists ts d,
           code = jen.Values ts [jen.Dict d]
           /\ (forall i field,
                 struct_Fields Sample.T !! i = Some field ->
                 IsAnonymousStruct (Reflection := Sample.golib) (field_Type field)
                 = true ->
                 forall j c,
                   d !! j <> Some (jen.Stmt [jen.Id (field_Name field)], c))
           /\ ts = jen.Stmt [jen.Qual "example.com/api/v1" "T"]
     | None =>
         exists i field fv li,
           struct_Fields Sample.T !! i = Some field /\ vs !! i = Some fv
           /\ written (R := Sample.golib) field fv = true
           /\ generateValue (R := Sample.golib) fv false li = None
     end.
Proof.
  assert (NoDup (field_Name <$> struct_Fields Sample.T)) as Hnames
    by (apply (bool_decide_unpack _); vm_compute; exact I).
  exact (conj eq_refl (conj eq_refl (conj Hnames
    (generateStructValue_anonymous (R := Sample.golib) Sample.T
       (children Sample.t_web) false false imports eq_refl eq_refl Hnames)))).
Defined.

(** ** The generated file and the order of [range] *)

Section Determinism.
Context {U : Unicode} {R : Reflection}.
Import jen.

Lemma stateless_GenerateCrds_version (version : string) (objects : list value) :
  stateless (GenerateCrds_version version objects).
Proof.
  unfold GenerateCrds_version. apply stateless_bind.
  - apply stateless_forM, Forall_forall. intros v _.
    apply (stateless_generateValue v).
  - intros ?. apply stateless_ret.
Qed.

(** Reordering the steps of a loop whose steps are independent reorders
    the results. *)
Lemma mapM_Permutation {A B : Type} (g : A -> option B) (xs xs' : list A) :
  Permutation xs xs' ->
  match mapM g xs, mapM g xs' with
  | Some ys, Some ys' => Permutation ys ys'
  | None, None => True
  | _, _ => False
  end.
Proof.
  induction 1 as [|x xs xs' _ IH|x y xs|xs1 xs2 xs3 _ IH12 _ IH23]; simpl.
  - done.
  - destruct (g x); simpl; [|done].
    destruct (mapM g xs), (mapM g xs'); simpl; try done. by constructor.
  - destruct (g x), (g y); simpl; try done.
    destruct (mapM g xs); simpl; [|done]. apply perm_swap.
  - destruct (mapM g xs1), (mapM g xs2), (mapM g xs3); try done.
    by etrans.
Qed.

(** The file [GenerateCrds] builds is made of the blocks of its
    entries, each block what [GenerateCrds_version] writes for its
    version whatever the registry. *)
Lemma GenerateCrds_blocks (cw : codeWriter) (crds : list (string * list value))
    (l : importsList) :
  fst <$> GenerateCrds cw crds l
  = (fun blocks =>
       {| file_package := packageName cw;
          file_headers := file_headers (setFileDefault cw);
          file_aliases := file_aliases (setFileDefault cw);
          file_body := List.concat blocks |})
    <$> mapM (fun e => fst <$> GenerateCrds_version e.1 e.2 imports) crds.
Proof.
  unfold GenerateCrds.
  assert (fst <$> forM (fun '(version, objects) =>
                          GenerateCrds_version version objects) crds l
          = mapM (fun e => fst <$> GenerateCrds_version e.1 e.2 imports) crds)
    as Hcode.
  { rewrite forM_code.
    - apply mapM_ext. by intros [version objects].
    - intros [version objects]. apply stateless_GenerateCrds_version. }
  rewrite <- Hcode.
  destruct (forM _ crds l) as [[body l1]|] eqn:Hrun.
  - by erewrite bind_Some by exact Hrun.
  - by erewrite bind_None by exact Hrun.
Qed.

(** C5, amended.  Two runs of [GenerateCrds] on the same entries, ranged
    over in the same order, build the same file, whatever the registries
    they start from.  When the two runs range over the entries in
    different orders, either both panic or the files have the same
    package, headers and aliases and are made of the same blocks (the
    comment and the function of a version), each file in its order. *)
Theorem GenerateCrds_deterministic (cw : codeWriter)
    (crds : list (string * list value)) (l l' : importsList) :
  fst <$> GenerateCrds cw crds l = fst <$> GenerateCrds cw crds l'
  /\ forall crds',
       Permutation crds crds' ->
       match fst <$> GenerateCrds cw crds l, fst <$> GenerateCrds cw crds' l' with
       | Some crdsfile, Some crdsfile' =>
           file_package crdsfile = file_package crdsfile'
           /\ file_headers crdsfile = file_headers crdsfile'
           /\ file_aliases crdsfile = file_aliases crdsfile'
           /\ exists blocks blocks',
               file_body crdsfile = List.concat blocks
               /\ file_body crdsfile' = List.concat blocks'
               /\ Permutation blocks blocks'
               /\ Forall2 (fun e block =>
                             fst <$> GenerateCrds_version e.1 e.2 imports
                             = Some block) crds blocks
               /\ Forall2 (fun e block =>
                             fst <$> GenerateCrds_version e.1 e.2 imports
                             = Some block) crds' blocks'
       | None, None => True
       | _, _ => False
       end.
Proof.
  split; [by rewrite !GenerateCrds_blocks|].
  intros crds' Hperm. rewrite !GenerateCrds_blocks.
  pose proof (mapM_Permutation
    (fun e => fst <$> GenerateCrds_version e.1 e.2 imports) crds crds' Hperm) as Hblocks.
  destruct (mapM _ crds) as [blocks|] eqn:Hrun,
           (mapM _ crds') as [blocks'|] eqn:Hrun'; simpl; try done.
  repeat split. exists blocks, blocks'.
  apply mapM_Some in Hrun, Hrun'. done.
Qed.

End Determinism.

(** The versions [v1] and [v1beta1], one descriptor each, ranged over in
    the two possible orders: the functions [NewV1CRDs] and
    [NewV1beta1CRDs] come in the file in the order of the range.  This is
    what C5 denies as it is stated. *)
Lemma GenerateCrds_order_of_range :
  let entry_v1 := ("v1", [SampleCRD.a_value]) in
  let entry_v1beta1 := ("v1beta1", [SampleCRD.b_value]) in
  let declares (version name : string) (object : string) :=
    [ jen.Stmt [jen.Comment "//nolint"];
      jen.Stmt
        [ jen.Keyword "func"; jen.Id name; jen.Group jen.GParams [];
          jen.Stmt [ jen.Group jen.GIndex []; jen.Op "*";
                     jen.Qual object "CustomResourceDefinition" ];
          jen.Group jen.GBlock
            [ jen.Stmt
                [ jen.Group jen.GReturn
                    [ jen.Stmt
                        [ jen.Group jen.GIndex []; jen.Op "*";
                          jen.Qual object "CustomResourceDefinition";
                          jen.Group jen.GValues
                            [ jen.Stmt
                                [ jen.Op "&";
                                  jen.Stmt [jen.Qual object "CustomResourceDefinition"];
                                  jen.Group jen.GValues [jen.Dict []] ] ] ] ] ] ] ] ] in
  let in_v1 :=
    declares "v1" "NewV1CRDs"
             "k8s.io/apiextensions-apiserver/pkg/apis/apiextensions/v1" in
  let in_v1beta1 :=
    declares "v1beta1" "NewV1beta1CRDs"
             "k8s.io/apiextensions-apiserver/pkg/apis/apiextensions/v1beta1" in
  Permutation [entry_v1; entry_v1beta1] [entry_v1beta1; entry_v1]
  /\ jen.file_body <$> (fst <$> GenerateCrds (R := Sample.golib) SampleCRD.writer
                                  [entry_v1; entry_v1beta1] imports)
     = Some (in_v1 ++ in_v1beta1)%list
  /\ jen.file_body <$> (fst <$> GenerateCrds (R := Sample.golib) SampleCRD.writer
                                  [entry_v1beta1; entry_v1] imports)
     = Some (in_v1beta1 ++ in_v1)%list.
Proof. split; [apply perm_swap | split; vm_compute; reflexivity]. Qed.

(** No kind in the roots: [Generate] returns [nil] although unknown
    fields are to be preserved in [v1] descriptors.  This is what C7
    denies as it is stated. *)
Lemma Generate_preserving_without_kinds :
  Generate (R := Sample.golib) SampleCRD.preserving (SampleCRD.collaborators [])
           imports
  = Some (None, imports)
  /\ PreserveUnknownFields SampleCRD.preserving = Some true
  /\ requestedVersions SampleCRD.preserving = ["v1"]
  /\ v1beta1Only (requestedVersions SampleCRD.preserving) = false
  /\ PackageName SampleCRD.preserving = "crds".
Proof. repeat split. Qed.

(** With a kind in the roots the same generator fails. *)
Lemma Generate_preserving_with_a_kind :
  Generate (R := Sample.golib) SampleCRD.preserving
           (SampleCRD.collaborators ["Guestbook.webapp.example.com"]) imports
  = Some (Some (Errorf
            "you may only set PreserveUnknownFields to true with v1beta1 CRDs"),
          imports).
Proof. reflexivity. Qed.

(** ** Further properties of the registry *)

(** [NeedImport] returns on every path and every registry: the loop that
    looks for a free alias stops, and nothing panics. *)
Theorem NeedImport_terminates (U : Unicode) (importPath : string) (l : importsList) :
  exists alias l', NeedImport importPath l = Some (alias, l').
Proof.
  destruct (NeedImport_total importPath l) as [[alias l'] Hcall]. eauto.
Qed.

(** A path whose last segment is made of digits gets the empty alias, and
    so does the empty path after it: the loop is not entered when
    [importPath] is empty, its condition comparing [importPath] with the
    initial [otherPath]. *)
Theorem NeedImports_empty_path :
  fst <$> NeedImports ["example.com/1"; ""] imports = Some [""; ""].
Proof. vm_compute. reflexivity. Qed.

(** What [generateValue] writes for a value is the same on every
    registry: the aliases of the registry are not part of the code. *)
Theorem generateValue_registry_independent (U : Unicode) (R : Reflection)
    (v : value) (omitType : bool) (l l' : importsList) :
  fst <$> generateValue v omitType l = fst <$> generateValue v omitType l'.
Proof. apply (stateless_generateValue v). Qed.

Section RegistryRuns.
Context {U : Unicode}.
Import GoString GoStringFacts.

(** The loop, once entered, returns the alias of the first pass after
    which the alias is free or bound to [importPath]; after every
    earlier pass it is bound to another path. *)
Lemma NeedImport_loop_first (l : importsList) (importPath : string) (fuel : nat) :
  forall otherPath exists_ alias restPath nextWord result,
    NeedImport_loop fuel l importPath otherPath exists_ alias restPath nextWord
      = Some result ->
    exists_ && negb (String.eqb otherPath importPath) = true ->
    exists n,
      result = (Nat.iter (S n) NeedImport_pass (alias, restPath, nextWord)).1.1
      /\ (byAlias l !! result = None \/ byAlias l !! result = Some importPath)
      /\ forall k, (k < n)%nat ->
           exists q,
             byAlias l !! (Nat.iter (S k) NeedImport_pass
                                    (alias, restPath, nextWord)).1.1 = Some q
             /\ q <> importPath.
Proof.
  induction fuel as [|fuel IH];
    intros otherPath exists_ alias restPath nextWord result;
    cbn [NeedImport_loop]; intros Hloop Hcond; rewrite Hcond in Hloop; [done|].
  destruct (NeedImport_body alias restPath nextWord) as [[alias' restPath'] nextWord']
    eqn:Hbody.
  destruct (comma_ok (byAlias l) alias') as [otherPath' exists_'] eqn:Hlookup.
  assert (NeedImport_pass (alias, restPath, nextWord)
          = (alias', restPath', nextWord')) as Hpass by exact Hbody.
  destruct (exists_' && negb (String.eqb otherPath' importPath)) eqn:Hcond'.
  - destruct (IH _ _ _ _ _ _ Hloop Hcond') as (n & Hresult & Hfree & Hbound).
    apply andb_true_iff in Hcond' as [-> Hother].
    apply negb_true_iff, String.eqb_neq in Hother.
    apply comma_ok_true in Hlookup.
    exists (S n). rewrite Nat.iter_succ_r, Hpass. split; [done|]. split; [done|].
    intros [|k] Hk.
    + exists otherPath'. rewrite Nat.iter_succ_r, Hpass.
      split; [exact Hlookup | done].
    + destruct (Hbound k ltac:(lia)) as (q & Hq & Hne). exists q.
      by rewrite Nat.iter_succ_r, Hpass.
  - assert (result = alias') as ->.
    { destruct fuel; cbn [NeedImport_loop] in Hloop; rewrite Hcond' in Hloop;
        congruence. }
    exists 0%nat. rewrite Nat.iter_succ_r, Hpass.
    split; [done|]. split; [|intros k Hk; lia].
    change (Nat.iter 0 NeedImport_pass (alias', restPath', nextWord')).1.1
      with alias'.
    destruct exists_'.
    + apply comma_ok_true in Hlookup. cbn [andb] in Hcond'.
      apply negb_false_iff, String.eqb_eq in Hcond' as <-. by right.
    + apply comma_ok_false in Hlookup. by left.
Qed.

(** [NeedImport] on a path that is new and not empty: the alias is a
    candidate that is free or bound to the path, every candidate before
    it being bound to another path. *)
Lemma NeedImport_candidates (importPath : string) (l : importsList) :
  NonVendor importPath <> "" ->
  byPath l !! NonVendor importPath = None ->
  exists n alias l',
    NeedImport importPath l = Some (alias, l')
    /\ alias = NeedImport_candidate (NonVendor importPath) (S n)
    /\ (byAlias l !! alias = None
        \/ byAlias l !! alias = Some (NonVendor importPath))
    /\ forall k, (k < n)%nat ->
         exists q,
           byAlias l !! NeedImport_candidate (NonVendor importPath) (S k) = Some q
           /\ q <> NonVendor importPath.
Proof.
  intros Hne Hnew.
  destruct (NeedImport_total importPath l) as [[alias l'] Hcall].
  pose proof Hcall as Hrun. revert Hrun.
  unfold NeedImport, comma_ok, NeedImport_candidate. rewrite Hnew.
  destruct (path_Split (NonVendor importPath)) as [restPath nextWord].
  destruct (NeedImport_loop _ _ _ _ _ _ _ _) as [result|] eqn:Hloop; [|done].
  intros [= -> <-].
  apply NeedImport_loop_first in Hloop as (n & Hresult & Hfree & Hbound).
  - exists n, alias. eexists. eauto.
  - cbn [andb]. apply negb_true_iff, String.eqb_neq. congruence.
Qed.

End RegistryRuns.

Section RegistryChoice.
Context {U : Unicode}.
Import GoString GoStringFacts.

(** The first alias the loop tries: the last segment of the path without
    its leading digits, every rune that is not a letter, a digit or an
    underscore replaced by an underscore; an [x] is appended when the
    path has no directory part. *)
Lemma NeedImport_candidate_1 (importPath : string) :
  NeedImport_candidate importPath 1
  = strings.Map identRune (skipDigits (path_Split importPath).2)
    +:+ (if String.eqb (path_Split importPath).1 "" then "x" else "").
Proof.
  unfold NeedImport_candidate.
  destruct (path_Split importPath) as [restPath nextWord]. cbn [fst snd].
  change (Nat.iter 1 NeedImport_pass ("", restPath, nextWord))
    with (NeedImport_body "" restPath nextWord).
  unfold NeedImport_body.
  destruct (0 <? len restPath);
    [destruct (path_Split (slice_to restPath (len restPath - 1)))|];
    cbn [fst snd]; by destruct (String.eqb restPath "").
Qed.

(** A call keeps two facts about the registry: an alias of [byAlias] is
    the alias [byPath] gives the path it stands for, and no key of
    [byPath] has a vendor prefix left to strip. *)
Lemma NeedImport_consistent (importPath alias : string) (l l' : importsList) :
  (forall a p, byAlias l !! a = Some p -> byPath l !! p = Some a) ->
  (forall p a, byPath l !! p = Some a -> NonVendor p = p) ->
  NeedImport importPath l = Some (alias, l') ->
  (forall a p, byAlias l' !! a = Some p -> byPath l' !! p = Some a)
  /\ (forall p a, byPath l' !! p = Some a -> NonVendor p = p).
Proof.
  intros Hback Hkeys Hcall.
  destruct (byPath l !! NonVendor importPath) as [a|] eqn:Hlookup.
  - rewrite (NeedImport_seen _ _ _ Hlookup) in Hcall. by injection Hcall as <- <-.
  - destruct (NeedImport_new _ _ Hlookup) as (a & Ha & _).
    rewrite Ha in Hcall. injection Hcall as -> <-. simpl. split.
    + intros b p. destruct (decide (alias = b)) as [<-|Hb].
      * rewrite lookup_insert_eq. intros [= <-]. apply lookup_insert_eq.
      * rewrite lookup_insert_ne by done. intros Hp. apply Hback in Hp.
        rewrite lookup_insert_ne; [done | congruence].
    + intros p b. destruct (decide (NonVendor importPath = p)) as [<-|Hp].
      * intros _. apply NonVendor_idempotent.
      * rewrite lookup_insert_ne by done. apply Hkeys.
Qed.

Lemma NeedImports_consistent (paths : list string) :
  forall l aliases l',
    (forall a p, byAlias l !! a = Some p -> byPath l !! p = Some a) ->
    (forall p a, byPath l !! p = Some a -> NonVendor p = p) ->
    NeedImports paths l = Some (aliases, l') ->
    (forall a p, byAlias l' !! a = Some p -> byPath l' !! p = Some a)
    /\ (forall p a, byPath l' !! p = Some a -> NonVendor p = p).
Proof.
  induction paths as [|p paths IH]; intros l aliases l' Hback Hkeys Hrun;
    simpl in Hrun.
  - by injection Hrun as <- <-.
  - destruct (NeedImport p l) as [[a l1]|] eqn:Hcall; [|done].
    destruct (NeedImports paths l1) as [[aliases' l2]|] eqn:Hrest; [|done].
    injection Hrun as <- <-.
    destruct (NeedImport_consistent _ _ _ _ Hback Hkeys Hcall) as [Hback1 Hkeys1].
    eapply IH; eauto.
Qed.

(** X4.  The alias [NeedImport] gives a path that is new to the registry
    and not empty is the first, in the order the loop builds them, of the
    candidate aliases that is free or stands for the path already; every
    candidate before it stands for another path.  The path and the alias
    are then recorded, each under the other. *)
Theorem NeedImport_first_free (importPath : string) (l : importsList) :
  NonVendor importPath <> "" ->
  byPath l !! NonVendor importPath = None ->
  exists n alias,
    NeedImport importPath l
    = Some (alias, {| byPath := <[NonVendor importPath := alias]> (byPath l);
                      byAlias := <[alias := NonVendor importPath]> (byAlias l) |})
    /\ alias = NeedImport_candidate (NonVendor importPath) (S n)
    /\ (byAlias l !! alias = None
        \/ byAlias l !! alias = Some (NonVendor importPath))
    /\ forall k, (k < n)%nat ->
         exists q,
           byAlias l !! NeedImport_candidate (NonVendor importPath) (S k) = Some q
           /\ q <> NonVendor importPath.
Proof.
  intros Hne Hnew.
  destruct (NeedImport_candidates importPath l Hne Hnew)
    as (n & alias & l' & Hcall & Halias & Hfree & Hbound).
  destruct (NeedImport_new importPath l Hnew) as (a & Ha & _).
  exists n, alias. split; [|done].
  rewrite Ha in Hcall. injection Hcall as -> _. exact Ha.
Qed.

(** X5.  When the alias made of the last segment of a new path is free,
    it is the alias of the path: the segment without its leading digits,
    every rune that is not a letter, a digit or an underscore replaced by
    an underscore, and an [x] appended when the path has no slash. *)
Theorem NeedImport_last_segment (importPath : string) (l : importsList) :
  let path := NonVendor importPath in
  let alias :=
    strings.Map identRune (skipDigits (path_Split path).2)
    +:+ (if String.eqb (path_Split path).1 "" then "x" else "") in
  path <> "" -> byPath l !! path = None -> byAlias l !! alias = None ->
  NeedImport importPath l
  = Some (alias, {| byPath := <[path := alias]> (byPath l);
                    byAlias := <[alias := path]> (byAlias l) |}).
Proof.
  intros path alias Hne Hnew Hfree.
  destruct (NeedImport_candidates importPath l Hne Hnew)
    as (n & a & l' & Hcall & Halias & _ & Hbound).
  destruct (NeedImport_new importPath l Hnew) as (b & Hb & _).
  assert (a = alias) as ->.
  { destruct n as [|n].
    - rewrite Halias. apply NeedImport_candidate_1.
    - destruct (Hbound 0%nat ltac:(lia)) as (q & Hq & _).
      rewrite NeedImport_candidate_1 in Hq. fold path in Hq. fold alias in Hq.
      congruence. }
  rewrite Hb in Hcall. injection Hcall as -> _. exact Hb.
Qed.

(** X6.  The empty path is given the empty alias whatever [byAlias]
    holds: the condition of the loop compares the path with the initial
    [otherPath], which is empty too, so the loop is not entered and no
    alias is looked up.  The path a registry had under the empty alias
    loses it. *)
Theorem NeedImport_empty_path (l : importsList) :
  byPath l !! "" = None ->
  NeedImport "" l
  = Some ("", {| byPath := <["" := ""]> (byPath l);
                 byAlias := <["" := ""]> (byAlias l) |}).
Proof.
  intros Hnew. unfold NeedImport.
  change (NonVendor "") with "". unfold comma_ok. rewrite Hnew.
  change (path_Split "") with ("", "").
  by destruct (NeedImport_fuel l "").
Qed.

(** X7.  In every run from the empty registry, whatever the paths: an
    alias of [byAlias] is the alias [byPath] gives the path it stands
    for, and no key of [byPath] has a vendor prefix left to strip. *)
Theorem NeedImports_registry_consistent (paths : list string) :
  exists aliases l,
    NeedImports paths imports = Some (aliases, l)
    /\ (forall a p, byAlias l !! a = Some p -> byPath l !! p = Some a)
    /\ (forall p a, byPath l !! p = Some a -> NonVendor p = p).
Proof.
  destruct (NeedImports_total paths imports) as [[aliases l] Hrun].
  exists aliases, l. split; [done|].
  eapply NeedImports_consistent; [| |exact Hrun]; unfold imports; simpl;
    intros ? ?; by rewrite lookup_empty.
Qed.

End RegistryChoice.

(** The registry in which [meta/v1] has the alias [v1]: the alias of
    [core/v1] is the second candidate, [corev1]. *)
Lemma NeedImport_first_free_witness :
  let l := {| byPath := {["k8s.io/apimachinery/pkg/apis/meta/v1" := "v1"]};
              byAlias := {["v1" := "k8s.io/apimachinery/pkg/apis/meta/v1"]} |} in
  let p := "k8s.io/api/core/v1" in
  NonVendor p <> ""
  /\ byPath l !! NonVendor p = None
  /\ NeedImport_candidate (NonVendor p) 1 = "v1"
  /\ NeedImport_candidate (NonVendor p) 2 = "corev1"
  /\ exists n alias,
      NeedImport p l
      = Some (alias, {| byPath := <[NonVendor p := alias]> (byPath l);
                        byAlias := <[alias := NonVendor p]> (byAlias l) |})
      /\ alias = NeedImport_candidate (NonVendor p) (S n)
      /\ (byAlias l !! alias = None \/ byAlias l !! alias = Some (NonVendor p))
      /\ forall k, (k < n)%nat ->
           exists q,
             byAlias l !! NeedImport_candidate (NonVendor p) (S k) = Some q
             /\ q <> NonVendor p.
Proof.
  intros l p.
  assert (NonVendor p <> "") as Hne by (vm_compute; discriminate).
  assert (byPath l !! NonVendor p = None) as Hnew by (vm_compute; reflexivity).
  split; [exact Hne|]. split; [exact Hnew|].
  split; [vm_compute; reflexivity|]. split; [vm_compute; reflexivity|].
  exact (NeedImport_first_free p l Hne Hnew).
Defined.

(** On the empty registry [k8s.io/api/core/v1] gets the alias [v1]. *)
Lemma NeedImport_last_segment_witness :
  let p := "k8s.io/api/core/v1" in
  NonVendor p <> ""
  /\ byPath imports !! NonVendor p = None
  /\ byAlias imports !! "v1" = None
  /\ NeedImport p imports
     = Some ("v1", {| byPath := <[p := "v1"]> (byPath imports);
                      byAlias := <["v1" := p]> (byAlias imports) |}).
Proof.
  intros p.
  assert (NonVendor p <> "") as Hne by (vm_compute; discriminate).
  split; [exact Hne|]. split; [reflexivity|]. split; [reflexivity|].
  exact (NeedImport_last_segment p imports Hne eq_refl eq_refl).
Defined.

(** The registry in which [example.com/1] has the empty alias: the empty
    path takes the alias over. *)
Lemma NeedImport_empty_path_witness :
  let l := {| byPath := {["example.com/1" := ""]};
              byAlias := {["" := "example.com/1"]} |} in
  byPath l !! "" = None
  /\ byAlias l !! "" = Some "example.com/1"
  /\ NeedImport "" l
     = Some ("", {| byPath := <["" := ""]> (byPath l);
                    byAlias := <["" := ""]> (byAlias l) |}).
Proof.
  intros l.
  assert (byPath l !! "" = None) as Hnew by (vm_compute; reflexivity).
  split; [exact Hnew|]. split; [vm_compute; reflexivity|].
  exact (NeedImport_empty_path l Hnew).
Defined.

(** ** [Capitalize] on ASCII text *)

Section CapitalizeFacts.
Import GoString.

Lemma of_byte_of (c : ascii) : of_byte (byte_of c) = c.
Proof.
  unfold of_byte, byte_of. rewrite N2Z.id. apply ascii_N_embedding.
Qed.

Lemma byte_of_nonneg (c : ascii) : 0 <= byte_of c.
Proof. unfold byte_of. lia. Qed.

Lemma bytes_cons (c : ascii) (s : string) :
  utf8.bytes (String c s) = byte_of c :: utf8.bytes s.
Proof. reflexivity. Qed.

Lemma DecodeRuneInString_ascii (c : ascii) (s : string) :
  byte_of c < 128 -> utf8.DecodeRuneInString (String c s) = (byte_of c, 1).
Proof.
  intros Hc. unfold utf8.DecodeRuneInString. rewrite bytes_cons.
  by destruct (Z.ltb_spec (byte_of c) 128); [|lia].
Qed.

Lemma runes_go_ascii (s : string) :
  forall fuel, (String.length s <= fuel)%nat ->
    Forall (fun b => b < 128) (utf8.bytes s) ->
    utf8.runes_go fuel s = utf8.bytes s.
Proof.
  induction s as [|c s IH]; intros fuel Hfuel Hascii.
  - by destruct fuel.
  - destruct fuel as [|fuel]; simpl in Hfuel; [lia|].
    rewrite bytes_cons in *.
    inversion Hascii as [|? ? Hc Hs]; subst.
    cbn [utf8.runes_go]. rewrite DecodeRuneInString_ascii by done.
    f_equal. apply IH; [lia | done].
Qed.

Lemma EncodeRune_ascii (r : Z) :
  0 <= r < 128 -> utf8.EncodeRune r = String (of_byte r) "".
Proof.
  intros Hr. unfold utf8.EncodeRune.
  destruct (Z.leb_spec 0 r); [|lia]. by destruct (Z.ltb_spec r 128); [|lia].
Qed.

Lemma of_runes_ascii (s : string) :
  Forall (fun b => b < 128) (utf8.bytes s) -> utf8.of_runes (utf8.bytes s) = s.
Proof.
  induction s as [|c s IH]; intros Hascii; [done|].
  rewrite bytes_cons in *.
  inversion Hascii as [|? ? Hc Hs]; subst. cbn [utf8.of_runes].
  rewrite EncodeRune_ascii by (pose proof (byte_of_nonneg c); lia).
  rewrite of_byte_of, IH by done. done.
Qed.

(** The first letter of an ASCII text is made upper case, the rest is
    kept, byte for byte. *)
Lemma Capitalize_ascii_first (c : ascii) (s : string) :
  Forall (fun b => b < 128) (utf8.bytes (String c s)) ->
  Capitalize (String c s)
  = String (if utf8.within 97 122 (byte_of c) then of_byte (byte_of c - 32) else c) s.
Proof.
  intros Hascii. unfold Capitalize.
  assert ((len (String c s) <? 1) = false) as ->
    by (apply Z.ltb_ge; unfold len; cbn [String.length]; lia).
  unfold utf8.runes. rewrite runes_go_ascii by done.
  rewrite bytes_cons in *.
  inversion Hascii as [|? ? Hc Hs]; subst. cbn [utf8.of_runes].
  rewrite (of_runes_ascii s Hs). pose proof (byte_of_nonneg c).
  unfold utf8.within.
  destruct ((97 <=? byte_of c) && (byte_of c <=? 122)) eqn:Hlower.
  - rewrite EncodeRune_ascii by lia. done.
  - rewrite EncodeRune_ascii by lia. by rewrite of_byte_of.
Qed.

(** [Capitalize] on a text of ASCII bytes: the empty text is
    returned as it is; otherwise a first byte in [a-z] is replaced by the
    byte 32 below it, its upper-case letter, and every other byte is
    kept.  Capitalizing twice is capitalizing once. *)
Theorem Capitalize_ascii (str : string) :
  Forall (fun b => b < 128) (utf8.bytes str) ->
  Capitalize str
  = match str with
    | EmptyString => EmptyString
    | String c s =>
        String (if utf8.within 97 122 (byte_of c)
                then of_byte (byte_of c - 32) else c) s
    end
  /\ String.length (Capitalize str) = String.length str
  /\ Capitalize (Capitalize str) = Capitalize str.
Proof.
  intros Hascii. destruct str as [|c s]; [done|].
  rewrite (Capitalize_ascii_first c s Hascii). split; [done|]. split; [done|].
  rewrite bytes_cons in Hascii.
  inversion Hascii as [|? ? Hc Hs]; subst. pose proof (byte_of_nonneg c).
  unfold utf8.within.
  destruct ((97 <=? byte_of c) && (byte_of c <=? 122)) eqn:Hlower.
  - assert (byte_of (of_byte (byte_of c - 32)) = byte_of c - 32) as Hup.
    { unfold byte_of at 1, of_byte. rewrite N_ascii_embedding; lia. }
    rewrite Capitalize_ascii_first.
    + unfold utf8.within. rewrite Hup.
      by destruct (Z.leb_spec 97 (byte_of c - 32)); [lia|].
    + rewrite bytes_cons. constructor; [lia | done].
  - rewrite Capitalize_ascii_first.
    + unfold utf8.within. by rewrite Hlower.
    + rewrite bytes_cons. by constructor.
Qed.

End CapitalizeFacts.

(** The version [v1beta1] in the name of the function [NewV1beta1CRDs]. *)
Lemma Capitalize_ascii_witness :
  Forall (fun b => b < 128) (utf8.bytes "v1beta1")
  /\ Capitalize "v1beta1" = "V1beta1"
  /\ String.length (Capitalize "v1beta1") = String.length "v1beta1"
  /\ Capitalize (Capitalize "v1beta1") = Capitalize "v1beta1".
Proof.
  assert (Forall (fun b => b < 128) (utf8.bytes "v1beta1")) as Hascii.
  { repeat constructor. }
  exact (conj Hascii (Capitalize_ascii "v1beta1" Hascii)).
Defined.

(** ** Further properties of the trivial-version collapse *)

Section Collapse.
Context {Validation Subresources Column Rest : Type}.
#[local] Abbreviation Version' :=
  (@CustomResourceDefinitionVersion Validation Subresources Column).
#[local] Abbreviation CRD' :=
  (@CustomResourceDefinition Validation Subresources Column Rest).

Lemma cleared_cleared (ver : Version') : cleared (cleared ver) = cleared ver.
Proof. reflexivity. Qed.

(** On versions that were cleared the loop finds nothing to promote. *)
Lemma toTrivialVersions_loop_map_cleared (versions : list Version') :
  (toTrivialVersions_loop (map cleared versions) (None, None, None)).2
  = (None, None, None).
Proof.
  induction versions as [|ver versions IH]; simpl; [done|].
  destruct (ver_Storage ver);
    destruct (toTrivialVersions_loop (map cleared versions) (None, None, None));
    done.
Qed.

(** The collapse promotes the fields of the last version that is stored,
    whatever the versions before it are: a stored version among them is
    overridden.  When the schema of that last stored version is nil, the
    descriptor keeps its validation, subresources and printer columns. *)
Theorem toTrivialVersions_last_storage (crd : CRD') (before after : list Version')
    (ver : Version') :
  Spec_Versions crd = (before ++ ver :: after)%list ->
  ver_Storage ver = true ->
  Forall (fun ver => ver_Storage ver = false) after ->
  toTrivialVersions crd
  = match ver_Schema ver with
    | Some _ =>
        {| Spec_Versions := map cleared (Spec_Versions crd);
           Spec_Validation := ver_Schema ver;
           Spec_Subresources := ver_Subresources ver;
           Spec_AdditionalPrinterColumns := ver_AdditionalPrinterColumns ver;
           Spec_PreserveUnknownFields := Spec_PreserveUnknownFields crd;
           crd_rest := crd_rest crd |}
    | None =>
        {| Spec_Versions := map cleared (Spec_Versions crd);
           Spec_Validation := Spec_Validation crd;
           Spec_Subresources := Spec_Subresources crd;
           Spec_AdditionalPrinterColumns := Spec_AdditionalPrinterColumns crd;
           Spec_PreserveUnknownFields := Spec_PreserveUnknownFields crd;
           crd_rest := crd_rest crd |}
    end.
Proof.
  intros Hversions Hver Hafter. unfold toTrivialVersions.
  pose proof (toTrivialVersions_loop_cleared (Spec_Versions crd) (None, None, None)) as H1.
  pose proof (toTrivialVersions_loop_one before after ver (None, None, None)
                Hver Hafter) as H2.
  rewrite <- Hversions in H2.
  destruct (toTrivialVersions_loop _ _) as [versions [[s r] k]]. simpl in *.
  injection H2 as -> -> ->. rewrite H1. by destruct (ver_Schema ver).
Qed.

(** Collapsing a descriptor that was collapsed changes nothing: the
    promoted validation, subresources and printer columns stay. *)
Theorem toTrivialVersions_idempotent (crd : CRD') :
  toTrivialVersions (toTrivialVersions crd) = toTrivialVersions crd.
Proof.
  pose proof (toTrivialVersions_versions crd) as Hversions.
  destruct (toTrivialVersions crd) as [versions validation subresources columns
                                        preserve rest] eqn:Hcrd.
  simpl in Hversions. subst versions. unfold toTrivialVersions at 1. simpl.
  pose proof (toTrivialVersions_loop_cleared
                (map cleared (Spec_Versions crd)) (None, None, None)) as H1.
  pose proof (toTrivialVersions_loop_map_cleared (Spec_Versions crd)) as H2.
  destruct (toTrivialVersions_loop _ _) as [versions [[s r] k]]. simpl in *.
  injection H2 as -> -> ->. rewrite H1. f_equal.
  rewrite <- list_fmap_compose. apply list_fmap_ext. by intros ? ? _.
Qed.

(** Whatever the descriptor, the collapse keeps the versions in number
    and order, each with its name and its served and storage flags, it
    clears the schema, the subresources and the printer columns of each,
    and it leaves [PreserveUnknownFields] and the rest of the descriptor
    alone. *)
Theorem toTrivialVersions_frame (crd : CRD') :
  Forall2 (fun ver ver' =>
             ver_Name ver' = ver_Name ver
             /\ ver_Served ver' = ver_Served ver
             /\ ver_Storage ver' = ver_Storage ver
             /\ ver_Schema ver' = None
             /\ ver_Subresources ver' = None
             /\ ver_AdditionalPrinterColumns ver' = None)
          (Spec_Versions crd) (Spec_Versions (toTrivialVersions crd))
  /\ Spec_PreserveUnknownFields (toTrivialVersions crd)
     = Spec_PreserveUnknownFields crd
  /\ crd_rest (toTrivialVersions crd) = crd_rest crd.
Proof.
  split.
  - rewrite toTrivialVersions_versions. apply Forall2_fmap_r, Forall_Forall2_diag.
    by apply Forall_true.
  - unfold toTrivialVersions.
    by destruct (toTrivialVersions_loop _ _) as [versions [[[?|] ?] ?]].
Qed.

End Collapse.

(** Two stored versions, [v1] and then [v1beta1]: the schema promoted is
    that of [v1beta1]. *)
Lemma toTrivialVersions_last_storage_witness :
  let stored (name schema : string) : SampleCRD.Version :=
    {| ver_Name := name; ver_Served := true; ver_Storage := true;
       ver_Schema := Some schema; ver_Subresources := None;
       ver_AdditionalPrinterColumns := None |} in
  let crd : SampleCRD.CRD :=
    {| Spec_Versions := [stored "v1" "schema of v1"; stored "v1beta1" "schema of v1beta1"];
       Spec_Validation := None; Spec_Subresources := None;
       Spec_AdditionalPrinterColumns := None;
       Spec_PreserveUnknownFields := None; crd_rest := tt |} in
  Spec_Versions crd
  = ([stored "v1" "schema of v1"] ++ stored "v1beta1" "schema of v1beta1" :: [])%list
  /\ ver_Storage (stored "v1beta1" "schema of v1beta1") = true
  /\ Forall (fun ver : SampleCRD.Version => ver_Storage ver = false) []
  /\ toTrivialVersions crd
     = {| Spec_Versions := map cleared (Spec_Versions crd);
          Spec_Validation := Some "schema of v1beta1";
          Spec_Subresources := None;
          Spec_AdditionalPrinterColumns := None;
          Spec_PreserveUnknownFields := None; crd_rest := tt |}.
Proof.
  intros stored crd.
  split; [reflexivity|]. split; [reflexivity|]. split; [constructor|].
  exact (toTrivialVersions_last_storage crd [stored "v1" "schema of v1"] []
           (stored "v1beta1" "schema of v1beta1") eq_refl eq_refl
           (List.Forall_nil _)).
Defined.

(** ** What [Generate] collects *)

Section CollectedFacts.
Context {Validation Subresources Column Rest V1Rest UpstreamError GroupKind : Type}.
#[local] Abbreviation Ctx :=
  (@GenerationContext Validation Subresources Column Rest V1Rest UpstreamError GroupKind).
#[local] Abbreviation Object' :=
  (@Object Validation Subresources Column Rest V1Rest).

Lemma asVersions_Forall2 (ctx : Ctx) (crdRaw : V1CustomResourceDefinition)
    (crdVersions : list string) (versionedCRDs : list Object') :
  asVersions ctx crdRaw crdVersions = inr versionedCRDs ->
  Forall2 (fun ver conv => AsVersion ctx crdRaw ver = inr conv)
          crdVersions versionedCRDs.
Proof.
  revert versionedCRDs;
    induction crdVersions as [|ver crdVersions IH]; intros versionedCRDs; simpl.
  - intros [= <-]. constructor.
  - destruct (AsVersion ctx crdRaw ver) as [|conv] eqn:Hconv; [done|].
    destruct (asVersions ctx crdRaw crdVersions) as [|convs]; [done|].
    intros [= <-]. constructor; auto.
Qed.

(** The collapse under [if g.TrivialVersions], entry by entry. *)
Lemma trivialVersions_lookup (crdVersions : list string) :
  forall (versionedCRDs result : list Object'),
    trivialVersions crdVersions versionedCRDs = Some result ->
    List.length result = List.length versionedCRDs
    /\ forall i ver conv,
         crdVersions !! i = Some ver -> versionedCRDs !! i = Some conv ->
         exists conv',
           result !! i = Some conv'
           /\ if String.eqb ver "v1beta1"
              then exists crd, conv = ObjV1beta1 crd
                               /\ conv' = ObjV1beta1 (toTrivialVersions crd)
              else conv' = conv.
Proof.
  induction crdVersions as [|ver crdVersions IH];
    intros [|conv versionedCRDs] result; simpl; try done.
  - intros [= <-]. split; [done|]. intros i ? ?. by rewrite lookup_nil.
  - intros [= <-]. split; [done|]. intros i ? ? ?. by rewrite lookup_nil.
  - intros Hrun.
    destruct (if String.eqb ver "v1beta1"
              then match conv with
                   | ObjV1beta1 c => Some (ObjV1beta1 (toTrivialVersions c))
                   | ObjV1 _ => None
                   end
              else Some conv) as [conv'|] eqn:Hconv; [|done].
    destruct (trivialVersions crdVersions versionedCRDs) as [rest|] eqn:Hrest;
      [|done].
    injection Hrun as <-. destruct (IH _ _ Hrest) as [Hlen Hrest'].
    split; [simpl; lia|].
    intros [|i] w c; simpl; [|apply Hrest'].
    intros [= <-] [= <-]. exists conv'. split; [done|].
    destruct (String.eqb ver "v1beta1"); [|congruence].
    destruct conv as [|crd]; [done|]. injection Hconv as <-. eauto.
Qed.

(** The [switch] on [g.PreserveUnknownFields], entry by entry. *)
Lemma preserveUnknownFields_lookup (g : Generator) (crdVersions : list string)
    (versionedCRDs result : list Object') :
  preserveUnknownFields (UpstreamError := UpstreamError) g crdVersions versionedCRDs
  = Done result ->
  List.length result = List.length versionedCRDs
  /\ forall i ver conv,
       crdVersions !! i = Some ver -> versionedCRDs !! i = Some conv ->
       exists conv',
         result !! i = Some conv'
         /\ if clearsPreserveUnknownFields g crdVersions
            then ver = "v1beta1"
                 /\ exists crd, conv = ObjV1beta1 crd
                      /\ conv' = ObjV1beta1 (withoutPreserveUnknownFields crd)
            else conv' = conv.
Proof.
  unfold preserveUnknownFields.
  fold (clearsPreserveUnknownFields g crdVersions).
  destruct (clearsPreserveUnknownFields g crdVersions) eqn:Hclears.
  - destruct versionedCRDs as [|[|crd] rest]; try done.
    intros [= <-]. split; [done|].
    unfold clearsPreserveUnknownFields, v1beta1Only in Hclears.
    apply andb_true_iff in Hclears as [_ Honly].
    apply andb_true_iff in Honly as [Hone Hver]. apply Z.eqb_eq in Hone.
    destruct crdVersions as [|ver0 [|? ?]]; cbn [List.length] in Hone;
      try done; try lia.
    apply String.eqb_eq in Hver as ->.
    intros [|i] ver conv; simpl; [|by rewrite lookup_nil].
    intros [= <-] [= <-]. eexists. split; [reflexivity|]. split; [done|].
    by exists crd.
  - destruct (PreserveUnknownFields g) as [[|]|]; try done;
      intros [= <-]; (split; [done|]); eauto.
Qed.

(** The appends to the map [crds], entry by entry. *)
Lemma collect_lookup (crdVersions : list string) :
  forall (versionedCRDs : list Object') (crds : gmap string (list Object')),
    NoDup crdVersions ->
    List.length versionedCRDs = List.length crdVersions ->
    (forall i ver conv,
       crdVersions !! i = Some ver -> versionedCRDs !! i = Some conv ->
       collect crdVersions versionedCRDs crds !! ver
       = Some (default [] (crds !! ver) ++ [conv])%list)
    /\ (forall ver, ver ∉ crdVersions ->
          collect crdVersions versionedCRDs crds !! ver = crds !! ver).
Proof.
  induction crdVersions as [|ver0 crdVersions IH];
    intros [|conv0 versionedCRDs] crds Hnodup Hlen; simpl in Hlen; try lia.
  - split; [intros i ? ?; by rewrite lookup_nil | done].
  - apply NoDup_cons in Hnodup as [Hfresh Hnodup]. cbn [collect].
    destruct (IH versionedCRDs
                (<[ver0 := (default [] (crds !! ver0) ++ [conv0])%list]> crds)
                Hnodup ltac:(lia)) as [Hin Hout].
    split.
    + intros [|i] ver conv; simpl.
      * intros [= <-] [= <-]. rewrite Hout by done. apply lookup_insert_eq.
      * intros Hver Hconv. rewrite (Hin _ _ _ Hver Hconv).
        rewrite lookup_insert_ne; [done|].
        intros <-. apply Hfresh. by eapply list_elem_of_lookup_2.
    + intros ver Hver. apply not_elem_of_cons in Hver as [Hne Hver].
      rewrite Hout by done. by rewrite lookup_insert_ne.
Qed.

(** One pass of the loop over the kinds: every requested version gets
    one more descriptor, the conversion of the kind to that version as
    [collected] leaves it; no other entry of the map changes. *)
Lemma Generate_kind_collected (g : Generator) (ctx : Ctx)
    (crdVersions : list string) (groupKind : GroupKind)
    (crds crds' : gmap string (list Object')) :
  NoDup crdVersions ->
  Generate_kind g ctx crdVersions groupKind crds = Done crds' ->
  (forall ver, ver ∈ crdVersions ->
     exists conv obj,
       AsVersion ctx (attributed ctx groupKind) ver = inr conv
       /\ collected g crdVersions ver conv = Some obj
       /\ crds' !! ver = Some (default [] (crds !! ver) ++ [obj])%list)
  /\ (forall ver, ver ∉ crdVersions -> crds' !! ver = crds !! ver).
Proof.
  intros Hnodup. unfold Generate_kind. fold (attributed ctx groupKind).
  destruct (asVersions ctx (attributed ctx groupKind) crdVersions)
    as [|convs] eqn:Hconvs; [done|].
  apply asVersions_Forall2 in Hconvs.
  pose proof (Forall2_length _ _ _ Hconvs) as Hlen.
  destruct (if TrivialVersions g then trivialVersions crdVersions convs
            else Some convs) as [convs1|] eqn:Htrivial; [|done].
  destruct (preserveUnknownFields g crdVersions convs1) as [convs2| |] eqn:Hswitch;
    try done.
  intros [= <-].
  apply preserveUnknownFields_lookup in Hswitch as [Hlen2 Hswitch].
  assert (List.length convs1 = List.length convs
          /\ forall i ver conv,
               crdVersions !! i = Some ver -> convs !! i = Some conv ->
               exists conv',
                 convs1 !! i = Some conv'
                 /\ if TrivialVersions g && String.eqb ver "v1beta1"
                    then exists crd, conv = ObjV1beta1 crd
                                     /\ conv' = ObjV1beta1 (toTrivialVersions crd)
                    else conv' = conv) as [Hlen1 Hcollapse].
  { destruct (TrivialVersions g).
    - apply trivialVersions_lookup in Htrivial. exact Htrivial.
    - injection Htrivial as <-. split; [done|].
      intros i ver conv _ Hconv. by exists conv. }
  destruct (collect_lookup crdVersions convs2 crds Hnodup ltac:(lia))
    as [Hin Hout].
  split; [|exact Hout].
  intros ver Hver. apply list_elem_of_lookup in Hver as [i Hi].
  destruct (Forall2_lookup_l _ _ _ _ _ Hconvs Hi) as (conv & Hconv & Has).
  destruct (Hcollapse _ _ _ Hi Hconv) as (conv1 & Hconv1 & Hstep1).
  destruct (Hswitch _ _ _ Hi Hconv1) as (conv2 & Hconv2 & Hstep2).
  exists conv, conv2. split; [done|]. split; [|by apply (Hin i)].
  unfold collected.
  destruct (TrivialVersions g && String.eqb ver "v1beta1");
    destruct (clearsPreserveUnknownFields g crdVersions); cbn [orb].
  - destruct Hstep1 as (crd & -> & ->).
    destruct Hstep2 as (_ & crd' & [= <-] & ->). done.
  - destruct Hstep1 as (crd & -> & ->). by subst.
  - subst conv1. by destruct Hstep2 as (_ & crd & -> & ->).
  - by subst.
Qed.

(** The loop over the kinds, from any map. *)
Lemma Generate_kinds_from (g : Generator) (ctx : Ctx) (crdVersions : list string)
    (kubeKinds : list GroupKind) :
  forall crds crds' : gmap string (list Object'),
    NoDup crdVersions ->
    Generate_kinds g ctx crdVersions kubeKinds crds = Done crds' ->
    (forall ver, ver ∈ crdVersions ->
       exists objects,
         Forall2 (fun groupKind obj =>
                    exists conv,
                      AsVersion ctx (attributed ctx groupKind) ver = inr conv
                      /\ collected g crdVersions ver conv = Some obj)
                 kubeKinds objects
         /\ default [] (crds' !! ver) = (default [] (crds !! ver) ++ objects)%list)
    /\ (forall ver, ver ∉ crdVersions -> crds' !! ver = crds !! ver).
Proof.
  induction kubeKinds as [|groupKind kubeKinds IH]; intros crds crds' Hnodup;
    cbn [Generate_kinds].
  - intros [= <-]. split; [|done]. intros ver _. exists [].
    split; [constructor | by rewrite app_nil_r].
  - destruct (Generate_kind g ctx crdVersions groupKind crds) as [crds1| |] eqn:Hkind;
      try done.
    intros Hrest.
    destruct (Generate_kind_collected _ _ _ _ _ _ Hnodup Hkind) as [Hin1 Hout1].
    destruct (IH _ _ Hnodup Hrest) as [Hin Hout]. split.
    + intros ver Hver.
      destruct (Hin1 ver Hver) as (conv & obj & Hconv & Hobj & Hcrds1).
      destruct (Hin ver Hver) as (objects & Hobjects & Hcrds').
      exists (obj :: objects). split; [constructor; eauto|].
      rewrite Hcrds', Hcrds1. simpl. by rewrite <- app_assoc.
    + intros ver Hver. by rewrite Hout, Hout1.
Qed.

(** When no requested version is named twice and the loop over the kinds
    comes to its end, the map it has filled holds, for every requested
    version, one descriptor for each kind, in the order the kinds were
    visited: the conversion of the attributed descriptor of the kind to
    that version, collapsed when trivial versions are asked for and the
    version is [v1beta1], without [PreserveUnknownFields] when the first
    case of the [switch] is taken.  The map has no other entry. *)
Theorem Generate_kinds_one_per_kind (g : Generator) (ctx : Ctx)
    (crdVersions : list string) (kubeKinds : list GroupKind)
    (crds : gmap string (list Object')) :
  NoDup crdVersions ->
  Generate_kinds g ctx crdVersions kubeKinds ∅ = Done crds ->
  (forall ver, ver ∈ crdVersions ->
     Forall2 (fun groupKind obj =>
                exists conv,
                  AsVersion ctx (attributed ctx groupKind) ver = inr conv
                  /\ collected g crdVersions ver conv = Some obj)
             kubeKinds (default [] (crds !! ver)))
  /\ (forall ver, ver ∉ crdVersions -> crds !! ver = None).
Proof.
  intros Hnodup Hrun.
  destruct (Generate_kinds_from _ _ _ _ _ _ Hnodup Hrun) as [Hin Hout]. split.
  - intros ver Hver. destruct (Hin ver Hver) as (objects & Hobjects & ->).
    by rewrite lookup_empty.
  - intros ver Hver. by rewrite Hout, lookup_empty.
Qed.

(** When [v1beta1] is the only version asked for and
    [PreserveUnknownFields] is not set to false, every descriptor the
    loop collects is a [v1beta1] descriptor in which
    [PreserveUnknownFields] is nil, whatever the conversion had put
    there. *)
Theorem Generate_kinds_v1beta1_only (g : Generator) (ctx : Ctx)
    (kubeKinds : list GroupKind) (crds : gmap string (list Object')) :
  PreserveUnknownFields g <> Some false ->
  Generate_kinds g ctx ["v1beta1"] kubeKinds ∅ = Done crds ->
  List.length (default [] (crds !! "v1beta1")) = List.length kubeKinds
  /\ Forall (fun obj =>
               exists crd, obj = ObjV1beta1 crd
                           /\ Spec_PreserveUnknownFields crd = None)
            (default [] (crds !! "v1beta1")).
Proof.
  intros Hflag Hrun.
  assert (NoDup ["v1beta1"]) as Hnodup by (apply NoDup_singleton).
  destruct (Generate_kinds_from _ _ _ _ _ _ Hnodup Hrun) as [Hin _].
  destruct (Hin "v1beta1" ltac:(apply list_elem_of_here))
    as (objects & Hobjects & ->).
  rewrite lookup_empty. simpl. split; [symmetry; eapply Forall2_length, Hobjects|].
  eapply Forall2_Forall_r; [exact Hobjects|]. apply Forall_true.
  intros groupKind obj (conv & _ & Hobj). revert Hobj. unfold collected.
  assert (clearsPreserveUnknownFields g ["v1beta1"] = true) as ->.
  { unfold clearsPreserveUnknownFields.
    by destruct (PreserveUnknownFields g) as [[|]|]. }
  rewrite orb_true_r. destruct conv as [|crd]; [done|]. intros [= <-]. eauto.
Qed.

End CollectedFacts.

(** Two kinds, both versions, trivial versions asked for: under [v1] the
    two attributed descriptors, under [v1beta1] the two collapsed ones. *)
Lemma Generate_kinds_one_per_kind_witness :
  let g := SampleVersions.both in
  let kinds := ["Guestbook.webapp.example.com"; "Visitor.webapp.example.com"] in
  let ctx := SampleVersions.collaborators kinds in
  let a := ObjV1 (attributed ctx "Guestbook.webapp.example.com") in
  let b := ObjV1beta1 (toTrivialVersions SampleVersions.preserved) in
  let crds : gmap string (list Object) := {[ "v1" := [a; a]; "v1beta1" := [b; b] ]} in
  NoDup (CRDVersions g)
  /\ Generate_kinds g ctx (CRDVersions g) kinds ∅ = Done crds
  /\ (forall ver, ver ∈ CRDVersions g ->
        Forall2 (fun groupKind obj =>
                   exists conv,
                     AsVersion ctx (attributed ctx groupKind) ver = inr conv
                     /\ collected g (CRDVersions g) ver conv = Some obj)
                kinds (default [] (crds !! ver)))
  /\ (forall ver, ver ∉ CRDVersions g -> crds !! ver = None).
Proof.
  intros g kinds ctx a b crds.
  assert (NoDup (CRDVersions g)) as Hnodup.
  { apply (bool_decide_unpack _). vm_compute. exact I. }
  assert (Generate_kinds g ctx (CRDVersions g) kinds ∅ = Done crds) as Hrun.
  { vm_compute. reflexivity. }
  split; [exact Hnodup|]. split; [exact Hrun|].
  exact (Generate_kinds_one_per_kind g ctx (CRDVersions g) kinds crds Hnodup Hrun).
Defined.

(** One kind, [v1beta1] only: the conversion preserves unknown fields,
    the descriptor collected does not say so. *)
Lemma Generate_kinds_v1beta1_only_witness :
  let g := SampleVersions.legacy in
  let kinds := ["Guestbook.webapp.example.com"] in
  let ctx := SampleVersions.collaborators kinds in
  let crds : gmap string (list Object) :=
    {[ "v1beta1" :=
         [ObjV1beta1 (withoutPreserveUnknownFields SampleVersions.preserved)] ]} in
  PreserveUnknownFields g <> Some false
  /\ Spec_PreserveUnknownFields SampleVersions.preserved = Some true
  /\ Generate_kinds g ctx ["v1beta1"] kinds ∅ = Done crds
  /\ List.length (default [] (crds !! "v1beta1")) = List.length kinds
  /\ Forall (fun obj =>
               exists crd, obj = ObjV1beta1 crd
                           /\ Spec_PreserveUnknownFields crd = None)
            (default [] (crds !! "v1beta1")).
Proof.
  intros g kinds ctx crds.
  assert (PreserveUnknownFields g <> Some false) as Hflag by discriminate.
  assert (Generate_kinds g ctx ["v1beta1"] kinds ∅ = Done crds) as Hrun.
  { vm_compute. reflexivity. }
  split; [exact Hflag|]. split; [reflexivity|]. split; [exact Hrun|].
  exact (Generate_kinds_v1beta1_only g ctx kinds crds Hflag Hrun).
Defined.

(** ** When the serializer returns *)

Section SerializerRuns.
Context {U : Unicode} {R : Reflection}.
Import jen.

Lemma bind_is_Some {A B : Type} (m : Gen A) (k : A -> Gen B) (l : importsList) :
  is_Some (m l) -> (forall a l1, is_Some (k a l1)) -> is_Some ((m ≫= k) l).
Proof. intros [[a l1] Hm] Hk. rewrite (bind_Some _ _ _ _ _ Hm). apply Hk. Qed.

Lemma ret_is_Some {A : Type} (a : A) (l : importsList) :
  is_Some (mret (M := Gen) a l).
Proof. by eexists. Qed.

Lemma imports_Qual_total (pkg name : string) (l : importsList) :
  is_Some (imports_Qual pkg name l).
Proof. destruct (imports_Qual_run pkg name l) as [l1 ->]. by eexists. Qed.

Lemma generateLiteralValue_total (v : value) (l : importsList) :
  is_Some (generateLiteralValue v l).
Proof.
  unfold generateLiteralValue.
  destruct (negb _); [apply ret_is_Some|].
  destruct (IsCustomType _); [|apply ret_is_Some].
  apply bind_is_Some; [apply imports_Qual_total|]. intros; apply ret_is_Some.
Qed.

Lemma generatePtrLiteralValue_total (v : value) (l : importsList) :
  is_Some (generatePtrLiteralValue v l).
Proof.
  unfold generatePtrLiteralValue.
  destruct (negb _); [apply ret_is_Some|].
  apply bind_is_Some; [apply imports_Qual_total|]. intros.
  destruct (IsCustomType _); apply ret_is_Some.
Qed.

Lemma generateStructWithUnexportedField_total (v : value) (ptrResult : bool)
    (l : importsList) :
  is_Some (generateStructWithUnexportedField v ptrResult l).
Proof.
  destruct v; try apply ret_is_Some. simpl.
  apply bind_is_Some; [apply imports_Qual_total|]. intros.
  destruct (implementsJSON _); apply ret_is_Some.
Qed.

Lemma structType_total (fields : list StructField) (l : importsList) :
  is_Some (forM (fun field =>
                   ft ← generateType (field_Type field);
                   mret (Add (Stmt [Id (field_Name field)]) ft)) fields l).
Proof. destruct (structType_run fields l) as (g & l1 & -> & _). by eexists. Qed.

Section Loops.
Variable gv : value -> bool -> Gen Code.

Lemma sliceElements_total (vs : list value) :
  Forall (fun x => forall o l, is_Some (gv x o l)) vs ->
  forall l, is_Some (sliceElements gv vs l).
Proof.
  induction 1 as [|x vs Hx Hvs IH]; intros l; simpl; [apply ret_is_Some|].
  apply bind_is_Some; [done|]. intros.
  apply bind_is_Some; [done|]. intros. apply ret_is_Some.
Qed.

Lemma mapEntries_total (kvs : list (value * value)) :
  Forall (fun kv => (forall o l, is_Some (gv kv.1 o l))
                    /\ (forall o l, is_Some (gv kv.2 o l))) kvs ->
  forall l, is_Some (mapEntries gv kvs l).
Proof.
  induction 1 as [|[kv vv] kvs [Hk Hv] Hkvs IH]; intros l; simpl;
    [apply ret_is_Some|].
  apply bind_is_Some; [apply Hk|]. intros.
  apply bind_is_Some; [apply Hv|]. intros.
  apply bind_is_Some; [done|]. intros. apply ret_is_Some.
Qed.

Lemma structFields_total (fields : list StructField) :
  forall vs : list value,
    (List.length fields <= List.length vs)%nat ->
    Forall (fun fv => IsZero fv = true \/ forall o l, is_Some (gv fv o l)) vs ->
    forall l, is_Some (structFields gv fields vs l).
Proof.
  induction fields as [|field fields IH]; intros [|fv vs] Hlen Hall l;
    simpl in Hlen; try lia; try apply ret_is_Some.
  inversion Hall as [|? ? Hfv Hvs]; subst. cbn [structFields].
  destruct (_ || _); [apply IH; [lia | done]|].
  destruct (IsZero fv) eqn:Hzero; cbn [negb]; [apply IH; [lia | done]|].
  destruct Hfv as [|Hfv]; [done|].
  apply bind_is_Some; [done|]. intros.
  apply bind_is_Some; [apply IH; [lia | done]|]. intros. apply ret_is_Some.
Qed.

Lemma generateStructValue_with_total (v : value) (ptrResult omitType : bool) :
  match v with
  | VStruct t vs =>
      (List.length (struct_Fields t) <= List.length vs)%nat
      /\ Forall (fun fv => IsZero fv = true \/ forall o l, is_Some (gv fv o l)) vs
  | _ => True
  end ->
  forall l, is_Some (generateStructValue_with gv v ptrResult omitType l).
Proof.
  destruct v; try (intros; apply ret_is_Some).
  intros [Hlen Hall] l. unfold generateStructValue_with.
  apply bind_is_Some.
  { destruct (HasUnexportedField _);
      [apply generateStructWithUnexportedField_total | apply ret_is_Some]. }
  intros j l1.
  assert (is_Some
    ((ts ← (if IsAnonymousStruct (TStruct (struct_PkgPath t) (struct_Name t))
            then g ← forM (fun field =>
                             ft ← generateType (field_Type field);
                             mret (Add (Stmt [Id (field_Name field)]) ft))
                          (struct_Fields t);
                 mret (Stmt [Group GStruct g])
            else imports_Qual (struct_PkgPath t) (struct_Name t));
      d ← structFields gv (struct_Fields t) fields;
      mret (Values (if omitType then Stmt []
                    else if ptrResult then Add (Stmt [Op "&"]) ts else ts)
                   [Dict d])) l1)) as Hnormal.
  { apply bind_is_Some.
    - destruct (IsAnonymousStruct _); [|apply imports_Qual_total].
      apply bind_is_Some; [apply structType_total|]. intros. apply ret_is_Some.
    - intros. apply bind_is_Some; [by apply structFields_total|].
      intros. apply ret_is_Some. }
  destruct j; try apply ret_is_Some. exact Hnormal.
Qed.

End Loops.

(** A serializable value is serialized: nothing panics. *)
Lemma serializable_total (v : value) :
  serializable v = true ->
  (forall o l, is_Some (generateValue v o l))
  /\ (forall ptrResult o l, is_Some (generateStructValue v ptrResult o l)).
Proof.
  induction v as [v IH] using value_children_ind. intros Hv.
  assert (forall ptrResult o l, is_Some (generateStructValue v ptrResult o l))
    as Hstruct.
  { intros ptrResult o. apply generateStructValue_with_total.
    destruct v as [| | | | | | | | | | | |t vs]; try done.
    cbn [serializable children] in *.
    apply andb_true_iff in Hv as [Hlen Hvs]. apply Nat.leb_le in Hlen.
    split; [done|]. rewrite forallb_forall in Hvs.
    rewrite Forall_forall in IH. apply Forall_forall. intros fv Hfv.
    destruct (orb_prop _ _ (Hvs fv ltac:(by apply list_elem_of_In)))
      as [Hzero|Hser]; [by left | right].
    apply (IH fv Hfv Hser). }
  split; [|exact Hstruct].
  intros o l. rewrite generateValue_eq.
  destruct (IsLiteralType (Type_of v)); [apply generateLiteralValue_total|].
  apply bind_is_Some; [apply generateType_total|]. intros ts l1.
  destruct v as [| | | | | |te [[a pointee]|]|e [vs|]|e vs|k e [kvs|]| | |t vs];
    cbn [serializable children] in *; try apply ret_is_Some; try done.
  - inversion IH as [|? ? Hpointee _]; subst.
    destruct (Hpointee Hv) as [Hvalue Hpstruct].
    unfold generatePtrValue, generatePtrValue_with.
    destruct (IsLiteralType te); [apply generatePtrLiteralValue_total|].
    assert (is_Some ((_ ← (if o then generateValue pointee true else mret Nil);
                      e ← generateValue pointee false;
                      mret (Add (Stmt [Op "&"]) e)) l1)) as Hother.
    { apply bind_is_Some; [destruct o; [apply Hvalue | apply ret_is_Some]|].
      intros. apply bind_is_Some; [apply Hvalue|]. intros. apply ret_is_Some. }
    destruct (Kind_of te); try exact Hother. apply Hpstruct.
  - apply bind_is_Some; [|intros; apply ret_is_Some].
    apply sliceElements_total. rewrite forallb_forall in Hv.
    rewrite Forall_forall in IH. apply Forall_forall. intros x Hx.
    apply (IH x Hx). apply Hv. by apply list_elem_of_In.
  - apply bind_is_Some; [|intros; apply ret_is_Some].
    apply sliceElements_total. rewrite forallb_forall in Hv.
    rewrite Forall_forall in IH. apply Forall_forall. intros x Hx.
    apply (IH x Hx). apply Hv. by apply list_elem_of_In.
  - apply bind_is_Some; [|intros; apply ret_is_Some].
    apply mapEntries_total. rewrite forallb_forall in Hv.
    rewrite Forall_forall in IH. apply Forall_forall. intros [kv vv] Hkv.
    specialize (Hv (kv, vv) ltac:(by apply list_elem_of_In)).
    apply andb_true_iff in Hv as [Hk Hvv]. simpl in *.
    assert (kv ∈ flat_map (fun '(kv, vv) => [kv; vv]) kvs
            /\ vv ∈ flat_map (fun '(kv, vv) => [kv; vv]) kvs) as [Hink Hinv].
    { split; apply list_elem_of_In, in_flat_map; exists (kv, vv);
        (split; [by apply list_elem_of_In | simpl; auto]). }
    split; intros; [apply (IH kv Hink Hk) | apply (IH vv Hinv Hvv)].
Qed.

(** A computation that does not look at the registry panics on every
    registry or on none, and returns the same result on all. *)
Lemma stateless_None {A : Type} (m : Gen A) (l l' : importsList) :
  stateless m -> m l = None -> m l' = None.
Proof.
  intros Hm Hl. specialize (Hm l l'). rewrite Hl in Hm.
  by destruct (m l') as [[? ?]|].
Qed.

Lemma stateless_Some {A : Type} (m : Gen A) (l l' : importsList) (a : A) :
  stateless m -> fst <$> m l = Some a -> fst <$> m l' = Some a.
Proof. intros Hm Hl. by rewrite <- (Hm l l'). Qed.

Lemma stateless_structFields_generateValue (fields : list StructField)
    (vs : list value) :
  stateless (structFields generateValue fields vs).
Proof.
  apply stateless_structFields, Forall_forall. intros v _.
  apply (stateless_generateValue v).
Qed.

Lemma stateless_generateStructType (t : StructType) :
  stateless (generateStructType t).
Proof.
  unfold generateStructType.
  destruct (IsAnonymousStruct _); [|apply stateless_imports_Qual].
  apply stateless_bind; [|intros ?; apply stateless_ret].
  apply stateless_forM, Forall_forall. intros field _.
  apply stateless_bind; [apply stateless_generateType|].
  intros ?. apply stateless_ret.
Qed.

Lemma generateStructType_total (t : StructType) (l : importsList) :
  is_Some (generateStructType t l).
Proof.
  unfold generateStructType.
  destruct (IsAnonymousStruct _); [|apply imports_Qual_total].
  apply bind_is_Some; [apply structType_total|]. intros. apply ret_is_Some.
Qed.

(** Off the fallback path, [generateStructValue] writes the prefix the
    context asks for and the entries of the field loop; what these are
    does not depend on the registry. *)
Lemma generateStructValue_code (t : StructType) (vs : list value)
    (ptrResult omitType : bool) (l : importsList) :
  HasUnexportedField t && implementsJSON t = false ->
  exists ts,
    (forall li, fst <$> generateStructType t li = Some ts)
    /\ fst <$> generateStructValue (VStruct t vs) ptrResult omitType l
       = (fun d => Values (if omitType then Stmt []
                           else if ptrResult then Stmt [Op "&"; ts] else ts)
                          [Dict d])
         <$> (fst <$> structFields generateValue (struct_Fields t) vs imports).
Proof.
  intros Hnormal. unfold generateStructValue, generateStructValue_with.
  assert (exists l1,
            (if HasUnexportedField t
             then generateStructWithUnexportedField (VStruct t vs) ptrResult
             else mret Nil) l = Some (Nil, l1)) as [l1 Hj].
  { destruct (HasUnexportedField t); [|by eexists].
    simpl in Hnormal. unfold generateStructWithUnexportedField.
    rewrite Hnormal.
    destruct (imports_Qual_run (struct_PkgPath t) (struct_Name t) l) as [l1 Hq].
    exists l1. by erewrite bind_Some by exact Hq. }
  erewrite bind_Some by exact Hj. cbn [Type_of].
  fold (generateStructType t).
  destruct (generateStructType_total t l1) as [[ts l2] Hts]. exists ts. split.
  { intros li. apply (stateless_Some _ l1); [apply stateless_generateStructType|].
    by rewrite Hts. }
  erewrite bind_Some by exact Hts.
  rewrite <- (stateless_structFields_generateValue (struct_Fields t) vs l2 imports).
  destruct (structFields generateValue (struct_Fields t) vs l2) as [[d l3]|]
    eqn:Hfields.
  - erewrite bind_Some by exact Hfields. by destruct omitType, ptrResult.
  - by erewrite bind_None by exact Hfields.
Qed.

(** Whether [generateStructValue] panics depends on the value only. *)
Lemma generateStructValue_panics_alike (v : value)
    (ptrResult ptrResult' omitType omitType' : bool) (l l' : importsList) :
  generateStructValue v ptrResult omitType l = None ->
  generateStructValue v ptrResult' omitType' l' = None.
Proof.
  destruct v as [| | | | | | | | | | | |t vs]; try done.
  destruct (HasUnexportedField t && implementsJSON t) eqn:Hpath.
  - apply andb_true_iff in Hpath as [Hprivate Hjson].
    intros Hrun.
    pose proof (generateStructValue_json t vs ptrResult omitType l Hprivate Hjson)
      as Hcode.
    by rewrite Hrun in Hcode.
  - intros Hrun.
    destruct (generateStructValue_code t vs ptrResult omitType l Hpath)
      as (ts & Hts & Hcode).
    destruct (generateStructValue_code t vs ptrResult' omitType' l' Hpath)
      as (ts' & Hts' & Hcode').
    rewrite Hrun in Hcode.
    destruct (structFields generateValue (struct_Fields t) vs imports)
      as [[d l1]|]; [done|].
    by destruct (generateStructValue (VStruct t vs) ptrResult' omitType' l')
      as [[? ?]|].
Qed.

(** The loop over the elements of a slice or array: one item for each
    element, in order, [Line] and what [generateValue] writes for the
    element without its type; it panics only where an element does. *)
Lemma sliceElements_run (vs : list value) (l : importsList) :
  match sliceElements generateValue vs l with
  | Some (j, _) =>
      Forall2 (fun x item =>
                 exists c, (forall li, fst <$> generateValue x true li = Some c)
                           /\ item = Stmt [Line; c])
              vs j
  | None => exists x, x ∈ vs /\ forall li, generateValue x true li = None
  end.
Proof.
  revert l; induction vs as [|x vs IH]; intros l; cbn [sliceElements].
  - constructor.
  - destruct (generateValue x true l) as [[c l1]|] eqn:Hx.
    + erewrite bind_Some by exact Hx. specialize (IH l1).
      destruct (sliceElements generateValue vs l1) as [[j l2]|] eqn:Hvs.
      * erewrite bind_Some by exact Hvs. constructor; [|done].
        exists c. split; [|done]. intros li.
        apply (stateless_Some _ l); [apply (stateless_generateValue x)|].
        by rewrite Hx.
      * erewrite bind_None by exact Hvs. destruct IH as (y & Hy & Hpanic).
        exists y. split; [by apply list_elem_of_further | done].
    + erewrite bind_None by exact Hx. exists x.
      split; [apply list_elem_of_here|]. intros li.
      eapply stateless_None; [apply (stateless_generateValue x) | exact Hx].
Qed.

(** The loop over the entries of a map: one entry for each, in the order
    of the range, the key written with its type and the element
    without; it panics only where a key or an element does. *)
Lemma mapEntries_run (kvs : list (value * value)) (l : importsList) :
  match mapEntries generateValue kvs l with
  | Some (d, _) =>
      Forall2 (fun kv entry =>
                 (forall li, fst <$> generateValue kv.1 false li = Some entry.1)
                 /\ (forall li, fst <$> generateValue kv.2 true li = Some entry.2))
              kvs d
  | None =>
      exists kv, kv ∈ kvs
        /\ ((forall li, generateValue kv.1 false li = None)
            \/ (forall li, generateValue kv.2 true li = None))
  end.
Proof.
  revert l; induction kvs as [|[kv vv] kvs IH]; intros l; cbn [mapEntries].
  - constructor.
  - destruct (generateValue kv false l) as [[k l1]|] eqn:Hk.
    + erewrite bind_Some by exact Hk.
      destruct (generateValue vv true l1) as [[e l2]|] eqn:He.
      * erewrite bind_Some by exact He. specialize (IH l2).
        destruct (mapEntries generateValue kvs l2) as [[d l3]|] eqn:Hkvs.
        -- erewrite bind_Some by exact Hkvs. constructor; [|done]. simpl. split.
           ++ intros li.
              apply (stateless_Some _ l); [apply (stateless_generateValue kv)|].
              by rewrite Hk.
           ++ intros li.
              apply (stateless_Some _ l1); [apply (stateless_generateValue vv)|].
              by rewrite He.
        -- erewrite bind_None by exact Hkvs. destruct IH as (y & Hy & Hpanic).
           exists y. split; [by apply list_elem_of_further | done].
      * erewrite bind_None by exact He. exists (kv, vv).
        split; [apply list_elem_of_here|]. right. intros li.
        eapply stateless_None; [apply (stateless_generateValue vv) | exact He].
    + erewrite bind_None by exact Hk. exists (kv, vv).
      split; [apply list_elem_of_here|]. left. intros li.
      eapply stateless_None; [apply (stateless_generateValue kv) | exact Hk].
Qed.

(** Whether [generateValue] panics depends on the value only, not on
    [omitType] and not on the registry. *)
Lemma generateValue_panics_alike (v : value) :
  forall o o' l l', generateValue v o l = None -> generateValue v o' l' = None.
Proof.
  induction v as [v IH] using value_children_ind. intros o o' l l'.
  rewrite !generateValue_eq.
  destruct (IsLiteralType (Type_of v)).
  { intros Hrun. destruct (generateLiteralValue_total v l) as [? Hsome].
    congruence. }
  destruct (generateType_total (Type_of v) l) as [[ts l1] Hts].
  destruct (generateType_total (Type_of v) l') as [[ts' l1'] Hts'].
  erewrite !bind_Some by eassumption. cbv zeta.
  destruct v as [| | | | | |te [[a pointee]|]|e [vs|]|e vs|k e [kvs|]| | |t vs];
    cbn [children] in *; try done.
  - inversion IH as [|? ? Hpointee _]; subst.
    unfold generatePtrValue, generatePtrValue_with.
    destruct (IsLiteralType te).
    { intros Hrun. destruct (generatePtrLiteralValue_total pointee l1) as [? Hsome].
      congruence. }
    assert ((_ ← (if o then generateValue pointee true else mret Nil);
             e ← generateValue pointee false;
             mret (Add (Stmt [Op "&"]) e)) l1 = None ->
            (_ ← (if o' then generateValue pointee true else mret Nil);
             e ← generateValue pointee false;
             mret (Add (Stmt [Op "&"]) e)) l1' = None) as Hother.
    { intros Hrun.
      assert (forall b li, generateValue pointee b li = None) as Hpanic.
      { destruct ((if o then generateValue pointee true else mret Nil) l1)
          as [[c l2]|] eqn:Hfirst.
        - erewrite bind_Some in Hrun by exact Hfirst.
          destruct (generateValue pointee false l2) as [[c' l3]|] eqn:Hsecond;
            [by erewrite bind_Some in Hrun by exact Hsecond|].
          intros b li. eapply Hpointee, Hsecond.
        - destruct o; [|done]. intros b li. eapply Hpointee, Hfirst. }
      destruct ((if o' then generateValue pointee true else mret Nil) l1')
        as [[c l2]|] eqn:Hfirst.
      - erewrite bind_Some by exact Hfirst. apply bind_None, Hpanic.
      - by apply bind_None. }
    destruct (Kind_of te); try exact Hother.
    apply generateStructValue_panics_alike.
  - intros Hrun. apply bind_None.
    destruct (sliceElements generateValue vs l1) as [[j l2]|] eqn:Hvs;
      [by erewrite bind_Some in Hrun by exact Hvs|].
    eapply stateless_None; [|exact Hvs].
    apply stateless_sliceElements, Forall_forall. intros x _ ?.
    apply (stateless_generateValue x).
  - intros Hrun. apply bind_None.
    destruct (sliceElements generateValue vs l1) as [[j l2]|] eqn:Hvs;
      [by erewrite bind_Some in Hrun by exact Hvs|].
    eapply stateless_None; [|exact Hvs].
    apply stateless_sliceElements, Forall_forall. intros x _ ?.
    apply (stateless_generateValue x).
  - intros Hrun. apply bind_None.
    destruct (mapEntries generateValue kvs l1) as [[d l2]|] eqn:Hkvs;
      [by erewrite bind_Some in Hrun by exact Hkvs|].
    eapply stateless_None; [|exact Hkvs].
    apply stateless_mapEntries, Forall_forall. intros x _ ?.
    apply (stateless_generateValue x).
  - apply generateStructValue_panics_alike.
Qed.

Lemma structFields_zero (gv : value -> bool -> Gen Code)
    (fields : list StructField) :
  forall (vs : list value) (l : importsList),
    (List.length fields <= List.length vs)%nat ->
    forallb IsZero vs = true ->
    structFields gv fields vs l = Some ([], l).
Proof.
  induction fields as [|field fields IH]; intros [|fv vs] l Hlen Hzero;
    simpl in Hlen; try lia; try done.
  cbn [forallb] in Hzero. apply andb_true_iff in Hzero as [Hfv Hvs].
  cbn [structFields]. rewrite Hfv. cbn [negb].
  destruct (_ || _); apply IH; (lia || done).
Qed.

(** A value in which no nil pointer is met, except as a field of a
    struct, and in which every struct has a value for each of its
    fields, is serialized: [generateValue] returns, with or without the
    type prefix, on every registry, whatever the predicates of [golib]
    answer. *)
Theorem generateValue_serializable (v : value) (omitType : bool) (l : importsList) :
  serializable v = true ->
  exists code l', generateValue v omitType l = Some (code, l').
Proof.
  intros Hv. destruct (serializable_total v Hv) as [Hvalue _].
  destruct (Hvalue omitType l) as [[code l'] Hrun]. eauto.
Qed.

(** A nil pointer whose type is not a literal type makes [generateValue]
    panic when it is the value itself and when it is an element of a
    slice or of an array: only as a field of a struct, where it is a
    zero value and not written, is it accepted. *)
Theorem generateValue_nil_pointer (te : rtype) :
  IsLiteralType (TPtr te) = false ->
  (forall o l, generateValue (VPtr te None) o l = None)
  /\ (forall v e vs o l,
        v = VSlice e (Some vs) \/ v = VArray e vs ->
        IsLiteralType (Type_of v) = false ->
        VPtr te None ∈ vs ->
        generateValue v o l = None).
Proof.
  intros Hptr.
  assert (forall o l, generateValue (VPtr te None) o l = None) as Hnil.
  { intros o l. rewrite generateValue_eq. cbn [Type_of]. rewrite Hptr.
    destruct (generateType_total (TPtr te) l) as [[ts l1] Hts].
    by erewrite bind_Some by exact Hts. }
  split; [exact Hnil|].
  intros v e vs o l Hv Hlit Hin. rewrite generateValue_eq, Hlit.
  destruct (generateType_total (Type_of v) l) as [[ts l1] Hts].
  erewrite bind_Some by exact Hts. cbv zeta.
  pose proof (sliceElements_run vs l1) as Hrun.
  assert (sliceElements generateValue vs l1 = None) as Hpanic.
  { destruct (sliceElements generateValue vs l1) as [[j l2]|]; [|done].
    apply list_elem_of_lookup in Hin as [i Hi].
    destruct (Forall2_lookup_l _ _ _ _ _ Hrun Hi) as (item & _ & c & Hc & _).
    specialize (Hc l). by rewrite Hnil in Hc. }
  destruct Hv as [-> | ->]; by apply bind_None.
Qed.

(** A slice or an array whose type is not a literal type is written as
    the type, unless it is to be omitted, and one item for each element,
    in order: a line break and what [generateValue] writes for the
    element without its type; a line break follows the last element.
    [generateValue] panics only where it panics on an element.  A nil
    slice is written as the empty slice is. *)
Theorem generateValue_slice (v : value) (e : rtype) (vs : list value)
    (omitType : bool) (l : importsList) :
  v = VSlice e (Some vs) \/ v = VArray e vs ->
  IsLiteralType (Type_of v) = false ->
  match generateValue v omitType l with
  | Some (code, _) =>
      exists ts items,
        (forall li, fst <$> generateType (Type_of v) li = Some ts)
        /\ Forall2 (fun x item =>
                      exists c,
                        (forall li, fst <$> generateValue x true li = Some c)
                        /\ item = Stmt [Line; c])
                   vs items
        /\ code = Values (if omitType then Stmt [] else ts)
                         (items ++ match vs with
                                   | [] => []
                                   | _ :: _ => [Stmt [Line]]
                                   end)
  | None => exists x, x ∈ vs /\ forall li, generateValue x true li = None
  end
  /\ generateValue (VSlice e None) omitType l
     = generateValue (VSlice e (Some [])) omitType l.
Proof.
  intros Hv Hlit. split.
  - rewrite generateValue_eq, Hlit.
    destruct (generateType_total (Type_of v) l) as [[ts l1] Hts].
    erewrite bind_Some by exact Hts. cbv zeta.
    pose proof (sliceElements_run vs l1) as Hrun.
    assert (forall li, fst <$> generateType (Type_of v) li = Some ts) as Hprefix.
    { intros li. apply (stateless_Some _ l); [apply stateless_generateType|].
      by rewrite Hts. }
    destruct (sliceElements generateValue vs l1) as [[j l2]|] eqn:Hvs.
    + destruct Hv as [-> | ->]; erewrite bind_Some by exact Hvs;
        exists ts, j; (split; [done|]); (split; [done|]);
        destruct vs; by rewrite ?app_nil_r.
    + destruct Hv as [-> | ->]; by erewrite bind_None by exact Hvs.
  - rewrite !generateValue_eq. cbn [Type_of].
    destruct (IsLiteralType (TSlice e)); [done|].
    destruct (generateType_total (TSlice e) l) as [[ts l1] Hts].
    by erewrite !bind_Some by exact Hts.
Qed.

(** A map whose type is not a literal type is written as the type,
    unless it is to be omitted, and one entry for each entry of the map,
    in the order of the range: the key as [generateValue] writes it with
    its type, the element as it writes it without.  [generateValue]
    panics only where it panics on a key or on an element.  A nil map is
    written as the empty map is. *)
Theorem generateValue_map (k e : rtype) (kvs : list (value * value))
    (omitType : bool) (l : importsList) :
  IsLiteralType (TMap k e) = false ->
  match generateValue (VMap k e (Some kvs)) omitType l with
  | Some (code, _) =>
      exists ts d,
        (forall li, fst <$> generateType (TMap k e) li = Some ts)
        /\ Forall2 (fun kv entry =>
                      (forall li, fst <$> generateValue kv.1 false li = Some entry.1)
                      /\ (forall li, fst <$> generateValue kv.2 true li = Some entry.2))
                   kvs d
        /\ code = Values (if omitType then Stmt [] else ts) [Dict d]
  | None =>
      exists kv, kv ∈ kvs
        /\ ((forall li, generateValue kv.1 false li = None)
            \/ (forall li, generateValue kv.2 true li = None))
  end
  /\ generateValue (VMap k e None) omitType l
     = generateValue (VMap k e (Some [])) omitType l.
Proof.
  intros Hlit. rewrite !generateValue_eq. cbn [Type_of]. rewrite Hlit.
  destruct (generateType_total (TMap k e) l) as [[ts l1] Hts].
  erewrite !bind_Some by exact Hts. cbv zeta. split; [|done].
  pose proof (mapEntries_run kvs l1) as Hrun.
  destruct (mapEntries generateValue kvs l1) as [[d l2]|] eqn:Hkvs.
  - erewrite bind_Some by exact Hkvs. exists ts, d. split; [|done].
    intros li. apply (stateless_Some _ l); [apply stateless_generateType|].
    by rewrite Hts.
  - by erewrite bind_None by exact Hkvs.
Qed.

(** A struct value that is zero, off the fallback path, is written as
    its type, unless it is to be omitted, and an empty literal: no field
    is written and nothing panics. *)
Theorem generateValue_zero_struct (t : StructType) (vs : list value)
    (omitType : bool) (l : importsList) :
  IsZero (VStruct t vs) = true ->
  (List.length (struct_Fields t) <= List.length vs)%nat ->
  HasUnexportedField t && implementsJSON t = false ->
  IsLiteralType (TStruct (struct_PkgPath t) (struct_Name t)) = false ->
  exists ts,
    (forall li, fst <$> generateStructType t li = Some ts)
    /\ fst <$> generateValue (VStruct t vs) omitType l
       = Some (Values (if omitType then Stmt [] else ts) [Dict []]).
Proof.
  intros Hzero Hlen Hnormal Hlit. rewrite generateValue_eq. cbn [Type_of].
  rewrite Hlit.
  destruct (generateType_total (TStruct (struct_PkgPath t) (struct_Name t)) l)
    as [[ts0 l1] Hts0].
  erewrite bind_Some by exact Hts0. cbv zeta.
  destruct (generateStructValue_code t vs false omitType l1 Hnormal)
    as (ts & Hts & Hcode).
  exists ts. split; [done|]. rewrite Hcode.
  by rewrite (structFields_zero _ _ _ imports Hlen Hzero).
Qed.

(** A pointer to a struct, off the fallback path: where the type is
    omitted, the pointer is written exactly as the struct it points to
    is, the [&] being left out with the type; where the type is written,
    the pointer is written as the struct is, [&] put in front. *)
Theorem generateValue_pointer_to_struct (t : StructType) (vs : list value)
    (addr : Z) (l l' : importsList) :
  let te := TStruct (struct_PkgPath t) (struct_Name t) in
  let entries := fst <$> structFields generateValue (struct_Fields t) vs imports in
  IsLiteralType (TPtr te) = false ->
  IsLiteralType te = false ->
  HasUnexportedField t && implementsJSON t = false ->
  fst <$> generateValue (VPtr te (Some (addr, VStruct t vs))) true l
  = fst <$> generateValue (VStruct t vs) true l'
  /\ exists ts,
      (forall li, fst <$> generateStructType t li = Some ts)
      /\ fst <$> generateValue (VStruct t vs) false l'
         = (fun d => Values ts [Dict d]) <$> entries
      /\ fst <$> generateValue (VPtr te (Some (addr, VStruct t vs))) false l
         = (fun d => Values (Stmt [Op "&"; ts]) [Dict d]) <$> entries.
Proof.
  intros te entries Hptr Hte Hnormal.
  assert (forall o li,
            fst <$> generateValue (VPtr te (Some (addr, VStruct t vs))) o li
            = fst <$> generateStructValue (VStruct t vs) true o imports) as Hpointer.
  { intros o li. rewrite generateValue_eq. cbn [Type_of]. rewrite Hptr.
    destruct (generateType_total (TPtr te) li) as [[ts0 l1] Hts0].
    erewrite bind_Some by exact Hts0. cbv zeta.
    unfold generatePtrValue, generatePtrValue_with. rewrite Hte. cbn [Kind_of te].
    apply (stateless_generateValue (VStruct t vs)). }
  assert (forall o li,
            fst <$> generateValue (VStruct t vs) o li
            = fst <$> generateStructValue (VStruct t vs) false o imports) as Hvalue.
  { intros o li. rewrite generateValue_eq. cbn [Type_of]. fold te. rewrite Hte.
    destruct (generateType_total te li) as [[ts0 l1] Hts0].
    erewrite bind_Some by exact Hts0. cbv zeta.
    apply (stateless_generateValue (VStruct t vs)). }
  destruct (generateStructValue_code t vs false false imports Hnormal)
    as (ts & Hts & Hcode).
  split.
  - rewrite Hpointer, Hvalue.
    destruct (generateStructValue_code t vs true true imports Hnormal)
      as (ts1 & _ & ->).
    by destruct (generateStructValue_code t vs false true imports Hnormal)
      as (ts2 & _ & ->).
  - exists ts. split; [done|]. split; [by rewrite Hvalue|].
    rewrite Hpointer.
    destruct (generateStructValue_code t vs true false imports Hnormal)
      as (ts1 & Hts1 & ->).
    specialize (Hts imports). rewrite (Hts1 imports) in Hts. by injection Hts as ->.
Qed.

(** A pointer to a value that is neither a scalar nor a struct (a
    slice, a map, another pointer): [&] and what [generateValue] writes
    for the value with its type, whether the type is to be omitted or
    not; it panics exactly when [generateValue] panics on the value. *)
Theorem generateValue_pointer_to_other (te : rtype) (addr : Z) (pointee : value)
    (omitType : bool) (l : importsList) :
  IsLiteralType (TPtr te) = false ->
  IsLiteralType te = false ->
  Kind_of te <> Struct ->
  fst <$> generateValue (VPtr te (Some (addr, pointee))) omitType l
  = (fun c => Stmt [Op "&"; c]) <$> (fst <$> generateValue pointee false l).
Proof.
  intros Hptr Hte Hkind. rewrite generateValue_eq. cbn [Type_of]. rewrite Hptr.
  destruct (generateType_total (TPtr te) l) as [[ts0 l1] Hts0].
  erewrite bind_Some by exact Hts0. cbv zeta.
  unfold generatePtrValue, generatePtrValue_with. rewrite Hte.
  assert (fst <$> (_ ← (if omitType then generateValue pointee true else mret Nil);
                   c ← generateValue pointee false;
                   mret (Add (Stmt [Op "&"]) c)) l1
          = (fun c => Stmt [Op "&"; c]) <$> (fst <$> generateValue pointee false l))
    as Hother.
  { destruct ((if omitType then generateValue pointee true else mret Nil) l1)
      as [[c0 l2]|] eqn:Hfirst.
    - erewrite bind_Some by exact Hfirst.
      rewrite (proj1 (stateless_generateValue pointee) false l l2).
      destruct (generateValue pointee false l2) as [[c l3]|] eqn:Hsecond.
      + by erewrite bind_Some by exact Hsecond.
      + by erewrite bind_None by exact Hsecond.
    - erewrite bind_None by exact Hfirst. destruct omitType; [|done].
      by rewrite (generateValue_panics_alike pointee true false l1 l Hfirst). }
  destruct (Kind_of te); done.
Qed.

End SerializerRuns.

(** A struct whose pointer field is nil is serialized. *)
Lemma generateValue_serializable_witness :
  serializable SampleValues.spec_without_template = true
  /\ exists code l',
      generateValue (R := Sample.golib) SampleValues.spec_without_template
                    false imports
      = Some (code, l').
Proof.
  exact (conj eq_refl
           (generateValue_serializable (R := Sample.golib)
              SampleValues.spec_without_template false imports eq_refl)).
Defined.

(** A nil [*T], alone and after a pointer that is not nil in a [[]*T]. *)
Lemma generateValue_nil_pointer_witness :
  IsLiteralType (Reflection := Sample.golib) (TPtr SampleValues.T_t) = false
  /\ generateValue (R := Sample.golib) (VPtr SampleValues.T_t None) false imports
     = None
  /\ generateValue (R := Sample.golib) SampleValues.webs_and_nil false imports
     = None.
Proof.
  destruct (generateValue_nil_pointer (R := Sample.golib) SampleValues.T_t eq_refl)
    as [Halone Helement].
  split; [reflexivity|]. split; [apply Halone|].
  apply (Helement _ (TPtr SampleValues.T_t)
                  [SampleValues.web_pointer; VPtr SampleValues.T_t None]);
    [by left | reflexivity |].
  apply list_elem_of_further, list_elem_of_here.
Defined.

(** The slice [[]*T] of two pointers. *)
Lemma generateValue_slice_witness :
  let e := TPtr SampleValues.T_t in
  let vs := [SampleValues.web_pointer; SampleValues.web_pointer] in
  (SampleValues.webs = VSlice e (Some vs) \/ SampleValues.webs = VArray e vs)
  /\ IsLiteralType (Reflection := Sample.golib) (Type_of SampleValues.webs) = false
  /\ match generateValue (R := Sample.golib) SampleValues.webs false imports with
     | Some (code, _) =>
         exists ts items,
           (forall li,
              fst <$> generateType (R := Sample.golib) (Type_of SampleValues.webs) li
              = Some ts)
           /\ Forall2 (fun x item =>
                         exists c,
                           (forall li,
                              fst <$> generateValue (R := Sample.golib) x true li
                              = Some c)
                           /\ item = jen.Stmt [jen.Line; c])
                      vs items
           /\ code = jen.Values ts (items ++ [jen.Stmt [jen.Line]])
     | None =>
         exists x, x ∈ vs
           /\ forall li, generateValue (R := Sample.golib) x true li = None
     end
  /\ generateValue (R := Sample.golib) (VSlice e None) false imports
     = generateValue (R := Sample.golib) (VSlice e (Some [])) false imports.
Proof.
  intros e vs.
  assert (SampleValues.webs = VSlice e (Some vs) \/ SampleValues.webs = VArray e vs)
    as Hv by (by left).
  destruct (generateValue_slice (R := Sample.golib) SampleValues.webs e vs
              false imports Hv eq_refl) as [Hrun Hnil].
  exact (conj Hv (conj eq_refl (conj Hrun Hnil))).
Defined.

(** The map [map[string]int32{"web": 3}]. *)
Lemma generateValue_map_witness :
  let k := Sample.string_t in
  let e := Sample.int32_t in
  let kvs := [(VString "" "string" "web", Sample.three)] in
  IsLiteralType (Reflection := Sample.golib) (TMap k e) = false
  /\ match generateValue (R := Sample.golib) (VMap k e (Some kvs)) false imports with
     | Some (code, _) =>
         exists ts d,
           (forall li,
              fst <$> generateType (R := Sample.golib) (TMap k e) li = Some ts)
           /\ Forall2 (fun kv entry =>
                         (forall li,
                            fst <$> generateValue (R := Sample.golib) kv.1 false li
                            = Some entry.1)
                         /\ (forall li,
                               fst <$> generateValue (R := Sample.golib) kv.2 true li
                               = Some entry.2))
                      kvs d
           /\ code = jen.Values ts [jen.Dict d]
     | None =>
         exists kv, kv ∈ kvs
           /\ ((forall li, generateValue (R := Sample.golib) kv.1 false li = None)
               \/ (forall li, generateValue (R := Sample.golib) kv.2 true li = None))
     end
  /\ generateValue (R := Sample.golib) (VMap k e None) false imports
     = generateValue (R := Sample.golib) (VMap k e (Some [])) false imports.
Proof.
  intros k e kvs.
  exact (conj eq_refl
           (generateValue_map (R := Sample.golib) k e kvs false imports eq_refl)).
Defined.

(** [T{}], all of whose fields are zero. *)
Lemma generateValue_zero_struct_witness :
  let vs := children SampleValues.zero_T in
  IsZero (VStruct Sample.T vs) = true
  /\ (List.length (struct_Fields Sample.T) <= List.length vs)%nat
  /\ HasUnexportedField (Reflection := Sample.golib) Sample.T
     && implementsJSON Sample.T = false
  /\ IsLiteralType (Reflection := Sample.golib)
       (TStruct (struct_PkgPath Sample.T) (struct_Name Sample.T)) = false
  /\ exists ts,
      (forall li,
         fst <$> generateStructType (R := Sample.golib) Sample.T li = Some ts)
      /\ fst <$> generateValue (R := Sample.golib) (VStruct Sample.T vs) false imports
         = Some (jen.Values ts [jen.Dict []]).
Proof.
  intros vs.
  assert (List.length (struct_Fields Sample.T) <= List.length vs)%nat as Hlen
    by (vm_compute; lia).
  exact (conj eq_refl (conj Hlen (conj eq_refl (conj eq_refl
    (generateValue_zero_struct (R := Sample.golib) Sample.T vs false imports
       eq_refl Hlen eq_refl eq_refl))))).
Defined.

(** A [*T] and the [T] it points to. *)
Lemma generateValue_pointer_to_struct_witness :
  let vs := children Sample.t_web in
  let te := TStruct (struct_PkgPath Sample.T) (struct_Name Sample.T) in
  let entries :=
    fst <$> structFields (R := Sample.golib) (generateValue (R := Sample.golib))
                         (struct_Fields Sample.T) vs imports in
  IsLiteralType (Reflection := Sample.golib) (TPtr te) = false
  /\ IsLiteralType (Reflection := Sample.golib) te = false
  /\ HasUnexportedField (Reflection := Sample.golib) Sample.T
     && implementsJSON Sample.T = false
  /\ fst <$> generateValue (R := Sample.golib)
               (VPtr te (Some (824633901568, VStruct Sample.T vs))) true imports
     = fst <$> generateValue (R := Sample.golib) (VStruct Sample.T vs) true imports
  /\ exists ts,
      (forall li,
         fst <$> generateStructType (R := Sample.golib) Sample.T li = Some ts)
      /\ fst <$> generateValue (R := Sample.golib) (VStruct Sample.T vs) false imports
         = (fun d => jen.Values ts [jen.Dict d]) <$> entries
      /\ fst <$> generateValue (R := Sample.golib)
                   (VPtr te (Some (824633901568, VStruct Sample.T vs))) false imports
         = (fun d => jen.Values (jen.Stmt [jen.Op "&"; ts]) [jen.Dict d]) <$> entries.
Proof.
  intros vs te entries.
  exact (conj eq_refl (conj eq_refl (conj eq_refl
    (generateValue_pointer_to_struct (R := Sample.golib) Sample.T vs 824633901568
       imports imports eq_refl eq_refl eq_refl)))).
Defined.

(** [&[]string{"web"}], the type to be omitted. *)
Lemma generateValue_pointer_to_other_witness :
  let te := TSlice Sample.string_t in
  let pointee := VSlice Sample.string_t (Some [VString "" "string" "web"]) in
  IsLiteralType (Reflection := Sample.golib) (TPtr te) = false
  /\ IsLiteralType (Reflection := Sample.golib) te = false
  /\ Kind_of te <> Struct
  /\ fst <$> generateValue (R := Sample.golib)
               (VPtr te (Some (824633901824, pointee))) true imports
     = (fun c => jen.Stmt [jen.Op "&"; c])
       <$> (fst <$> generateValue (R := Sample.golib) pointee false imports).
Proof.
  intros te pointee.
  assert (Kind_of te <> Struct) as Hkind by discriminate.
  exact (conj eq_refl (conj eq_refl (conj Hkind
    (generateValue_pointer_to_other (R := Sample.golib) te 824633901824 pointee
       true imports eq_refl eq_refl Hkind)))).
Defined.

(** ** The attribution *)

Section Attribution.
Context {V1Rest : Type}.

(** [addAttribution] leaves a descriptor with a map of annotations that
    is not nil, in which the key of the generator holds the version
    given and every other key holds what it held, or nothing when the
    descriptor had no annotations; a value the key held is replaced, so
    that attributing twice leaves the version given last.  The rest of
    the descriptor is not touched. *)
Theorem addAttribution_annotations (version : string)
    (crd : @V1CustomResourceDefinition V1Rest) :
  exists annotations,
    Annotations (addAttribution version crd) = Some annotations
    /\ annotations !! "controller-gen.kubebuilder.io/version" = Some version
    /\ (forall key, key <> "controller-gen.kubebuilder.io/version" ->
          annotations !! key = Annotations crd ≫= (.!! key))
    /\ v1_rest (addAttribution version crd) = v1_rest crd
    /\ forall version',
         addAttribution version (addAttribution version' crd)
         = addAttribution version crd.
Proof.
  unfold addAttribution. eexists. split; [reflexivity|]. simpl.
  split; [apply lookup_insert_eq|]. split; [|split; [done|]].
  - intros key Hkey. rewrite lookup_insert_ne by done.
    destruct (Annotations crd); [done | apply lookup_empty].
  - intros version'. by rewrite insert_insert_eq.
Qed.

End Attribution.

(** ** The functions of the generated file *)

Section Functions.
Context {U : Unicode} {R : Reflection}.
Import jen.

(** What [GenerateCrds] writes for a version: the comment and the
    function, which returns the slice of what [GenerateValue] writes for
    each descriptor. *)
Lemma GenerateCrds_version_code (version : string) (objects : list value)
    (l : importsList) :
  fst <$> GenerateCrds_version version objects l
  = (fun values =>
       let slice :=
         Stmt [ Group GIndex []; Op "*";
                Qual ("k8s.io/apiextensions-apiserver/pkg/apis/apiextensions/"
                      +:+ version)
                     "CustomResourceDefinition" ] in
       [ Stmt [Comment "//nolint"];
         Stmt [ Keyword "func"; Id ("New" +:+ Capitalize version +:+ "CRDs");
                Group GParams []; slice;
                Group GBlock [Stmt [Group GReturn [Values slice values]]] ] ])
    <$> mapM (fun obj => fst <$> generateValue obj false imports) objects.
Proof.
  unfold GenerateCrds_version.
  change (mapM (fun obj => fst <$> generateValue obj false imports) objects)
    with (mapM (fun obj => fst <$> GenerateValue obj imports) objects).
  rewrite <- (forM_code GenerateValue objects l)
    by (intros obj; apply (stateless_generateValue obj)).
  destruct (forM GenerateValue objects l) as [[values l1]|] eqn:Hrun.
  - by erewrite bind_Some by exact Hrun.
  - by erewrite bind_None by exact Hrun.
Qed.

(** The file [GenerateCrds] builds has, for each version in the order
    of the range, a comment and a function named after the capitalized
    version; the function returns a slice literal with one element for
    each descriptor of the version, in order, which is what
    [generateValue] writes for the descriptor with its type.
    [GenerateCrds] panics only where [generateValue] panics on a
    descriptor. *)
Theorem GenerateCrds_functions (cw : codeWriter) (crds : list (string * list value))
    (l : importsList) :
  match GenerateCrds cw crds l with
  | Some (crdsfile, _) =>
      file_package crdsfile = packageName cw
      /\ exists blocks,
          file_body crdsfile = List.concat blocks
          /\ Forall2
               (fun entry block =>
                  exists values,
                    Forall2 (fun obj c =>
                               forall li, fst <$> generateValue obj false li = Some c)
                            entry.2 values
                    /\ let slice :=
                         Stmt [ Group GIndex []; Op "*";
                                Qual ("k8s.io/apiextensions-apiserver/pkg/apis/apiextensions/"
                                      +:+ entry.1)
                                     "CustomResourceDefinition" ] in
                       block
                       = [ Stmt [Comment "//nolint"];
                           Stmt [ Keyword "func";
                                  Id ("New" +:+ Capitalize entry.1 +:+ "CRDs");
                                  Group GParams []; slice;
                                  Group GBlock
                                    [Stmt [Group GReturn [Values slice values]]] ] ])
               crds blocks
  | None =>
      exists entry obj,
        entry ∈ crds /\ obj ∈ entry.2
        /\ forall li, generateValue obj false li = None
  end.
Proof.
  pose proof (GenerateCrds_blocks cw crds l) as Hfile.
  destruct (GenerateCrds cw crds l) as [[crdsfile l1]|].
  - destruct (mapM _ crds) as [blocks|] eqn:Hblocks; [|done].
    injection Hfile as ->. split; [done|]. exists blocks. split; [done|].
    apply mapM_Some in Hblocks.
    eapply Forall2_impl; [exact Hblocks|]. intros [version objects] block.
    cbn [fst snd]. rewrite GenerateCrds_version_code.
    destruct (mapM _ objects) as [values|] eqn:Hvalues; [|done].
    intros [= <-]. exists values. split; [|done].
    apply mapM_Some in Hvalues.
    eapply Forall2_impl; [exact Hvalues|]. intros obj c Hc li.
    by rewrite <- (proj1 (stateless_generateValue obj) false imports li).
  - destruct (mapM _ crds) as [blocks|] eqn:Hblocks; [done|].
    apply mapM_None, Exists_exists in Hblocks as ([version objects] & Hin & Hpanic).
    cbn [fst snd] in Hpanic. rewrite GenerateCrds_version_code in Hpanic.
    destruct (mapM _ objects) as [values|] eqn:Hvalues; [done|].
    apply mapM_None, Exists_exists in Hvalues as (obj & Hobj & Hnone).
    exists (version, objects), obj. split; [done|]. split; [done|].
    intros li.
    destruct (generateValue obj false imports) as [[? ?]|] eqn:Hrun; [done|].
    eapply stateless_None; [apply (stateless_generateValue obj) | exact Hrun].
Qed.

End Functions.

(** ** When [Generate] succeeds *)

Section Succeeds.
Context {Validation Subresources Column Rest V1Rest UpstreamError GroupKind : Type}.
Context {U : Unicode} {R : Reflection}.
#[local] Abbreviation Ctx' :=
  (@GenerationContext Validation Subresources Column Rest V1Rest UpstreamError GroupKind).
#[local] Abbreviation Object'' :=
  (@Object Validation Subresources Column Rest V1Rest).

Lemma asVersions_inr (ctx : Ctx') (crdRaw : V1CustomResourceDefinition)
    (crdVersions : list string) :
  (forall ver, ver ∈ crdVersions -> exists conv, AsVersion ctx crdRaw ver = inr conv) ->
  exists versionedCRDs, asVersions ctx crdRaw crdVersions = inr versionedCRDs.
Proof.
  induction crdVersions as [|ver crdVersions IH]; intros Hall; simpl; [by eexists|].
  destruct (Hall ver ltac:(apply list_elem_of_here)) as [conv ->].
  destruct IH as [convs ->]; [|by eexists].
  intros w Hw. apply Hall. by apply list_elem_of_further.
Qed.

Lemma trivialVersions_Some (crdVersions : list string) :
  forall versionedCRDs : list Object'',
    Forall2 (fun ver conv =>
               String.eqb ver "v1beta1" = true -> exists crd, conv = ObjV1beta1 crd)
            crdVersions versionedCRDs ->
    is_Some (trivialVersions crdVersions versionedCRDs).
Proof.
  induction crdVersions as [|ver crdVersions IH]; intros versionedCRDs Hall;
    inversion Hall as [|? conv ? convs Hconv Hconvs]; subst; simpl; [by eexists|].
  destruct (IH _ Hconvs) as [rest ->].
  destruct (String.eqb ver "v1beta1"); [|by eexists].
  destruct (Hconv eq_refl) as [crd ->]. by eexists.
Qed.

(** One pass of the loop over the kinds goes through when every
    conversion succeeds and gives a descriptor of the version the
    collapse and the [switch] expect, and unknown fields are to be
    preserved for [v1beta1] alone. *)
Lemma Generate_kind_Done (g : Generator) (ctx : Ctx') (crdVersions : list string)
    (groupKind : GroupKind) (crds : gmap string (list Object'')) :
  (forall ver, ver ∈ crdVersions ->
     exists conv, AsVersion ctx (attributed ctx groupKind) ver = inr conv
                  /\ is_Some (collected g crdVersions ver conv)) ->
  (PreserveUnknownFields g = Some true -> v1beta1Only crdVersions = true) ->
  exists crds', Generate_kind (UpstreamError := UpstreamError)
                  g ctx crdVersions groupKind crds = Done crds'.
Proof.
  intros Hconv Hflag. unfold Generate_kind. fold (attributed ctx groupKind).
  destruct (asVersions_inr ctx (attributed ctx groupKind) crdVersions)
    as [convs Hconvs].
  { intros ver Hver. destruct (Hconv ver Hver) as (conv & ? & _). eauto. }
  rewrite Hconvs. apply asVersions_Forall2 in Hconvs.
  assert (forall i ver conv,
            crdVersions !! i = Some ver -> convs !! i = Some conv ->
            is_Some (collected g crdVersions ver conv)) as Hcollected.
  { intros i ver conv Hi Hc.
    destruct (Hconv ver ltac:(by eapply list_elem_of_lookup_2)) as (conv' & Has & ?).
    destruct (Forall2_lookup_l _ _ _ _ _ Hconvs Hi) as (conv'' & Hc'' & Has').
    congruence. }
  assert (exists convs1,
            (if TrivialVersions g then trivialVersions crdVersions convs
             else Some convs) = Some convs1) as [convs1 Htrivial].
  { destruct (TrivialVersions g) eqn:Htriv; [|by eexists].
    destruct (trivialVersions_Some crdVersions convs) as [convs1 ->];
      [|by eexists].
    apply Forall2_same_length_lookup.
    split; [by eapply Forall2_length|].
    intros i ver conv Hi Hc Hver.
    destruct (Hcollected i ver conv Hi Hc) as [obj Hobj].
    unfold collected in Hobj. rewrite Htriv, Hver in Hobj. cbn [andb orb] in Hobj.
    destruct conv as [|crd]; [done | by exists crd]. }
  rewrite Htrivial.
  assert (List.length convs1 = List.length convs
          /\ forall i ver conv,
               crdVersions !! i = Some ver -> convs !! i = Some conv ->
               exists conv', convs1 !! i = Some conv'
                 /\ ((exists crd, conv' = ObjV1beta1 crd) \/ conv' = conv))
    as [Hlen1 Hstep].
  { destruct (TrivialVersions g).
    - apply trivialVersions_lookup in Htrivial as [Hlen Hlookup].
      split; [done|]. intros i ver conv Hi Hc.
      destruct (Hlookup i ver conv Hi Hc) as (conv' & Hc' & Hrel).
      exists conv'. split; [done|].
      destruct (String.eqb ver "v1beta1"); [left | by right].
      destruct Hrel as (crd & _ & ->). by eexists.
    - injection Htrivial as <-. split; [done|].
      intros i ver conv _ Hc. exists conv. by split; [|right]. }
  unfold preserveUnknownFields.
  fold (clearsPreserveUnknownFields g crdVersions).
  destruct (clearsPreserveUnknownFields g crdVersions) eqn:Hclears.
  - pose proof Hclears as Honly.
    unfold clearsPreserveUnknownFields, v1beta1Only in Honly.
    apply andb_true_iff in Honly as [_ Honly].
    apply andb_true_iff in Honly as [Hone Hver]. apply Z.eqb_eq in Hone.
    destruct crdVersions as [|ver0 [|? ?]]; cbn [List.length] in Hone;
      try done; try lia.
    pose proof (Forall2_length _ _ _ Hconvs) as Hlen.
    destruct convs as [|conv [|? ?]]; simpl in Hlen; try lia.
    destruct (Hstep 0%nat ver0 conv eq_refl eq_refl) as (conv' & Hc' & Hrel).
    destruct convs1 as [|c1 rest]; [done|]. injection Hc' as ->.
    assert (exists crd, conv' = ObjV1beta1 crd) as [crd ->].
    { destruct Hrel as [? | ->]; [done|].
      destruct (Hcollected 0%nat ver0 conv eq_refl eq_refl) as [obj Hobj].
      unfold collected in Hobj. rewrite Hclears, orb_true_r in Hobj.
      destruct conv as [|crd]; [done | by exists crd]. }
    by eexists.
  - destruct (PreserveUnknownFields g) as [[|]|] eqn:Hpuf; try by eexists.
    unfold clearsPreserveUnknownFields in Hclears. rewrite Hpuf in Hclears.
    rewrite (Hflag eq_refl) in Hclears. done.
Qed.

Lemma Generate_kinds_Done (g : Generator) (ctx : Ctx') (crdVersions : list string)
    (kubeKinds : list GroupKind) :
  (forall groupKind ver, groupKind ∈ kubeKinds -> ver ∈ crdVersions ->
     exists conv, AsVersion ctx (attributed ctx groupKind) ver = inr conv
                  /\ is_Some (collected g crdVersions ver conv)) ->
  (PreserveUnknownFields g = Some true -> v1beta1Only crdVersions = true) ->
  forall crds : gmap string (list Object''),
    exists crds', Generate_kinds (UpstreamError := UpstreamError)
                    g ctx crdVersions kubeKinds crds = Done crds'.
Proof.
  intros Hconv Hflag.
  induction kubeKinds as [|groupKind kubeKinds IH]; intros crds;
    cbn [Generate_kinds]; [by eexists|].
  destruct (Generate_kind_Done g ctx crdVersions groupKind crds) as [crds1 ->];
    [|done|].
  - intros ver Hver. apply Hconv; [apply list_elem_of_here | done].
  - apply IH. intros k ver Hk Hver. apply Hconv; [by apply list_elem_of_further | done].
Qed.

Lemma forM_total {A B : Type} (f : A -> Gen B) (xs : list A) :
  Forall (fun x => forall l, is_Some (f x l)) xs ->
  forall l, is_Some (forM f xs l).
Proof.
  induction 1 as [|x xs Hx Hxs IH]; intros l; simpl; [apply ret_is_Some|].
  apply bind_is_Some; [done|]. intros.
  apply bind_is_Some; [done|]. intros. apply ret_is_Some.
Qed.

Lemma GenerateCrds_total (cw : codeWriter) (crds : list (string * list value))
    (l : importsList) :
  Forall (fun entry => Forall (fun obj => serializable obj = true) entry.2) crds ->
  is_Some (GenerateCrds cw crds l).
Proof.
  intros Hall. unfold GenerateCrds.
  apply bind_is_Some; [|intros; apply ret_is_Some].
  apply forM_total. eapply Forall_impl; [exact Hall|].
  intros [version objects] Hobjects l1. unfold GenerateCrds_version.
  apply bind_is_Some; [|intros; apply ret_is_Some].
  apply forM_total. eapply Forall_impl; [exact Hobjects|].
  intros obj Hobj l2. by apply serializable_total.
Qed.

(** [Generate] returns nil, without a panic, when the package name is
    set; the header file, if one is named, can be read; every kind can
    be converted to every requested version, to a [v1beta1] descriptor
    where the collapse or the [switch] expects one; unknown fields are to
    be preserved for [v1beta1] alone, if at all; both files can be
    written; and the descriptors are serializable. *)
Theorem Generate_succeeds (g : Generator) (ctx : Ctx') (l : importsList) :
  PackageName g <> "" ->
  (HeaderFile g = "" \/ exists text, ReadFile ctx (HeaderFile g) = inr text) ->
  (forall groupKind ver,
     groupKind ∈ FindKubeKinds ctx -> ver ∈ requestedVersions g ->
     exists conv, AsVersion ctx (attributed ctx groupKind) ver = inr conv
                  /\ is_Some (collected g (requestedVersions g) ver conv)) ->
  (PreserveUnknownFields g = Some true -> v1beta1Only (requestedVersions g) = true) ->
  (forall name file, Render ctx name file = None) ->
  (forall obj, serializable (reflect_ValueOf ctx obj) = true) ->
  exists l', Generate g ctx l = Some (None, l').
Proof.
  intros Hname Hheader Hconv Hflag Hrender Hvalues. unfold Generate.
  apply String.eqb_neq in Hname. rewrite Hname.
  assert (exists headerText,
            (if negb (String.eqb (HeaderFile g) "")
             then ReadFile ctx (HeaderFile g) else inr EmptyString)
            = inr headerText) as [headerText ->].
  { destruct Hheader as [-> | [text Htext]]; [by eexists|].
    rewrite Htext. destruct (negb _); by eexists. }
  destruct (FindMetav1 ctx) as [metav1Pkg|]; [|by eexists].
  destruct (Z.of_nat (List.length (FindKubeKinds ctx)) =? 0); [by eexists|].
  destruct (Generate_kinds_Done g ctx (requestedVersions g) (FindKubeKinds ctx)
              Hconv Hflag ∅) as [crds ->].
  rewrite Hrender.
  match goal with
  | |- context [GenerateCrds ?cw ?entries] =>
      destruct (GenerateCrds_total cw entries l) as [[crdsfile l1] Hfile]
  end.
  { apply Forall_fmap, Forall_true. intros [version objects]. cbn [snd].
    apply Forall_fmap, Forall_true. intros obj. apply Hvalues. }
  erewrite bind_Some by exact Hfile. rewrite Hrender. by eexists.
Qed.

End Succeeds.
